(** * Interactive molecular dynamics (IMD) session layer: wire codec,
      connection manager, command dispatcher, group synchronizer and
      coordinate unwrap of [src/gromacs/imd/imd.cpp], as a shallow embedding.

    The C code works on one mutable [t_gmx_IMD_setup]; here every function
    takes the session record and returns the updated one.  The transport
    primitives of [imdsocket.h] (poll, read, write, accept, byte order) and
    the broadcast primitives are not part of the file; they are modelled
    below, each under its own comment.  The text sent to the [MDLogger] has no
    influence on the session state and is left out. *)

From Stdlib Require Import ZArith List Lia Bool.
From Stdlib Require Import Strings.Byte.
From Stdlib Require Floats.SpecFloat.
From stdpp Require Import base list.
Import ListNotations.

Local Open Scope Z_scope.

(** ** 32-bit integers and their memory image *)

(** An [int32_t] is a [Z] in [-2^31, 2^31); arithmetic that can leave the
    range is wrapped with [wrap_int32]. *)
Definition int32_range (z : Z) : Prop := -2147483648 <= z < 2147483648.

Definition wrap_int32 (z : Z) : Z := (z + 2147483648) mod 4294967296 - 2147483648.

Definition Z_of_byte (b : byte) : Z := Z.of_N (Byte.to_N b).

Definition byte_of_Z (z : Z) : byte :=
  match Byte.of_N (Z.to_N (Z.land z 255)) with
  | Some b => b
  | None => x00
  end.

(** The four bytes of a 32-bit value, most significant first. *)
Definition be_bytes (x : Z) : list byte :=
  let u := x mod 4294967296 in
  [ byte_of_Z (Z.shiftr u 24); byte_of_Z (Z.shiftr u 16);
    byte_of_Z (Z.shiftr u 8); byte_of_Z u ].

Definition of_be_bytes (bs : list byte) : Z :=
  match bs with
  | [b0; b1; b2; b3] =>
      wrap_int32 (Z.shiftl (Z_of_byte b0) 24 + Z.shiftl (Z_of_byte b1) 16
                  + Z.shiftl (Z_of_byte b2) 8 + Z_of_byte b3)
  | _ => 0
  end.

(** ** Message kinds and the header *)

(** [IMDType_t]: the closed set of message kinds, in the order of the C enum
    ([IMD_NR], the number of entries, is not a kind). *)
Inductive IMDMessageType : Type :=
| IMD_DISCONNECT   (* client disconnect                             *)
| IMD_ENERGIES     (* energy data                                   *)
| IMD_FCOORDS      (* atomic coordinates                            *)
| IMD_GO           (* start command for the simulation              *)
| IMD_HANDSHAKE    (* handshake to determine little/big endianness  *)
| IMD_KILL         (* terminates the simulation                     *)
| IMD_MDCOMM       (* force data                                    *)
| IMD_PAUSE        (* pauses the simulation                         *)
| IMD_TRATE        (* sets the IMD transmission and processing rate *)
| IMD_IOERROR.     (* I/O error                                     *)

(** [static_cast<int32_t>(type)]. *)
Definition IMDType_code (t : IMDMessageType) : Z :=
  match t with
  | IMD_DISCONNECT => 0 | IMD_ENERGIES => 1 | IMD_FCOORDS => 2 | IMD_GO => 3
  | IMD_HANDSHAKE => 4 | IMD_KILL => 5 | IMD_MDCOMM => 6 | IMD_PAUSE => 7
  | IMD_TRATE => 8 | IMD_IOERROR => 9
  end.

(** [static_cast<IMDMessageType>(header.type)]: an integer off the wire need
    not name a kind; the [switch] sends such a value to its default case. *)
Definition IMDType_of_code (c : Z) : option IMDMessageType :=
  match c with
  | 0 => Some IMD_DISCONNECT | 1 => Some IMD_ENERGIES | 2 => Some IMD_FCOORDS
  | 3 => Some IMD_GO | 4 => Some IMD_HANDSHAKE | 5 => Some IMD_KILL
  | 6 => Some IMD_MDCOMM | 7 => Some IMD_PAUSE | 8 => Some IMD_TRATE
  | 9 => Some IMD_IOERROR
  | _ => None
  end.

Definition c_connectWait : Z := 1.
Definition c_headerSize : Z := 8.
Definition c_protocolVersion : Z := 2.

(** [IMDHeader]; [length_] is the field [length]. *)
Record IMDHeader : Type := Build_IMDHeader {
  type : Z;        (* Type of IMD message *)
  length_ : Z      (* Length *)
}.

(** Three components indexed [XX], [YY], [ZZ]: [rvec], [ivec] and the rows of
    a [matrix]. *)
Record vec3 (A : Type) : Type := Build_vec3 { XX : A; YY : A; ZZ : A }.
Arguments Build_vec3 {A} _ _ _.
Arguments XX {A} _.
Arguments YY {A} _.
Arguments ZZ {A} _.

Definition ivec : Type := vec3 Z.

(** [t_block]: molecule [i] spans the atoms [index[i] .. index[i+1]-1]. *)
Record t_block : Type := Build_t_block {
  nr : nat;
  index : list nat
}.

(** Modelled from the spec: the stop condition behind "request cooperative
    stop" ([gmx_stop_cond_t] of [sighandler.h]), as far as the command
    dispatcher sets it. *)
Inductive gmx_stop_cond_t : Type := gmx_stop_cond_none | gmx_stop_cond_next.

(** ** Transport *)

(** Modelled from the spec: the sockets of [imdsocket.h], "a byte-stream API
    with explicit non-blocking poll".  A socket carries the script of what
    the peer and the network will do: the answers of the successive polls,
    the bursts of bytes (or failures) the successive reads meet, and the
    outcome of the successive writes.  Polls and reads are scripted
    independently, so that no relation between them is assumed. *)
Inductive rd_event : Type :=
| Recv (bs : list byte)       (* these bytes are there to be read *)
| RdFail (eintr : bool).      (* the call returns -1; errno is EINTR or not *)

Inductive wr_event : Type :=
| Wrote (n : positive)        (* at most [n] bytes are taken *)
| WrFail (eintr : bool).      (* the call returns -1; errno is EINTR or not *)

Record IMDSocket : Type := Build_IMDSocket {
  sk_poll : list Z;           (* answers of the polls to come *)
  sk_in : list rd_event;      (* what the reads to come will meet *)
  sk_out : list wr_event;     (* what the writes to come will meet *)
  sk_sent : list byte;        (* the bytes written so far *)
  sk_eintr : bool             (* errno == EINTR *)
}.

(** Modelled from the spec: the listening socket.  Its polls tell whether a
    connection request is waiting, its backlog holds the connections
    [imdsock_accept] will hand out ([None] for a failed accept). *)
Record IMDListenSocket : Type := Build_IMDListenSocket {
  ls_poll : list Z;
  ls_backlog : list (option IMDSocket)
}.

(** Modelled from the spec: [imdsock_tryread], the poll.  It gives the next
    answer of the script, and 0 (nothing to read) when the script is
    exhausted; the time waited leaves no trace. *)
Definition imdsock_tryread (sk : IMDSocket) (timeoutsec timeoutusec : Z)
  : Z * IMDSocket :=
  match sk_poll sk with
  | [] => (0, sk)
  | r :: rest =>
      (r, Build_IMDSocket rest (sk_in sk) (sk_out sk) (sk_sent sk) (sk_eintr sk))
  end.

(** Modelled from the spec: [imdsock_tryread] on the listening socket. *)
Definition imdsock_tryread_listen (ls : IMDListenSocket)
  (timeoutsec timeoutusec : Z) : Z * IMDListenSocket :=
  match ls_poll ls with
  | [] => (0, ls)
  | r :: rest => (r, Build_IMDListenSocket rest (ls_backlog ls))
  end.

(** Modelled from the spec: [imdsock_accept], the next connection of the
    backlog, or a null socket. *)
Definition imdsock_accept (ls : IMDListenSocket)
  : option IMDSocket * IMDListenSocket :=
  match ls_backlog ls with
  | [] => (None, ls)
  | c :: rest => (c, Build_IMDListenSocket (ls_poll ls) rest)
  end.

(** Modelled from the spec: [imdsock_read(sock, buf, len)], with the count
    returned, the bytes stored at [buf], and the socket afterwards.  At most
    [len] bytes of the burst at the head of the script are taken, the others
    stay for the next read; a failure returns -1 and sets [errno]; a read on
    an exhausted script returns 0 (the peer has gone). *)
Definition imdsock_read (sk : IMDSocket) (len : Z)
  : Z * list byte * IMDSocket :=
  match sk_in sk with
  | [] => (0, [], sk)
  | Recv bs :: rest =>
      let got := take (Z.to_nat len) bs in
      let left := drop (Z.to_nat len) bs in
      (Z.of_nat (length got), got,
       Build_IMDSocket (sk_poll sk)
         (match left with [] => rest | _ => Recv left :: rest end)
         (sk_out sk) (sk_sent sk) (sk_eintr sk))
  | RdFail e :: rest =>
      (-1, [], Build_IMDSocket (sk_poll sk) rest (sk_out sk) (sk_sent sk) e)
  end.

(** Modelled from the spec: [imdsock_write(sock, buf, len)], with the count
    returned and the socket afterwards.  A write on an exhausted script
    sends everything. *)
Definition imdsock_write (sk : IMDSocket) (buf : list byte) (len : Z)
  : Z * IMDSocket :=
  match sk_out sk with
  | [] =>
      let n := Z.max 0 len in
      (n, Build_IMDSocket (sk_poll sk) (sk_in sk) []
            (sk_sent sk ++ take (Z.to_nat n) buf) (sk_eintr sk))
  | Wrote k :: rest =>
      let n := Z.max 0 (Z.min (Z.pos k) len) in
      (n, Build_IMDSocket (sk_poll sk) (sk_in sk) rest
            (sk_sent sk ++ take (Z.to_nat n) buf) (sk_eintr sk))
  | WrFail e :: rest =>
      (-1, Build_IMDSocket (sk_poll sk) (sk_in sk) rest (sk_sent sk) e)
  end.

Section IMD.

(** Byte order of the host: [true] for a little-endian machine. *)
Variable little_endian : bool.

(** The floating-point types are kept abstract: [real] for positions, box
    and forces, [double] for the simulation time, with the operations the
    code applies to them. *)
Variable real : Type.
Variable double : Type.
Variable real_zero : real.                     (* 0 *)
Variable real_ne : real -> real -> bool.       (* a != b *)
Variable real_sub : real -> real -> real.      (* a - b *)
Variable real_mul_int : Z -> real -> real.     (* t * a, t an int *)
(** [v * conversion] for the [float] stored in four bytes [v] of the receive
    buffer, [conversion = CAL2JOULE * NM2A]. *)
Variable force_to_md : list byte -> real.

Definition rvec : Type := vec3 real.
Definition matrix : Type := vec3 rvec.

(** What the allocator leaves in the memory it hands out when an array
    grows: element [i] of the grown array holds [heap_... i], a value
    nothing is known about.  One field for each array that is resized. *)
Record heap_contents : Type := Build_heap_contents {
  heap_vmd_f_ind : nat -> byte;
  heap_vmd_forces : nat -> byte;
  heap_f_ind : nat -> Z;
  heap_f : nat -> rvec;
  heap_index : nat -> nat
}.

Variable heap : heap_contents.

(** *** Byte order *)

(** The memory image of an [int32_t] on this host, and the value held by
    four bytes of memory. *)
Definition store_int32 (x : Z) : list byte :=
  if little_endian then rev (be_bytes x) else be_bytes x.

Definition load_int32 (bs : list byte) : Z :=
  of_be_bytes (if little_endian then rev bs else bs).

(** Modelled from the spec: [imd_htonl] of [imdsocket.h], one half of the
    "reversible byte-order transform" between the host order and the network
    (big-endian) order.  [imd_htonl x] is the value whose memory image is
    [x] in network order. *)
Definition imd_htonl (x : Z) : Z := load_int32 (be_bytes x).

(** Modelled from the spec: [imd_ntohl] of [imdsocket.h], the other half.
    [imd_ntohl x] reads the memory image of [x] as a number in network
    order. *)
Definition imd_ntohl (x : Z) : Z := of_be_bytes (store_int32 x).

(** [fill_header]: fills the header with message and the length argument. *)
Definition fill_header (t : IMDMessageType) (len : Z) : IMDHeader :=
  {| type := imd_htonl (IMDType_code t); length_ := imd_htonl len |}.

(** [swap_header]: swaps the endianess of the header. *)
Definition swap_header (header : IMDHeader) : IMDHeader :=
  {| type := imd_ntohl (type header); length_ := imd_ntohl (length_ header) |}.

(** [reinterpret_cast<char *>(&header)], read and written. *)
Definition header_bytes (header : IMDHeader) : list byte :=
  store_int32 (type header) ++ store_int32 (length_ header).

Definition header_of_bytes (bs : list byte) : IMDHeader :=
  {| type := load_int32 (take 4 bs); length_ := load_int32 (take 4 (drop 4 bs)) |}.

(** *** Reading and writing whole buffers *)

(** The [while (leftcount != 0)] loop of [imd_read_multiple]; [got] are the
    bytes stored from [datptr] on.  Every turn that goes round again has used
    up one entry of the script (see [imd_read_multiple_fuel]). *)
Fixpoint imd_read_multiple_loop (fuel : nat) (sk : IMDSocket) (got : list byte)
  (toread leftcount : Z) : Z * list byte * IMDSocket :=
  if leftcount =? 0 then (toread - leftcount, got, sk)
  else
    match fuel with
    | O => (toread - leftcount, got, sk)
    | S fuel' =>
        let '(countread, bs, sk') := imdsock_read sk leftcount in
        if countread <? 0 then
          (* interrupted function call, try again... *)
          if sk_eintr sk' then imd_read_multiple_loop fuel' sk' got toread leftcount
          (* this is an unexpected error, return what we got *)
          else (toread - leftcount, got, sk')
        else if countread =? 0 then
          (* nothing read, finished *)
          (toread - leftcount, got, sk')
        else
          imd_read_multiple_loop fuel' sk' (got ++ bs) toread (leftcount - countread)
    end.

(** [imd_read_multiple]: the number of bytes read, the bytes, the socket. *)
Definition imd_read_multiple (sk : IMDSocket) (toread : Z)
  : Z * list byte * IMDSocket :=
  imd_read_multiple_loop (S (length (sk_in sk))) sk [] toread toread.

(** The loop of [imd_write_multiple] over the bytes still to be sent. *)
Fixpoint imd_write_multiple_loop (fuel : nat) (sk : IMDSocket) (dat : list byte)
  (towrite leftcount : Z) : Z * IMDSocket :=
  if leftcount =? 0 then (towrite - leftcount, sk)
  else
    match fuel with
    | O => (towrite - leftcount, sk)
    | S fuel' =>
        let '(countwritten, sk') := imdsock_write sk dat leftcount in
        if countwritten <=? 0 then
          if sk_eintr sk' then imd_write_multiple_loop fuel' sk' dat towrite leftcount
          else (towrite - leftcount, sk')
        else
          imd_write_multiple_loop fuel' sk' (drop (Z.to_nat countwritten) dat)
            towrite (leftcount - countwritten)
    end.

Definition imd_write_multiple (sk : IMDSocket) (dat : list byte) (towrite : Z)
  : Z * IMDSocket :=
  imd_write_multiple_loop (S (length (sk_out sk))) sk dat towrite towrite.

(** [imd_handshake]: non-zero (here [true]) when the write fell short. *)
Definition imd_handshake (sk : IMDSocket) : bool * IMDSocket :=
  let header := fill_header IMD_HANDSHAKE 1 in
  (* client wants unswapped version *)
  let header := {| type := type header; length_ := c_protocolVersion |} in
  let '(n, sk') := imd_write_multiple sk (header_bytes header) c_headerSize in
  (negb (n =? c_headerSize), sk').

(** [imd_recv_header]: the message kind as an integer, the value of
    [*length] afterwards, and the socket. *)
Definition imd_recv_header (sk : IMDSocket) (len : Z) : Z * Z * IMDSocket :=
  let '(n, bs, sk') := imd_read_multiple sk c_headerSize in
  if negb (n =? c_headerSize) then (IMDType_code IMD_IOERROR, len, sk')
  else
    let header := swap_header (header_of_bytes bs) in
    (type header, length_ header, sk').

(** What a buffer holds after [bs] was stored at its start. *)
Definition store_at_start (bs buf : list byte) : list byte :=
  bs ++ drop (length bs) buf.

(** [imd_recv_mdcomm]: success, the two buffers and the socket afterwards.
    The sizes are computed in [size_t] and assigned to an [int]. *)
Definition imd_recv_mdcomm (sk : IMDSocket) (nforces : Z)
  (forcendx forces : list byte) : bool * list byte * list byte * IMDSocket :=
  (* reading indices *)
  let retsize := wrap_int32 (4 * nforces) in
  let '(retbytes, bs, sk1) := imd_read_multiple sk retsize in
  let forcendx' := store_at_start bs forcendx in
  if negb (retbytes =? retsize) then (false, forcendx', forces, sk1)
  else
    (* reading forces as float array *)
    let retsize := wrap_int32 (3 * 4 * nforces) in
    let '(retbytes, bs, sk2) := imd_read_multiple sk1 retsize in
    let forces' := store_at_start bs forces in
    if negb (retbytes =? retsize) then (false, forcendx', forces', sk2)
    else (true, forcendx', forces', sk2).

(** *** The session *)

(** The force log [outf], a C stream: what has reached the file and what is
    still in the stream buffer.  One line per call of [output_imd_forces]. *)
Record imd_log_line : Type := Build_imd_log_line {
  ll_time : double;
  ll_nforces : Z;
  ll_atoms : list (Z * rvec)
}.

Record FILE : Type := Build_FILE {
  f_disk : list imd_log_line;
  f_buf : list imd_log_line
}.

Definition fflush (fp : option FILE) : option FILE :=
  match fp with
  | Some fp => Some {| f_disk := f_disk fp ++ f_buf fp; f_buf := [] |}
  | None => None
  end.

Definition fprintf (fp : FILE) (l : imd_log_line) : FILE :=
  {| f_disk := f_disk fp; f_buf := f_buf fp ++ [l] |}.

(** [t_gmx_IMD_setup], the fields the functions below use.  [imd_nat] and
    [imd_length] are the fields [nat] and [length]; [stop_condition] is the
    process-wide stop condition behind [gmx_set_stop_condition]. *)
Record t_gmx_IMD : Type := Build_IMD {
  outf : option FILE;
  imd_nat : Z;
  ind : list Z;
  xa : list rvec;
  xa_shifts : list ivec;
  nstimd : Z;
  nstimd_new : Z;
  nstimd_def : Z;
  socket : IMDListenSocket;
  clientsocket : option IMDSocket;
  imd_length : Z;
  bWConnect : bool;
  bTerminated : bool;
  bTerminatable : bool;
  bConnected : bool;
  bNewForces : bool;
  bForceActivated : bool;
  vmd_nforces : Z;
  vmd_f_ind : list byte;
  vmd_forces : list byte;
  nforces : Z;
  f_ind : list Z;
  f : list rvec;
  mols : t_block;
  old_nforces : Z;
  old_f_ind : list Z;
  old_forces : list rvec;
  stop_condition : gmx_stop_cond_t
}.

Definition set_outf (v : option FILE) (s : t_gmx_IMD) : t_gmx_IMD :=
  Build_IMD
    v (imd_nat s) (ind s) (xa s) (xa_shifts s) (nstimd s) (nstimd_new s)
    (nstimd_def s) (socket s) (clientsocket s) (imd_length s) (bWConnect s)
    (bTerminated s) (bTerminatable s) (bConnected s) (bNewForces s)
    (bForceActivated s) (vmd_nforces s) (vmd_f_ind s) (vmd_forces s)
    (nforces s) (f_ind s) (f s) (mols s) (old_nforces s) (old_f_ind s)
    (old_forces s) (stop_condition s).

Definition set_xa (v : list rvec) (s : t_gmx_IMD) : t_gmx_IMD :=
  Build_IMD
    (outf s) (imd_nat s) (ind s) v (xa_shifts s) (nstimd s) (nstimd_new s)
    (nstimd_def s) (socket s) (clientsocket s) (imd_length s) (bWConnect s)
    (bTerminated s) (bTerminatable s) (bConnected s) (bNewForces s)
    (bForceActivated s) (vmd_nforces s) (vmd_f_ind s) (vmd_forces s)
    (nforces s) (f_ind s) (f s) (mols s) (old_nforces s) (old_f_ind s)
    (old_forces s) (stop_condition s).

Definition set_nstimd (v : Z) (s : t_gmx_IMD) : t_gmx_IMD :=
  Build_IMD
    (outf s) (imd_nat s) (ind s) (xa s) (xa_shifts s) v (nstimd_new s)
    (nstimd_def s) (socket s) (clientsocket s) (imd_length s) (bWConnect s)
    (bTerminated s) (bTerminatable s) (bConnected s) (bNewForces s)
    (bForceActivated s) (vmd_nforces s) (vmd_f_ind s) (vmd_forces s)
    (nforces s) (f_ind s) (f s) (mols s) (old_nforces s) (old_f_ind s)
    (old_forces s) (stop_condition s).

Definition set_nstimd_new (v : Z) (s : t_gmx_IMD) : t_gmx_IMD :=
  Build_IMD
    (outf s) (imd_nat s) (ind s) (xa s) (xa_shifts s) (nstimd s) v (nstimd_def s)
    (socket s) (clientsocket s) (imd_length s) (bWConnect s) (bTerminated s)
    (bTerminatable s) (bConnected s) (bNewForces s) (bForceActivated s)
    (vmd_nforces s) (vmd_f_ind s) (vmd_forces s) (nforces s) (f_ind s) (f s)
    (mols s) (old_nforces s) (old_f_ind s) (old_forces s) (stop_condition s).

Definition set_socket (v : IMDListenSocket) (s : t_gmx_IMD) : t_gmx_IMD :=
  Build_IMD
    (outf s) (imd_nat s) (ind s) (xa s) (xa_shifts s) (nstimd s) (nstimd_new s)
    (nstimd_def s) v (clientsocket s) (imd_length s) (bWConnect s)
    (bTerminated s) (bTerminatable s) (bConnected s) (bNewForces s)
    (bForceActivated s) (vmd_nforces s) (vmd_f_ind s) (vmd_forces s)
    (nforces s) (f_ind s) (f s) (mols s) (old_nforces s) (old_f_ind s)
    (old_forces s) (stop_condition s).

Definition set_clientsocket (v : option IMDSocket) (s : t_gmx_IMD) : t_gmx_IMD :=
  Build_IMD
    (outf s) (imd_nat s) (ind s) (xa s) (xa_shifts s) (nstimd s) (nstimd_new s)
    (nstimd_def s) (socket s) v (imd_length s) (bWConnect s) (bTerminated s)
    (bTerminatable s) (bConnected s) (bNewForces s) (bForceActivated s)
    (vmd_nforces s) (vmd_f_ind s) (vmd_forces s) (nforces s) (f_ind s) (f s)
    (mols s) (old_nforces s) (old_f_ind s) (old_forces s) (stop_condition s).

Definition set_imd_length (v : Z) (s : t_gmx_IMD) : t_gmx_IMD :=
  Build_IMD
    (outf s) (imd_nat s) (ind s) (xa s) (xa_shifts s) (nstimd s) (nstimd_new s)
    (nstimd_def s) (socket s) (clientsocket s) v (bWConnect s) (bTerminated s)
    (bTerminatable s) (bConnected s) (bNewForces s) (bForceActivated s)
    (vmd_nforces s) (vmd_f_ind s) (vmd_forces s) (nforces s) (f_ind s) (f s)
    (mols s) (old_nforces s) (old_f_ind s) (old_forces s) (stop_condition s).

Definition set_bWConnect (v : bool) (s : t_gmx_IMD) : t_gmx_IMD :=
  Build_IMD
    (outf s) (imd_nat s) (ind s) (xa s) (xa_shifts s) (nstimd s) (nstimd_new s)
    (nstimd_def s) (socket s) (clientsocket s) (imd_length s) v
    (bTerminated s) (bTerminatable s) (bConnected s) (bNewForces s)
    (bForceActivated s) (vmd_nforces s) (vmd_f_ind s) (vmd_forces s)
    (nforces s) (f_ind s) (f s) (mols s) (old_nforces s) (old_f_ind s)
    (old_forces s) (stop_condition s).

Definition set_bTerminated (v : bool) (s : t_gmx_IMD) : t_gmx_IMD :=
  Build_IMD
    (outf s) (imd_nat s) (ind s) (xa s) (xa_shifts s) (nstimd s) (nstimd_new s)
    (nstimd_def s) (socket s) (clientsocket s) (imd_length s) (bWConnect s) v
    (bTerminatable s) (bConnected s) (bNewForces s) (bForceActivated s)
    (vmd_nforces s) (vmd_f_ind s) (vmd_forces s) (nforces s) (f_ind s) (f s)
    (mols s) (old_nforces s) (old_f_ind s) (old_forces s) (stop_condition s).

Definition set_bConnected (v : bool) (s : t_gmx_IMD) : t_gmx_IMD :=
  Build_IMD
    (outf s) (imd_nat s) (ind s) (xa s) (xa_shifts s) (nstimd s) (nstimd_new s)
    (nstimd_def s) (socket s) (clientsocket s) (imd_length s) (bWConnect s)
    (bTerminated s) (bTerminatable s) v (bNewForces s) (bForceActivated s)
    (vmd_nforces s) (vmd_f_ind s) (vmd_forces s) (nforces s) (f_ind s) (f s)
    (mols s) (old_nforces s) (old_f_ind s) (old_forces s) (stop_condition s).

Definition set_bNewForces (v : bool) (s : t_gmx_IMD) : t_gmx_IMD :=
  Build_IMD
    (outf s) (imd_nat s) (ind s) (xa s) (xa_shifts s) (nstimd s) (nstimd_new s)
    (nstimd_def s) (socket s) (clientsocket s) (imd_length s) (bWConnect s)
    (bTerminated s) (bTerminatable s) (bConnected s) v (bForceActivated s)
    (vmd_nforces s) (vmd_f_ind s) (vmd_forces s) (nforces s) (f_ind s) (f s)
    (mols s) (old_nforces s) (old_f_ind s) (old_forces s) (stop_condition s).

Definition set_vmd_nforces (v : Z) (s : t_gmx_IMD) : t_gmx_IMD :=
  Build_IMD
    (outf s) (imd_nat s) (ind s) (xa s) (xa_shifts s) (nstimd s) (nstimd_new s)
    (nstimd_def s) (socket s) (clientsocket s) (imd_length s) (bWConnect s)
    (bTerminated s) (bTerminatable s) (bConnected s) (bNewForces s)
    (bForceActivated s) v (vmd_f_ind s) (vmd_forces s) (nforces s) (f_ind s)
    (f s) (mols s) (old_nforces s) (old_f_ind s) (old_forces s)
    (stop_condition s).

Definition set_vmd_f_ind (v : list byte) (s : t_gmx_IMD) : t_gmx_IMD :=
  Build_IMD
    (outf s) (imd_nat s) (ind s) (xa s) (xa_shifts s) (nstimd s) (nstimd_new s)
    (nstimd_def s) (socket s) (clientsocket s) (imd_length s) (bWConnect s)
    (bTerminated s) (bTerminatable s) (bConnected s) (bNewForces s)
    (bForceActivated s) (vmd_nforces s) v (vmd_forces s) (nforces s) (f_ind s)
    (f s) (mols s) (old_nforces s) (old_f_ind s) (old_forces s)
    (stop_condition s).

Definition set_vmd_forces (v : list byte) (s : t_gmx_IMD) : t_gmx_IMD :=
  Build_IMD
    (outf s) (imd_nat s) (ind s) (xa s) (xa_shifts s) (nstimd s) (nstimd_new s)
    (nstimd_def s) (socket s) (clientsocket s) (imd_length s) (bWConnect s)
    (bTerminated s) (bTerminatable s) (bConnected s) (bNewForces s)
    (bForceActivated s) (vmd_nforces s) (vmd_f_ind s) v (nforces s) (f_ind s)
    (f s) (mols s) (old_nforces s) (old_f_ind s) (old_forces s)
    (stop_condition s).

Definition set_nforces (v : Z) (s : t_gmx_IMD) : t_gmx_IMD :=
  Build_IMD
    (outf s) (imd_nat s) (ind s) (xa s) (xa_shifts s) (nstimd s) (nstimd_new s)
    (nstimd_def s) (socket s) (clientsocket s) (imd_length s) (bWConnect s)
    (bTerminated s) (bTerminatable s) (bConnected s) (bNewForces s)
    (bForceActivated s) (vmd_nforces s) (vmd_f_ind s) (vmd_forces s) v
    (f_ind s) (f s) (mols s) (old_nforces s) (old_f_ind s) (old_forces s)
    (stop_condition s).

Definition set_f_ind (v : list Z) (s : t_gmx_IMD) : t_gmx_IMD :=
  Build_IMD
    (outf s) (imd_nat s) (ind s) (xa s) (xa_shifts s) (nstimd s) (nstimd_new s)
    (nstimd_def s) (socket s) (clientsocket s) (imd_length s) (bWConnect s)
    (bTerminated s) (bTerminatable s) (bConnected s) (bNewForces s)
    (bForceActivated s) (vmd_nforces s) (vmd_f_ind s) (vmd_forces s)
    (nforces s) v (f s) (mols s) (old_nforces s) (old_f_ind s) (old_forces s)
    (stop_condition s).

Definition set_f (v : list rvec) (s : t_gmx_IMD) : t_gmx_IMD :=
  Build_IMD
    (outf s) (imd_nat s) (ind s) (xa s) (xa_shifts s) (nstimd s) (nstimd_new s)
    (nstimd_def s) (socket s) (clientsocket s) (imd_length s) (bWConnect s)
    (bTerminated s) (bTerminatable s) (bConnected s) (bNewForces s)
    (bForceActivated s) (vmd_nforces s) (vmd_f_ind s) (vmd_forces s)
    (nforces s) (f_ind s) v (mols s) (old_nforces s) (old_f_ind s)
    (old_forces s) (stop_condition s).

Definition set_old_nforces (v : Z) (s : t_gmx_IMD) : t_gmx_IMD :=
  Build_IMD
    (outf s) (imd_nat s) (ind s) (xa s) (xa_shifts s) (nstimd s) (nstimd_new s)
    (nstimd_def s) (socket s) (clientsocket s) (imd_length s) (bWConnect s)
    (bTerminated s) (bTerminatable s) (bConnected s) (bNewForces s)
    (bForceActivated s) (vmd_nforces s) (vmd_f_ind s) (vmd_forces s)
    (nforces s) (f_ind s) (f s) (mols s) v (old_f_ind s) (old_forces s)
    (stop_condition s).

Definition set_old_f_ind (v : list Z) (s : t_gmx_IMD) : t_gmx_IMD :=
  Build_IMD
    (outf s) (imd_nat s) (ind s) (xa s) (xa_shifts s) (nstimd s) (nstimd_new s)
    (nstimd_def s) (socket s) (clientsocket s) (imd_length s) (bWConnect s)
    (bTerminated s) (bTerminatable s) (bConnected s) (bNewForces s)
    (bForceActivated s) (vmd_nforces s) (vmd_f_ind s) (vmd_forces s)
    (nforces s) (f_ind s) (f s) (mols s) (old_nforces s) v (old_forces s)
    (stop_condition s).

Definition set_old_forces (v : list rvec) (s : t_gmx_IMD) : t_gmx_IMD :=
  Build_IMD
    (outf s) (imd_nat s) (ind s) (xa s) (xa_shifts s) (nstimd s) (nstimd_new s)
    (nstimd_def s) (socket s) (clientsocket s) (imd_length s) (bWConnect s)
    (bTerminated s) (bTerminatable s) (bConnected s) (bNewForces s)
    (bForceActivated s) (vmd_nforces s) (vmd_f_ind s) (vmd_forces s)
    (nforces s) (f_ind s) (f s) (mols s) (old_nforces s) (old_f_ind s) v
    (stop_condition s).

Definition set_stop_condition (v : gmx_stop_cond_t) (s : t_gmx_IMD) : t_gmx_IMD :=
  Build_IMD
    (outf s) (imd_nat s) (ind s) (xa s) (xa_shifts s) (nstimd s) (nstimd_new s)
    (nstimd_def s) (socket s) (clientsocket s) (imd_length s) (bWConnect s)
    (bTerminated s) (bTerminatable s) (bConnected s) (bNewForces s)
    (bForceActivated s) (vmd_nforces s) (vmd_f_ind s) (vmd_forces s)
    (nforces s) (f_ind s) (f s) (mols s) (old_nforces s) (old_f_ind s)
    (old_forces s) v.


(** Arrays indexed by an [int]. *)
Definition zth {A : Type} (l : list A) (i : Z) (d : A) : A :=
  if i <? 0 then d else nth (Z.to_nat i) l d.

(** The indices [0 .. n-1] of a [for (i = 0; i < n; i++)] loop. *)
Definition upto (n : Z) : list nat := seq 0 (Z.to_nat n).

(** Modelled from the spec: [srenew] of [smalloc.h], which "(re)sizes" an
    array to [n] elements with [realloc]: the elements kept are those
    already there, the new ones are not initialised: element [i] holds
    [fresh i], whatever the allocator left there. *)
Definition srenew {A : Type} (fresh : nat -> A) (old : list A) (n : Z) : list A :=
  take (Z.to_nat n) old
  ++ map fresh (seq (length old) (Z.to_nat n - length old)).

(** *** Connection manager *)

(** [imd_disconnect]: disconnect the client. *)
Definition imd_disconnect (s : t_gmx_IMD) : t_gmx_IMD :=
  (* Write out any buffered pulling data *)
  let s := set_outf (fflush (outf s)) s in
  (* we first try to shut down the clientsocket (nothing of the session
     changes), then we reset the IMD step to its default, and reset the
     connection boolean *)
  let s := set_nstimd_new (nstimd_def s) s in
  let s := set_clientsocket None s in
  set_bConnected false s.

(** [imd_fatal]: prints an error message and disconnects the client. *)
Definition imd_fatal (s : t_gmx_IMD) : t_gmx_IMD := imd_disconnect s.

(** [imd_tryconnect]: check whether we got an incoming connection. *)
Definition imd_tryconnect (s : t_gmx_IMD) : bool * t_gmx_IMD :=
  let '(r, ls) := imdsock_tryread_listen (socket s) 0 0 in
  let s := set_socket ls s in
  if 0 <? r then
    (* yes, we got something, accept on clientsocket *)
    let '(c, ls) := imdsock_accept (socket s) in
    let s := set_clientsocket c (set_socket ls s) in
    match clientsocket s with
    | None => (false, s)
    | Some sk =>
        (* handshake with client *)
        let '(failed, sk) := imd_handshake sk in
        let s := set_clientsocket (Some sk) s in
        if failed then (false, imd_fatal s)
        else
          (* Check if we get the proper "GO" command from client. *)
          let '(r, sk) := imdsock_tryread sk c_connectWait 0 in
          let s := set_clientsocket (Some sk) s in
          let '(nogo, s) :=
            if negb (r =? 1) then (true, s)
            else
              let '(itype, len, sk) := imd_recv_header sk (imd_length s) in
              (negb (itype =? IMDType_code IMD_GO),
               set_imd_length len (set_clientsocket (Some sk) s)) in
          let s := if nogo then imd_fatal s else s in
          (* IMD connected *)
          (true, set_bConnected true s)
    end
  else (false, s).

(** *** Forces received from the client *)

(** [imd_prepare_vmd_Forces]: [vmd_f_ind] holds [vmd_nforces] 32-bit
    indices, [vmd_forces] three [float]s for each; both are kept as the raw
    bytes received. *)
Definition imd_prepare_vmd_Forces (s : t_gmx_IMD) : t_gmx_IMD :=
  let s := set_vmd_f_ind
             (srenew (heap_vmd_f_ind heap) (vmd_f_ind s) (4 * vmd_nforces s)) s in
  set_vmd_forces
    (srenew (heap_vmd_forces heap) (vmd_forces s) (4 * (3 * vmd_nforces s))) s.

(** [imd_read_vmd_Forces]: reads forces received via IMD.  Only called while
    a client socket is held. *)
Definition imd_read_vmd_Forces (s : t_gmx_IMD) : t_gmx_IMD :=
  (* the length of the previously received header tells us the nr of forces
     we will receive *)
  let s := set_vmd_nforces (imd_length s) s in
  (* prepare the arrays *)
  let s := imd_prepare_vmd_Forces s in
  (* Now we read the forces... *)
  match clientsocket s with
  | None => s
  | Some sk =>
      let '(ok, forcendx, forces, sk) :=
        imd_recv_mdcomm sk (vmd_nforces s) (vmd_f_ind s) (vmd_forces s) in
      let s := set_vmd_forces forces (set_vmd_f_ind forcendx
                 (set_clientsocket (Some sk) s)) in
      if negb ok then imd_fatal s else s
  end.

(** [imd_prepare_MD_Forces]: prepares the MD force arrays. *)
Definition imd_prepare_MD_Forces (s : t_gmx_IMD) : t_gmx_IMD :=
  let s := set_f_ind (srenew (heap_f_ind heap) (f_ind s) (nforces s)) s in
  set_f (srenew (heap_f heap) (f s) (nforces s)) s.

(** [vmd_f_ind[i]] and the three [float]s [vmd_forces[3*i + k]], out of the
    raw buffers. *)
Definition vmd_f_ind_at (s : t_gmx_IMD) (i : nat) : Z :=
  load_int32 (take 4 (drop (4 * i) (vmd_f_ind s))).

Definition vmd_forces_at (s : t_gmx_IMD) (k : nat) : list byte :=
  take 4 (drop (4 * k) (vmd_forces s)).

(** [imd_copyto_MD_Forces]: copy IMD forces to MD forces, with the unit
    conversion. *)
Definition imd_copyto_MD_Forces (s : t_gmx_IMD) : t_gmx_IMD :=
  fold_left
    (fun s i =>
       let s := set_f_ind (<[i := vmd_f_ind_at s i]> (f_ind s)) s in
       set_f (<[i := Build_vec3 (force_to_md (vmd_forces_at s (3 * i)))
                                (force_to_md (vmd_forces_at s (3 * i + 1)))
                                (force_to_md (vmd_forces_at s (3 * i + 2)))]>
                (f s)) s)
    (upto (nforces s)) s.

Definition rvec_zero : rvec := Build_vec3 real_zero real_zero real_zero.

(** [bForcesChanged]: TRUE if any of the forces or indices changed. *)
Definition bForcesChanged (s : t_gmx_IMD) : bool :=
  (* First, check whether the number of pulled atoms changed *)
  if negb (nforces s =? old_nforces s) then true
  (* Second, check whether any of the involved atoms changed *)
  else if existsb (fun i => negb (nth i (f_ind s) 0 =? nth i (old_f_ind s) 0))
            (upto (nforces s)) then true
  (* Third, check whether all forces are the same *)
  else existsb
         (fun i =>
            let v := nth i (f s) rvec_zero in
            let o := nth i (old_forces s) rvec_zero in
            real_ne (XX v) (XX o) || real_ne (YY v) (YY o) || real_ne (ZZ v) (ZZ o))
         (upto (nforces s)).

(** [keep_old_values]: fill the old_f_ind and old_forces arrays.  The
    source writes [old_f_ind[i]] and [old_forces[i]] for every [i] below
    [nforces] without a check; the two arrays have the size they were
    allocated with, and a write past their end, undefined in the source,
    is left out here.  What is proved of the log below asks for room for
    [nforces] entries. *)
Definition keep_old_values (s : t_gmx_IMD) : t_gmx_IMD :=
  let s := set_old_nforces (nforces s) s in
  fold_left
    (fun s i =>
       let s := set_old_f_ind (<[i := nth i (f_ind s) 0]> (old_f_ind s)) s in
       set_old_forces (<[i := nth i (f s) rvec_zero]> (old_forces s)) s)
    (upto (nforces s)) s.

(** [rvecs_differ]: TRUE if any component of the two rvecs differs. *)
Definition rvecs_differ (v1 v2 : rvec) : bool :=
  real_ne (XX v1) (XX v2) || real_ne (YY v1) (YY v2) || real_ne (ZZ v1) (ZZ v2).

(** [output_imd_forces]: write the applied pull forces to the log [fp].
    [ind[f_ind[i]]] is read without a check; for an index outside [ind],
    where the read is undefined in the source, the line shows 0. *)
Definition output_imd_forces (fp : FILE) (s : t_gmx_IMD) (time : double)
  : t_gmx_IMD :=
  if bForcesChanged s then
    let changed :=
      List.filter (fun i => rvecs_differ (nth i (f s) rvec_zero)
                                    (nth i (old_forces s) rvec_zero))
             (upto (nforces s)) in
    let line :=
      {| ll_time := time; ll_nforces := nforces s;
         ll_atoms := map (fun i => (zth (ind s) (nth i (f_ind s) 0) 0 + 1,
                                    nth i (f s) rvec_zero)) changed |} in
    keep_old_values (set_outf (Some (fprintf fp line)) s)
  else s.

(** *** Group synchronizer *)

(** Modelled from the spec: the process group [t_commrec], with the rank of
    this process and the number of processes. *)
Record t_commrec : Type := Build_t_commrec { nodeid : nat; nnodes : nat }.

(** Modelled from the spec: [PAR(cr)], "is this a multi-process run". *)
Definition PAR (cr : t_commrec) : bool := (1 <? nnodes cr)%nat.

(** Modelled from the spec: [MASTER(cr)], true on the coordinator. *)
Definition MASTER (cr : t_commrec) : bool := (nodeid cr =? 0)%nat.

(** The values the coordinator puts on the wire during its run of
    [imd_sync_nodes], in the order of the broadcasts; a worker runs the
    function with them. *)
Record bcast : Type := Build_bcast {
  bc_bConnected : bool;
  bc_nstimd_new : Z;
  bc_new_nforces : Z;
  bc_f_ind : list Z;
  bc_f : list rvec
}.

(** Modelled from the spec: [block_bc(cr, x)], "broadcast scalar from
    coordinator to all workers"; afterwards [x] is the coordinator's [x]. *)
Definition block_bc {A : Type} (cr : t_commrec) (wire mine : A) : A :=
  if MASTER cr then mine else wire.

(** Modelled from the spec: [nblock_bc(cr, n, x)], the same for the first
    [n] elements of the array [x]. *)
Definition nblock_bc {A : Type} (cr : t_commrec) (n : Z) (wire mine : list A)
  : list A :=
  if MASTER cr then mine
  else take (Z.to_nat n) wire ++ drop (Z.to_nat n) mine.

(** The block of [imd_sync_nodes] under [if (new_nforces >= 0)]: the new
    forces are taken over and made known to all nodes. *)
Definition imd_sync_new_forces (cr : t_commrec) (wire : bcast) (s : t_gmx_IMD)
  (t : double) (new_nforces : Z) : t_gmx_IMD :=
  (* set local VMD and nforces *)
  let s := set_vmd_nforces new_nforces s in
  let s := set_nforces (vmd_nforces s) s in
  (* now everybody knows the number of forces in f_ind, so we can prepare
     the target arrays for indices and forces *)
  let s := imd_prepare_MD_Forces s in
  (* we first update the MD forces on the master by converting the VMD
     forces *)
  let s :=
    if MASTER cr then
      let s := imd_copyto_MD_Forces s in
      (* We also write out forces on every update, so that we know which
         forces are applied for every step *)
      match outf s with
      | Some fp => output_imd_forces fp s t
      | None => s
      end
    else s in
  (* In parallel mode we communicate the to-be-applied forces to the other
     nodes *)
  let s :=
    if PAR cr then
      let s := set_f_ind (nblock_bc cr (nforces s) (bc_f_ind wire) (f_ind s)) s in
      set_f (nblock_bc cr (nforces s) (bc_f wire) (f s)) s
    else s in
  (* done communicating the forces, reset bNewForces *)
  set_bNewForces false s.

(** The count [imd_sync_nodes] computes on the master: the number of new
    forces, made negative when no new ones were received. *)
Definition signed_new_nforces (s : t_gmx_IMD) : Z :=
  if bNewForces s then vmd_nforces s
  (* make the "new_forces" negative, when we did not receive new ones *)
  else wrap_int32 (vmd_nforces s * -1).

(** [imd_sync_nodes]: synchronize the nodes.  Returned with the session is
    the local [new_nforces]. *)
Definition imd_sync_nodes (cr : t_commrec) (wire : bcast) (s : t_gmx_IMD)
  (t : double) : t_gmx_IMD * Z :=
  let new_nforces := 0 in
  (* Notify the other nodes whether we are still connected. *)
  let s := if PAR cr
           then set_bConnected (block_bc cr (bc_bConnected wire) (bConnected s)) s
           else s in
  (* ...if not connected, the job is done here. *)
  if negb (bConnected s) then (s, new_nforces)
  else
    (* Let the other nodes know whether we got a new IMD synchronization
       frequency. *)
    let s := if PAR cr
             then set_nstimd_new (block_bc cr (bc_nstimd_new wire) (nstimd_new s)) s
             else s in
    (* Now we all set the (new) nstimd communication time step *)
    let s := set_nstimd (nstimd_new s) s in
    (* We're done if we don't allow pulling at all *)
    if negb (bForceActivated s) then (s, new_nforces)
    else
      (* OK, let's check if we have received forces which we need to
         communicate to the other nodes *)
      let new_nforces :=
        if MASTER cr then signed_new_nforces s else new_nforces in
      (* make new_forces known to the clients *)
      let new_nforces :=
        if PAR cr then block_bc cr (bc_new_nforces wire) new_nforces
        else new_nforces in
      (* When new_natoms < 0 then we know that these are still the same forces
         so we don't communicate them, otherwise... *)
      if 0 <=? new_nforces then
        (imd_sync_new_forces cr wire s t new_nforces, new_nforces)
      else (s, new_nforces).

(** What the coordinator has put on the wire when its run of
    [imd_sync_nodes] took it from [m] to [m'] with the count [new_nforces]. *)
Definition bcast_of (m' : t_gmx_IMD) (new_nforces : Z) : bcast :=
  {| bc_bConnected := bConnected m'; bc_nstimd_new := nstimd_new m';
     bc_new_nforces := new_nforces; bc_f_ind := f_ind m'; bc_f := f m' |}.

(** One synchronization step of the whole group: the coordinator [m] (rank
    0) and the workers [ws] (ranks 1, 2, ...). *)
Definition imd_sync_group (m : t_gmx_IMD) (ws : list t_gmx_IMD) (t : double)
  : t_gmx_IMD * list t_gmx_IMD :=
  let n := S (length ws) in
  let '(m', new_nforces) :=
    imd_sync_nodes (Build_t_commrec 0 n) (bcast_of m 0) m t in
  (m', imap (fun i w =>
               fst (imd_sync_nodes (Build_t_commrec (S i) n)
                      (bcast_of m' new_nforces) w t)) ws).

(** *** Command dispatcher *)

(** The [switch (itype)] of [imd_readcommand]: the pause flag and the
    session after one command. *)
Definition imd_command (itype : Z) (IMDpaused : bool) (s : t_gmx_IMD)
  : bool * t_gmx_IMD :=
  match IMDType_of_code itype with
  (* IMD asks us to terminate the simulation, check if the user allowed this *)
  | Some IMD_KILL =>
      if bTerminatable s then
        (IMDpaused,
         set_stop_condition gmx_stop_cond_next
           (set_bWConnect false (set_bTerminated true s)))
      else (IMDpaused, s)
  (* the client doen't want to talk to us anymore *)
  | Some IMD_DISCONNECT => (IMDpaused, imd_disconnect s)
  (* we got new forces, read them and set bNewForces flag *)
  | Some IMD_MDCOMM => (IMDpaused, set_bNewForces true (imd_read_vmd_Forces s))
  (* the client asks us to (un)pause the simulation. So we toggle the
     IMDpaused state *)
  | Some IMD_PAUSE => (negb IMDpaused, s)
  (* the client sets a new transfer rate, if we get 0, we reset the rate to
     the default. VMD filters 0 however *)
  | Some IMD_TRATE =>
      (IMDpaused,
       set_nstimd_new (if 0 <? imd_length s then imd_length s else nstimd_def s) s)
  (* Catch all rule for the remaining IMD types which we don't expect *)
  | _ => (IMDpaused, imd_fatal s)
  end.

(** The [while] loop of [imd_readcommand]; [None] when [fuel] turns were
    not enough. *)
Fixpoint imd_readcommand_loop (fuel : nat) (IMDpaused : bool) (s : t_gmx_IMD)
  : option t_gmx_IMD :=
  match clientsocket s with
  | None => Some s
  | Some sk =>
      let '(r, sk) := imdsock_tryread sk 0 0 in
      let s := set_clientsocket (Some sk) s in
      if (0 <? r) || IMDpaused then
        match fuel with
        | O => None
        | S fuel' =>
            let '(itype, len, sk) := imd_recv_header sk (imd_length s) in
            let s := set_imd_length len (set_clientsocket (Some sk) s) in
            (* let's see what we got: *)
            let '(IMDpaused, s) := imd_command itype IMDpaused s in
            imd_readcommand_loop fuel' IMDpaused s
        end
      else Some s
  end.

(** [imd_readcommand]: reads header from the client and decides what to
    do. *)
Definition imd_readcommand (fuel : nat) (s : t_gmx_IMD) : option t_gmx_IMD :=
  imd_readcommand_loop fuel false s.

(** *** Coordinate assembler: removing molecule shifts *)

(** Modelled from the spec: the macro [TRICLINIC(box)], true when the box
    has a non-zero off-diagonal entry below the diagonal. *)
Definition TRICLINIC (box : matrix) : bool :=
  real_ne (XX (YY box)) real_zero || real_ne (XX (ZZ box)) real_zero
  || real_ne (YY (ZZ box)) real_zero.

(** What one turn of the loops of [shift_positions] does to [x[i]]. *)
Definition shift_position (box : matrix) (shift : ivec) (x : rvec) : rvec :=
  let tx := XX shift in
  let ty := YY shift in
  let tz := ZZ shift in
  if TRICLINIC box then
    {| XX := real_sub (real_sub (real_sub (XX x) (real_mul_int tx (XX (XX box))))
                         (real_mul_int ty (XX (YY box))))
                      (real_mul_int tz (XX (ZZ box)));
       YY := real_sub (real_sub (YY x) (real_mul_int ty (YY (YY box))))
                      (real_mul_int tz (YY (ZZ box)));
       ZZ := real_sub (ZZ x) (real_mul_int tz (ZZ (ZZ box))) |}
  else
    {| XX := real_sub (XX x) (real_mul_int tx (XX (XX box)));
       YY := real_sub (YY x) (real_mul_int ty (YY (YY box)));
       ZZ := real_sub (ZZ x) (real_mul_int tz (ZZ (ZZ box))) |}.

(** [shift_positions]: the positions [x[0..nr-1]] are moved by the shift
    [shift] (the argument [is]). *)
Definition shift_positions (box : matrix) (x : list rvec) (shift : ivec)
  (nr : nat) : list rvec :=
  fold_left (fun x i => alter (shift_position box shift) i x) (seq 0 nr) x.

Definition ivec_zero : ivec := Build_vec3 0 0 0.

(** The body of the inner loop of [imd_remove_molshifts]: the extremes
    [(largest, smallest)] after looking at the shift [sh] of one more atom. *)
Definition update_extremes (ls : ivec * ivec) (sh : ivec) : ivec * ivec :=
  let '(largest, smallest) := ls in
  ({| XX := if XX largest <? XX sh then XX sh else XX largest;
      YY := if YY largest <? YY sh then YY sh else YY largest;
      ZZ := if ZZ largest <? ZZ sh then ZZ sh else ZZ largest |},
   {| XX := if XX sh <? XX smallest then XX sh else XX smallest;
      YY := if YY sh <? YY smallest then YY sh else YY smallest;
      ZZ := if ZZ sh <? ZZ smallest then ZZ sh else ZZ smallest |}).

(** The shift [imd_remove_molshifts] settles on for the molecule of the atoms
    [first .. next-1]. *)
Definition molecule_shift (xa_shifts : list ivec) (first next : nat) : ivec :=
  (* first we determine the minimum and maximum shifts for each molecule *)
  let start := nth first xa_shifts ivec_zero in
  let '(largest, smallest) :=
    fold_left (fun ls ii => update_extremes ls (nth ii xa_shifts ivec_zero))
      (seq (first + 1) (next - (first + 1))) (start, start) in
  (* check if we what we can subtract/add to the positions to put them back
     into the central box *)
  let shift := ivec_zero in
  let shift := if 0 <? XX smallest
               then {| XX := XX smallest; YY := YY shift; ZZ := ZZ shift |} else shift in
  let shift := if 0 <? YY smallest
               then {| XX := XX shift; YY := YY smallest; ZZ := ZZ shift |} else shift in
  let shift := if 0 <? ZZ smallest
               then {| XX := XX shift; YY := YY shift; ZZ := ZZ smallest |} else shift in
  let shift := if XX largest <? 0
               then {| XX := XX largest; YY := YY shift; ZZ := ZZ shift |} else shift in
  let shift := if YY largest <? 0
               then {| XX := XX shift; YY := YY largest; ZZ := ZZ shift |} else shift in
  let shift := if ZZ largest <? 0
               then {| XX := XX shift; YY := YY shift; ZZ := ZZ largest |} else shift in
  shift.

Definition ivec_nonzero (v : ivec) : bool :=
  negb (XX v =? 0) || negb (YY v =? 0) || negb (ZZ v =? 0).

(** One turn of the loop over the molecules, for molecule [i]. *)
Definition remove_molshift (box : matrix) (ms : t_block) (xa_shifts : list ivec)
  (xa : list rvec) (i : nat) : list rvec :=
  let first := nth i (index ms) 0%nat in
  let next := nth (i + 1) (index ms) 0%nat in
  let shift := molecule_shift xa_shifts first next in
  (* is there a shift at all? *)
  if ivec_nonzero shift then
    let molsize := (next - first)%nat in
    (* shift the positions *)
    take first xa ++ shift_positions box (drop first xa) shift molsize
  else xa.

(** [imd_remove_molshifts]: removes shifts of molecules diffused outside of
    the box. *)
Definition imd_remove_molshifts (s : t_gmx_IMD) (box : matrix) : t_gmx_IMD :=
  set_xa (fold_left (remove_molshift box (mols s) (xa_shifts s))
            (seq 0 (nr (mols s))) (xa s)) s.

(** The words of the specification for the same shift: along each axis,
    "if the minimum extreme is positive, or the maximum extreme is negative",
    the translation is "by that amount", and there is none otherwise. *)
Definition axis_extreme_shift (shifts : list Z) : Z :=
  match shifts with
  | [] => 0
  | sh :: shifts =>
      let smallest := fold_right Z.min sh shifts in
      let largest := fold_right Z.max sh shifts in
      if 0 <? smallest then smallest
      else if largest <? 0 then largest
      else 0
  end.

Definition spec_molecule_shift (atom_shifts : list ivec) : ivec :=
  {| XX := axis_extreme_shift (map XX atom_shifts);
     YY := axis_extreme_shift (map YY atom_shifts);
     ZZ := axis_extreme_shift (map ZZ atom_shifts) |}.

(** The shifts of the atoms [first .. next-1], and the difference of two
    positions. *)
Definition atom_shifts (xa_shifts : list ivec) (first next : nat) : list ivec :=
  map (fun ii => nth ii xa_shifts ivec_zero) (seq first (next - first)).

Definition rvec_sub (u v : rvec) : rvec :=
  {| XX := real_sub (XX u) (XX v); YY := real_sub (YY u) (YY v);
     ZZ := real_sub (ZZ u) (ZZ v) |}.

(** *** Measures of a read script, used to state the properties *)

(** The bytes a script holds, and its size: entries plus bytes. *)
Fixpoint script_bytes (evs : list rd_event) : nat :=
  match evs with
  | [] => 0
  | Recv bs :: evs => length bs + script_bytes evs
  | RdFail _ :: evs => script_bytes evs
  end.

Definition script_size (evs : list rd_event) : nat :=
  (length evs + script_bytes evs)%nat.

(** Entries that do not end a read: a non-empty burst, an interrupted call. *)
Definition benign (ev : rd_event) : bool :=
  match ev with
  | Recv [] => false
  | Recv (_ :: _) => true
  | RdFail eintr => eintr
  end.

(** The bytes of the bursts of a script, in order. *)
Fixpoint burst_bytes (evs : list rd_event) : list byte :=
  match evs with
  | [] => []
  | Recv bs :: evs => bs ++ burst_bytes evs
  | RdFail _ :: evs => burst_bytes evs
  end.

(** *** Message sequences, used to state the properties *)

(** A client that sends the set-rate messages [rates], one burst each. *)
Definition set_rate_messages (rates : list Z) : list rd_event :=
  map (fun v => Recv (header_bytes (fill_header IMD_TRATE v))) rates.

(** Polls that report nothing (more) to read. *)
Definition quiet (polls : list Z) : Prop :=
  match polls with
  | [] => True
  | r :: _ => r <= 0
  end.

(** The interval a set-rate message with value [v] leaves in [nstimd_new]. *)
Definition rate_after (nstimd_def : Z) (v : Z) : Z :=
  if 0 <? v then v else nstimd_def.

(** What the command loop still has before it: nothing without a client,
    else the size of the script of its socket, and one. *)
Definition pending (s : t_gmx_IMD) : nat :=
  match clientsocket s with
  | Some sk => S (script_size (sk_in sk))
  | None => 0
  end.

(** *** What the command loop leaves alone, used to state the properties *)

(** The parts of a session the command loop never writes: the agreed
    interval, the default, the applied forces and their log copy, the run
    options, the group and its positions, the listening socket. *)
Definition dispatcher_frame (s s' : t_gmx_IMD) : Prop :=
  nstimd s' = nstimd s /\ nstimd_def s' = nstimd_def s
  /\ nforces s' = nforces s /\ f_ind s' = f_ind s /\ f s' = f s
  /\ old_nforces s' = old_nforces s /\ old_f_ind s' = old_f_ind s
  /\ old_forces s' = old_forces s
  /\ bTerminatable s' = bTerminatable s /\ bForceActivated s' = bForceActivated s
  /\ imd_nat s' = imd_nat s /\ ind s' = ind s /\ mols s' = mols s
  /\ xa s' = xa s /\ xa_shifts s' = xa_shifts s /\ socket s' = socket s.

(** The part a kill command writes. *)
Definition termination_state (s : t_gmx_IMD) : bool * bool * gmx_stop_cond_t :=
  (bTerminated s, bWConnect s, stop_condition s).

(** *** The force arrays, used to state the properties *)

(** The MD force [imd_copyto_MD_Forces] makes of entry [i] of the receive
    buffer. *)
Definition converted_force (s : t_gmx_IMD) (i : nat) : rvec :=
  Build_vec3 (force_to_md (vmd_forces_at s (3 * i)))
             (force_to_md (vmd_forces_at s (3 * i + 1)))
             (force_to_md (vmd_forces_at s (3 * i + 2))).

(** The parts of a session that taking over and logging forces leave alone:
    the connection, the intervals, the receive side and the count. *)
Definition force_frame (s s' : t_gmx_IMD) : Prop :=
  bConnected s' = bConnected s /\ clientsocket s' = clientsocket s
  /\ nstimd s' = nstimd s /\ nstimd_new s' = nstimd_new s
  /\ nstimd_def s' = nstimd_def s
  /\ bNewForces s' = bNewForces s /\ bForceActivated s' = bForceActivated s
  /\ vmd_nforces s' = vmd_nforces s /\ vmd_f_ind s' = vmd_f_ind s
  /\ vmd_forces s' = vmd_forces s /\ nforces s' = nforces s
  /\ ind s' = ind s /\ xa s' = xa s.

(** What a worker is after a synchronization step of a connected session
    that brought no forces: connected, with the coordinator's interval. *)
Definition synced_worker (interval : Z) (w : t_gmx_IMD) : t_gmx_IMD :=
  set_nstimd interval (set_nstimd_new interval (set_bConnected true w)).

(** *** Wire codec: what is sent *)

(** A [float] in memory: four bytes. *)
Record float : Type := Build_float {
  fl0 : byte; fl1 : byte; fl2 : byte; fl3 : byte
}.

Definition float_bytes (v : float) : list byte := [fl0 v; fl1 v; fl2 v; fl3 v].

(** [static_cast<float>(a) * NM2A], a position component as it is sent. *)
Variable coord_to_wire : real -> float.

(** [IMDEnergyBlock]: the energy record, ten four-byte fields. *)
Record IMDEnergyBlock : Type := Build_IMDEnergyBlock {
  tstep : Z;        (* time step *)
  T_abs : float;    (* absolute temperature *)
  E_tot : float;    (* total energy *)
  E_pot : float;    (* potential energy *)
  E_vdw : float;    (* van der Waals energy *)
  E_coul : float;   (* Coulomb interaction energy *)
  E_bond : float;   (* bonds energy *)
  E_angle : float;  (* angles energy *)
  E_dihe : float;   (* dihedrals energy *)
  E_impr : float    (* improper dihedrals energy *)
}.

Definition sizeof_IMDEnergyBlock : Z := 40.

(** The memory image of the record, as [memcpy] takes it. *)
Definition energy_block_bytes (e : IMDEnergyBlock) : list byte :=
  store_int32 (tstep e) ++ float_bytes (T_abs e) ++ float_bytes (E_tot e)
  ++ float_bytes (E_pot e) ++ float_bytes (E_vdw e) ++ float_bytes (E_coul e)
  ++ float_bytes (E_bond e) ++ float_bytes (E_angle e) ++ float_bytes (E_dihe e)
  ++ float_bytes (E_impr e).

(** [imd_send_energies]: send energies using the energy block and the send
    buffer; non-zero (here [true]) when the write fell short.  The send
    buffers are scratch memory and no part of the session. *)
Definition imd_send_energies (sk : IMDSocket) (energies : IMDEnergyBlock)
  : bool * IMDSocket :=
  let recsize := c_headerSize + sizeof_IMDEnergyBlock in
  let buffer :=
    header_bytes (fill_header IMD_ENERGIES 1) ++ energy_block_bytes energies in
  let '(n, sk') := imd_write_multiple sk buffer recsize in
  (negb (n =? recsize), sk').

(** The three [float]s [imd_send_rvecs] stores for [x[i]]. *)
Definition sendx (x : list rvec) (i : nat) : list byte :=
  let xi := nth i x (Build_vec3 real_zero real_zero real_zero) in
  float_bytes (coord_to_wire (XX xi)) ++ float_bytes (coord_to_wire (YY xi))
  ++ float_bytes (coord_to_wire (ZZ xi)).

(** [imd_send_rvecs]: send the positions [x[0 .. nat-1]], converted; the
    size is computed in [size_t] and assigned to an [int32_t]. *)
Definition imd_send_rvecs (sk : IMDSocket) (nat_ : Z) (x : list rvec)
  : bool * IMDSocket :=
  (* Required size for the send buffer *)
  let size := wrap_int32 (c_headerSize + 3 * 4 * nat_) in
  (* Prepare header *)
  let buffer :=
    header_bytes (fill_header IMD_FCOORDS nat_)
    ++ concat (map (sendx x) (upto nat_)) in
  let '(n, sk') := imd_write_multiple sk buffer size in
  (negb (n =? size), sk').

(** [IMD_send_positions]: send the energies, then the positions.
    [sessionPossible] and the energy record are fields of the session in the
    source and arguments here.  The result is [None] when [imd_send_rvecs]
    is reached with a null socket, which the transport is not defined for. *)
Definition IMD_send_positions (sessionPossible : bool)
  (energies : IMDEnergyBlock) (s : t_gmx_IMD) : option t_gmx_IMD :=
  if sessionPossible then
    match clientsocket s with
    | None => Some s
    | Some sk =>
        let '(failed, sk) := imd_send_energies sk energies in
        let s := set_clientsocket (Some sk) s in
        let s := if failed then imd_fatal s else s in
        match clientsocket s with
        | None => None
        | Some sk =>
            let '(failed, sk) := imd_send_rvecs sk (imd_nat s) (xa s) in
            let s := set_clientsocket (Some sk) s in
            Some (if failed then imd_fatal s else s)
        end
    end
  else Some s.

(** Entries of a write script that do not end a write: bytes taken, an
    interrupted call. *)
Definition wr_benign (ev : wr_event) : bool :=
  match ev with
  | Wrote _ => true
  | WrFail eintr => eintr
  end.

(** The two messages of one transmission step. *)
Definition energies_message (energies : IMDEnergyBlock) : list byte :=
  be_bytes (IMDType_code IMD_ENERGIES) ++ be_bytes 1
  ++ energy_block_bytes energies.

Definition positions_message (nat_ : Z) (x : list rvec) : list byte :=
  be_bytes (IMDType_code IMD_FCOORDS) ++ be_bytes nat_
  ++ concat (map (sendx x) (upto nat_)).

(** *** Waiting for a client *)

(** Modelled from the spec: [gmx_get_stop_condition()], "has an external
    stop been requested": it reads the process-wide stop condition, which
    an "external stop signal" may have set at any time (the source: "we
    should still react on ctrl+c").  The list [signals] has one entry for
    each reading: whether a signal that asks the run to stop has come since
    the reading before.  When the list is used up no signal comes any
    more. *)
Definition gmx_get_stop_condition (signals : list bool) (s : t_gmx_IMD)
  : gmx_stop_cond_t * list bool * t_gmx_IMD :=
  match signals with
  | true :: signals' =>
      (gmx_stop_cond_next, signals', set_stop_condition gmx_stop_cond_next s)
  | false :: signals' => (stop_condition s, signals', s)
  | [] => (stop_condition s, [], s)
  end.

(** The [while] loop of [imd_blockconnect]; [None] when [fuel] turns were
    not enough.  The stop condition is read again in every turn, after the
    test for the client socket.  [imd_sleep] leaves no trace. *)
Fixpoint imd_blockconnect_loop (fuel : nat) (signals : list bool)
  (s : t_gmx_IMD) : option (list bool * t_gmx_IMD) :=
  match clientsocket s with
  | Some _ => Some (signals, s)
  | None =>
      let '(c, signals, s) := gmx_get_stop_condition signals s in
      match c with
      | gmx_stop_cond_none =>
          match fuel with
          | O => None
          | S fuel' => imd_blockconnect_loop fuel' signals (snd (imd_tryconnect s))
          end
      | _ => Some (signals, s)
      end
  end.

(** [imd_blockconnect]: wrap [imd_tryconnect] in order to make it
    blocking. *)
Definition imd_blockconnect (fuel : nat) (signals : list bool)
  (s : t_gmx_IMD) : option (list bool * t_gmx_IMD) :=
  (* do not wait for connection, when e.g. ctrl+c is pressed and we will
     terminate anyways. *)
  let '(c, signals, s) := gmx_get_stop_condition signals s in
  match c with
  | gmx_stop_cond_none => imd_blockconnect_loop fuel signals s
  | _ => Some (signals, s)
  end.

(** *** Molecules of the IMD group *)

Definition set_mols (v : t_block) (s : t_gmx_IMD) : t_gmx_IMD :=
  Build_IMD
    (outf s) (imd_nat s) (ind s) (xa s) (xa_shifts s) (nstimd s) (nstimd_new s)
    (nstimd_def s) (socket s) (clientsocket s) (imd_length s) (bWConnect s)
    (bTerminated s) (bTerminatable s) (bConnected s) (bNewForces s)
    (bForceActivated s) (vmd_nforces s) (vmd_f_ind s) (vmd_forces s)
    (nforces s) (f_ind s) (f s) v (old_nforces s) (old_f_ind s)
    (old_forces s) (stop_condition s).

(** Modelled from the spec: [gmx::RangePartitioning], the "partition ...
    into contiguous molecule ranges" of the topology; block [i] holds the
    global atom indices from [rp_index[i]] up to, not including,
    [rp_index[i+1]]. *)
Record RangePartitioning : Type := Build_RangePartitioning {
  rp_index : list Z
}.

Definition numBlocks (gmols : RangePartitioning) : nat :=
  (length (rp_index gmols) - 1)%nat.

Definition inRange (gmols : RangePartitioning) (i : nat) (a : Z) : bool :=
  (nth i (rp_index gmols) 0 <=? a) && (a <? nth (i + 1) (rp_index gmols) 0).

(** The check whether the index is sorted. *)
Definition ind_unsorted (s : t_gmx_IMD) : bool :=
  existsb (fun i => nth (i + 1) (ind s) 0 <? nth i (ind s) 0)
    (upto (imd_nat s - 1)).

(** The inner loop: the number of group atoms in molecule [i]. *)
Definition count_in_block (gmols : RangePartitioning) (s : t_gmx_IMD) (i : nat)
  : nat :=
  length (List.filter (fun ii => inRange gmols i (nth ii (ind s) 0))
            (upto (imd_nat s))).

(** The end of the outer loop: a molecule with atoms in the group gets the
    next block. *)
Definition add_molecule (lmols : t_block) (count : nat) : t_block :=
  if (0 <? count)%nat then
    {| nr := nr lmols + 1;
       index := <[(nr lmols + 1)%nat := (nth (nr lmols) (index lmols) 0 + count)%nat]>
                  (index lmols) |}
  else lmols.

(** [init_imd_prepare_mols_in_imdgroup]: creates the molecule start-end
    position array of molecules in the IMD group; [None] for [gmx_fatal]. *)
Definition init_imd_prepare_mols_in_imdgroup (gmols : RangePartitioning)
  (s : t_gmx_IMD) : option t_gmx_IMD :=
  (* check whether index is sorted *)
  if ind_unsorted s then None
  else
    let lmols :=
      fold_left (fun lmols i => add_molecule lmols (count_in_block gmols s i))
        (seq 0 (numBlocks gmols))
        {| nr := 0; index := 0%nat :: replicate (numBlocks gmols) 0%nat |} in
    Some (set_mols {| nr := nr lmols;
                      index := srenew (heap_index heap) (index lmols)
                                 (Z.of_nat (nr lmols + 1)) |}
            s).

(** *** Applying the forces *)

(** [a + b] on reals, and [rvec_inc]. *)
Variable real_add : real -> real -> real.

Definition rvec_inc (a b : rvec) : rvec :=
  {| XX := real_add (XX a) (XX b); YY := real_add (YY a) (YY b);
     ZZ := real_add (ZZ a) (ZZ b) |}.

(** [a[i]] for an [int] [i] where the source has no check: [None] outside
    the array, where the access is undefined. *)
Definition zlookup {A : Type} (l : list A) (i : Z) : option A :=
  if i <? 0 then None else l !! Z.to_nat i.

(** The index [j] at which force [i] is added; [None] when [f_ind[i]] or
    [ind[f_ind[i]]] lies outside its array.  Modelled from the spec:
    [findHome], "translate global atom index to local index, or report
    not-owned". *)
Definition force_target (cr : t_commrec) (findHome : Z -> option Z)
  (s : t_gmx_IMD) (i : nat) : option Z :=
  match f_ind s !! i with
  | None => None
  | Some fi =>
      (* j are the indices in the "System group". *)
      match zlookup (ind s) fi with
      | None => None
      | Some j =>
          (* check if this is a local atom and find out locndx *)
          if PAR cr then
            match findHome j with
            | Some locndx => Some locndx
            | None => Some j
            end
          else Some j
      end
  end.

(** One turn of the loop of [IMD_apply_forces]: [rvec_inc(f[j],
    IMDsetup->f[i])]. *)
Definition apply_force (cr : t_commrec) (findHome : Z -> option Z)
  (s : t_gmx_IMD) (f_md : option (list rvec)) (i : nat) : option (list rvec) :=
  match f_md with
  | None => None
  | Some f_md =>
      match force_target cr findHome s i, f s !! i with
      | Some j, Some fi =>
          match zlookup f_md j with
          | Some v => Some (<[Z.to_nat j := rvec_inc v fi]> f_md)
          | None => None
          end
      | _, _ => None
      end
  end.

(** [IMD_apply_forces]: add the IMD forces to the force array [f] of this
    process.  The source checks no index; [None] stands for a run in which
    one of them lies outside its array, where what happens is undefined. *)
Definition IMD_apply_forces (sessionPossible : bool) (cr : t_commrec)
  (findHome : Z -> option Z) (s : t_gmx_IMD) (f_md : list rvec)
  : option (list rvec) :=
  if sessionPossible then
    (* Are forces allowed at all? If not we're done *)
    if negb (bForceActivated s) then Some f_md
    else fold_left (apply_force cr findHome s) (upto (nforces s)) (Some f_md)
  else Some f_md.

(** *** The energy record *)

(** Modelled from the spec: the energy terms the record is filled from,
    "give current energy terms by name": the entries [F_...] of
    [enerd->term]. *)
Inductive energy_term : Type :=
| F_TEMP | F_EPOT | F_ETOT | F_BONDS | F_ANGLES | F_PDIHS | F_IDIHS | F_LJ
| F_COUL_SR.

(** [static_cast<float>(a)]. *)
Variable real_to_float : real -> float.

(** [IMD_fill_energy_record]: the energy record afterwards.  The step is an
    [int64_t] assigned to the [int32_t] field [tstep]. *)
Definition IMD_fill_energy_record (sessionPossible : bool) (s : t_gmx_IMD)
  (ene : IMDEnergyBlock) (enerd : energy_term -> real) (step : Z)
  (bHaveNewEnergies : bool) : IMDEnergyBlock :=
  if sessionPossible then
    match clientsocket s with
    | Some _ =>
        let tstep' := wrap_int32 step in
        (* In MPI-parallel simulations the energies are not accessible a at
           every time step.  We update them if we have new values, otherwise,
           the energy values from the last global communication step are
           still on display in the viewer. *)
        if bHaveNewEnergies then
          {| tstep := tstep';
             T_abs := real_to_float (enerd F_TEMP);
             E_tot := real_to_float (enerd F_ETOT);
             E_pot := real_to_float (enerd F_EPOT);
             E_vdw := real_to_float (enerd F_LJ);
             E_coul := real_to_float (enerd F_COUL_SR);
             E_bond := real_to_float (enerd F_BONDS);
             E_angle := real_to_float (enerd F_ANGLES);
             E_dihe := real_to_float (enerd F_PDIHS);
             E_impr := real_to_float (enerd F_IDIHS) |}
        else
          {| tstep := tstep';
             T_abs := T_abs ene; E_tot := E_tot ene; E_pot := E_pot ene;
             E_vdw := E_vdw ene; E_coul := E_coul ene; E_bond := E_bond ene;
             E_angle := E_angle ene; E_dihe := E_dihe ene; E_impr := E_impr ene |}
    | None => ene
    end
  else ene.

(** [IMD_prep_energies_send_positions]: the session and the energy record
    afterwards; [None] as for [IMD_send_positions]. *)
Definition IMD_prep_energies_send_positions (sessionPossible : bool)
  (s : t_gmx_IMD) (ene : IMDEnergyBlock) (bIMDstep : bool)
  (enerd : energy_term -> real) (step : Z) (bHaveNewEnergies : bool)
  : option (t_gmx_IMD * IMDEnergyBlock) :=
  if sessionPossible then
    (* Update time step for IMD and prepare IMD energy record if we have new
       energies. *)
    let ene :=
      IMD_fill_energy_record sessionPossible s ene enerd step bHaveNewEnergies in
    if bIMDstep then
      (* Send positions and energies to VMD client via IMD *)
      match IMD_send_positions sessionPossible ene s with
      | Some s' => Some (s', ene)
      | None => None
      end
    else Some (s, ene)
  else Some (s, ene).

(** The nine energies of a record. *)
Definition energy_terms (e : IMDEnergyBlock) : list float :=
  [T_abs e; E_tot e; E_pot e; E_vdw e; E_coul e; E_bond e; E_angle e; E_dihe e;
   E_impr e].

(** The applied batch that the payload [idx], [frc] of a force-data message
    stands for. *)
Definition batch_indices (idx : list byte) (N : Z) : list Z :=
  map (fun i => load_int32 (take 4 (drop (4 * i) idx))) (upto N).

Definition batch_forces (frc : list byte) (N : Z) : list rvec :=
  map (fun i =>
         Build_vec3 (force_to_md (take 4 (drop (4 * (3 * i)) frc)))
                    (force_to_md (take 4 (drop (4 * (3 * i + 1)) frc)))
                    (force_to_md (take 4 (drop (4 * (3 * i + 2)) frc))))
    (upto N).

(** ** Properties *)

Set Default Proof Using "Type".

(** Linear arithmetic with division and remainder by constants; the reals
    of the context play no part in it. *)
Ltac div_mod_lia :=
  try clear heap; try clear real_to_float; try clear real_add; try clear coord_to_wire;
  try clear force_to_md; try clear real_mul_int; try clear real_sub;
  try clear real_ne; try clear real_zero;
  Z.to_euclidean_division_equations; lia.

(** *** Bytes and 32-bit integers *)

Lemma Z_of_byte_range (b : byte) : 0 <= Z_of_byte b < 256.
Proof.
  unfold Z_of_byte. pose proof (Byte.to_N_bounded b). lia.
Qed.

Lemma Z_of_byte_of_Z (z : Z) : Z_of_byte (byte_of_Z z) = z mod 256.
Proof.
  unfold Z_of_byte, byte_of_Z.
  change 255 with (Z.ones 8). rewrite Z.land_ones by lia.
  change (2 ^ 8) with 256.
  pose proof (Z.mod_pos_bound z 256 ltac:(lia)) as Hr.
  destruct (Byte.of_N (Z.to_N (z mod 256))) as [b|] eqn:Hb.
  - apply Byte.to_of_N in Hb. rewrite Hb. lia.
  - apply Byte.of_N_None_iff in Hb. lia.
Qed.

Lemma of_be_bytes_be_bytes (x : Z) :
  int32_range x -> of_be_bytes (be_bytes x) = x.
Proof.
  unfold int32_range, of_be_bytes, be_bytes, wrap_int32. intros Hx.
  rewrite !Z_of_byte_of_Z, !Z.shiftr_div_pow2, !Z.shiftl_mul_pow2 by lia.
  change (2 ^ 24) with 16777216. change (2 ^ 16) with 65536.
  change (2 ^ 8) with 256.
  set (u := x mod 4294967296).
  assert (Hu : 0 <= u < 4294967296) by (apply Z.mod_pos_bound; lia).
  assert (Hsum : u / 16777216 mod 256 * 16777216 + u / 65536 mod 256 * 65536
                 + u / 256 mod 256 * 256 + u mod 256 = u).
  { clearbody u. clear Hx. div_mod_lia. }
  rewrite Hsum. subst u.
  div_mod_lia.
Qed.

Lemma length_be_bytes (x : Z) : length (be_bytes x) = 4%nat.
Proof. reflexivity. Qed.

Lemma byte_of_Z_of_byte (b : byte) : byte_of_Z (Z_of_byte b) = b.
Proof.
  unfold byte_of_Z, Z_of_byte.
  change 255 with (Z.ones 8). rewrite Z.land_ones by lia.
  pose proof (Byte.to_N_bounded b) as Hb.
  rewrite Z.mod_small by (change (2 ^ 8) with 256; lia).
  rewrite N2Z.id, Byte.of_to_N. reflexivity.
Qed.

Lemma byte_of_Z_mod (z : Z) : byte_of_Z (z mod 256) = byte_of_Z z.
Proof.
  unfold byte_of_Z. change 255 with (Z.ones 8).
  rewrite !Z.land_ones by lia. change (2 ^ 8) with 256.
  rewrite Z.mod_mod by lia. reflexivity.
Qed.

Lemma be_bytes_of_be_bytes (b0 b1 b2 b3 : byte) :
  be_bytes (of_be_bytes [b0; b1; b2; b3]) = [b0; b1; b2; b3].
Proof.
  unfold be_bytes, of_be_bytes, wrap_int32.
  pose proof (Z_of_byte_range b0) as H0. pose proof (Z_of_byte_range b1) as H1.
  pose proof (Z_of_byte_range b2) as H2. pose proof (Z_of_byte_range b3) as H3.
  rewrite !Z.shiftl_mul_pow2, !Z.shiftr_div_pow2 by lia.
  change (2 ^ 24) with 16777216. change (2 ^ 16) with 65536.
  change (2 ^ 8) with 256.
  set (v := Z_of_byte b0 * 16777216 + Z_of_byte b1 * 65536
            + Z_of_byte b2 * 256 + Z_of_byte b3).
  assert (Hv : ((v + 2147483648) mod 4294967296 - 2147483648) mod 4294967296 = v).
  { assert (0 <= v < 4294967296) by (subst v; lia).
    div_mod_lia. }
  rewrite Hv.
  rewrite <- (byte_of_Z_mod (v / 16777216)), <- (byte_of_Z_mod (v / 65536)),
    <- (byte_of_Z_mod (v / 256)), <- (byte_of_Z_mod v).
  assert (E0 : (v / 16777216) mod 256 = Z_of_byte b0)
    by (subst v; div_mod_lia).
  assert (E1 : (v / 65536) mod 256 = Z_of_byte b1)
    by (subst v; div_mod_lia).
  assert (E2 : (v / 256) mod 256 = Z_of_byte b2)
    by (subst v; div_mod_lia).
  assert (E3 : v mod 256 = Z_of_byte b3)
    by (subst v; div_mod_lia).
  rewrite E0, E1, E2, E3, !byte_of_Z_of_byte. reflexivity.
Qed.

Lemma store_int32_load_int32 (bs : list byte) :
  length bs = 4%nat -> store_int32 (load_int32 bs) = bs.
Proof.
  intros Hlen. unfold store_int32, load_int32.
  destruct bs as [|b0 [|b1 [|b2 [|b3 [|? ?]]]]]; try discriminate.
  destruct little_endian.
  - change (rev [b0; b1; b2; b3]) with [b3; b2; b1; b0].
    rewrite be_bytes_of_be_bytes. reflexivity.
  - apply be_bytes_of_be_bytes.
Qed.

Lemma store_int32_imd_htonl (x : Z) : store_int32 (imd_htonl x) = be_bytes x.
Proof. apply store_int32_load_int32, length_be_bytes. Qed.

Lemma length_store_int32 (x : Z) : length (store_int32 x) = 4%nat.
Proof. unfold store_int32. destruct little_endian; reflexivity. Qed.

Lemma imd_ntohl_imd_htonl (x : Z) : int32_range x -> imd_ntohl (imd_htonl x) = x.
Proof.
  intros Hx. unfold imd_ntohl. rewrite store_int32_imd_htonl.
  apply of_be_bytes_be_bytes, Hx.
Qed.

Lemma header_of_bytes_app (h : IMDHeader) (more : list byte) :
  header_of_bytes (header_bytes h ++ more)
  = {| type := load_int32 (store_int32 (type h));
       length_ := load_int32 (store_int32 (length_ h)) |}.
Proof.
  unfold header_of_bytes, header_bytes.
  pose proof (length_store_int32 (type h)) as Ht.
  pose proof (length_store_int32 (length_ h)) as Hl.
  rewrite <- app_assoc.
  rewrite take_app_length' by (symmetry; exact Ht).
  rewrite drop_app_length' by (symmetry; exact Ht).
  rewrite take_app_length' by (symmetry; exact Hl).
  reflexivity.
Qed.

Lemma IMDType_code_range (k : IMDMessageType) : int32_range (IMDType_code k).
Proof. unfold int32_range. destruct k; simpl; lia. Qed.

Lemma IMDType_of_code_code (k : IMDMessageType) :
  IMDType_of_code (IMDType_code k) = Some k.
Proof. destruct k; reflexivity. Qed.

(** Swapping the header decoded from the bytes of a filled header gives
    back the kind and the length. *)
Lemma swap_header_fill_header (k : IMDMessageType) (len : Z) (more : list byte) :
  int32_range len ->
  swap_header (header_of_bytes (header_bytes (fill_header k len) ++ more))
  = {| type := IMDType_code k; length_ := len |}.
Proof.
  intros Hlen. rewrite header_of_bytes_app. unfold swap_header, fill_header.
  cbn [type length_].
  unfold imd_ntohl at 1 2.
  rewrite !store_int32_load_int32 by apply length_store_int32.
  rewrite !store_int32_imd_htonl.
  rewrite !of_be_bytes_be_bytes by (exact Hlen || apply IMDType_code_range).
  reflexivity.
Qed.

(** *** Reading whole buffers *)

Lemma imd_read_multiple_loop_done fuel sk got toread :
  imd_read_multiple_loop fuel sk got toread 0 = (toread - 0, got, sk).
Proof. destruct fuel; reflexivity. Qed.

(** A read that leaves something to be asked for has used up the entry at
    the head of the script. *)
Lemma imdsock_read_short sk len cnt bs sk' :
  imdsock_read sk len = (cnt, bs, sk') ->
  cnt < 0 \/ (cnt <> 0 /\ len - cnt <> 0) ->
  (length (sk_in sk') < length (sk_in sk))%nat.
Proof.
  unfold imdsock_read. destruct (sk_in sk) as [|[cs|e] rest] eqn:Hin.
  - intros [= <- <- <-] Hc. lia.
  - intros [= <- <- <-] Hc. cbn [sk_in].
    rewrite length_take in Hc.
    destruct (drop (Z.to_nat len) cs) eqn:Hd; cbn [length]; [lia|].
    apply (f_equal length) in Hd. rewrite length_drop in Hd. cbn [length] in Hd.
    lia.
  - intros [= <- <- <-] _. cbn [sk_in length]. lia.
Qed.

(** The fuel given to the loop by [imd_read_multiple] is enough: more of it
    changes nothing. *)
Lemma imd_read_multiple_fuel n m sk got toread leftcount :
  (length (sk_in sk) < n)%nat -> (length (sk_in sk) < m)%nat ->
  imd_read_multiple_loop n sk got toread leftcount
  = imd_read_multiple_loop m sk got toread leftcount.
Proof.
  revert m sk got leftcount.
  induction n as [|n IH]; intros m sk got leftcount Hn Hm; [lia|].
  destruct m as [|m]; [lia|].
  cbn [imd_read_multiple_loop].
  destruct (leftcount =? 0) eqn:Hz; [reflexivity|].
  destruct (imdsock_read sk leftcount) as [[cnt bs] sk'] eqn:Hrd.
  destruct (cnt <? 0) eqn:Hneg.
  - destruct (sk_eintr sk'); [|reflexivity].
    assert (length (sk_in sk') < length (sk_in sk))%nat.
    { eapply imdsock_read_short; eauto; lia. }
    apply IH; lia.
  - destruct (cnt =? 0) eqn:Hc; [reflexivity|].
    destruct (Z.eq_dec (leftcount - cnt) 0) as [E|E].
    + rewrite E, !imd_read_multiple_loop_done. reflexivity.
    + assert (length (sk_in sk') < length (sk_in sk))%nat.
      { eapply imdsock_read_short; eauto; lia. }
      apply IH; lia.
Qed.

Lemma leftover_script (cs : list byte) (k : nat) (rest : list rd_event) :
  script_bytes (match drop k cs with
                | [] => rest
                | _ :: _ => Recv (drop k cs) :: rest
                end) = (length cs - k + script_bytes rest)%nat
  /\ (length (match drop k cs with
              | [] => rest
              | _ :: _ => Recv (drop k cs) :: rest
              end) <= S (length rest))%nat.
Proof.
  destruct (drop k cs) eqn:Hd.
  - apply (f_equal length) in Hd. rewrite length_drop in Hd.
    cbn [length] in *. split; lia.
  - rewrite <- Hd. cbn [script_bytes length]. rewrite length_drop. split; lia.
Qed.

(** What a run of the loop has done: it has taken [k] bytes off the
    script, no more than were asked for, and stored them. *)
Lemma imd_read_multiple_loop_spec fuel sk got toread leftcount n out sk' :
  imd_read_multiple_loop fuel sk got toread leftcount = (n, out, sk') ->
  exists k : nat,
    n = toread - leftcount + Z.of_nat k /\ (k <= Z.to_nat leftcount)%nat
    /\ length out = (length got + k)%nat
    /\ script_bytes (sk_in sk) = (script_bytes (sk_in sk') + k)%nat
    /\ (length (sk_in sk') <= length (sk_in sk))%nat
    /\ sk_poll sk' = sk_poll sk /\ sk_out sk' = sk_out sk
    /\ sk_sent sk' = sk_sent sk.
Proof.
  revert sk got leftcount.
  induction fuel as [|fuel IH]; intros sk got leftcount; cbn [imd_read_multiple_loop].
  - destruct (leftcount =? 0); intros [= <- <- <-]; exists 0%nat;
      repeat split; first [lia | assumption | reflexivity].
  - destruct (leftcount =? 0) eqn:Hz.
    { intros [= <- <- <-]; exists 0%nat; repeat split; first [lia | assumption | reflexivity]. }
    unfold imdsock_read.
    destruct (sk_in sk) as [|[cs|e] rest] eqn:Hin.
    + cbn. intros [= <- <- <-]. exists 0%nat. rewrite Hin.
      repeat split; cbn [length]; first [lia | assumption | reflexivity].
    + cbn zeta.
      pose proof (leftover_script cs (Z.to_nat leftcount) rest) as [Hd1 Hd2].
      destruct (Z.of_nat (length (take (Z.to_nat leftcount) cs)) <? 0) eqn:Hneg.
      { exfalso. clear -Hneg. apply Z.ltb_lt in Hneg. lia. }
      destruct (Z.of_nat (length (take (Z.to_nat leftcount) cs)) =? 0) eqn:Hc.
      * intros [= <- <- <-]. exists 0%nat. cbn [sk_in sk_poll sk_out sk_sent].
        apply Z.eqb_eq in Hc. rewrite length_take in Hc.
        rewrite Hd1. cbn [script_bytes length].
        repeat split; first [lia | assumption | reflexivity].
      * intros Hloop.
        apply IH in Hloop as (k & Hn & Hk & Hout & Hbytes & Hlen & Hp & Ho & Hs).
        cbn [sk_in sk_poll sk_out sk_sent] in *.
        apply Z.eqb_neq in Hc.
        rewrite length_app, length_take in Hout. rewrite length_take in Hn, Hk, Hc.
        exists (Nat.min (Z.to_nat leftcount) (length cs) + k)%nat.
        rewrite Hd1 in Hbytes. cbn [script_bytes length].
        repeat split; first [lia | assumption | reflexivity].
    + cbn zeta. cbn [sk_eintr]. change (-1 <? 0) with true. cbn match.
      destruct e.
      * intros Hloop.
        apply IH in Hloop as (k & Hn & Hk & Hout & Hbytes & Hlen & Hp & Ho & Hs).
        cbn [sk_in sk_poll sk_out sk_sent] in *. exists k.
        cbn [script_bytes length]. repeat split; first [lia | assumption | reflexivity].
      * intros [= <- <- <-]. exists 0%nat. cbn [sk_in sk_poll sk_out sk_sent].
        cbn [script_bytes length]. repeat split; first [lia | assumption | reflexivity].
Qed.

(** Bytes that arrive in any number of bursts, with interrupted calls in
    between, are read in full: the script [pre ++ Recv (last ++ more) :: rest]
    delivers the bytes of [pre] and [last], and keeps [more]. *)
Lemma imd_read_multiple_loop_delivers pre :
  forall fuel sk got toread last more rest,
  sk_in sk = pre ++ Recv (last ++ more) :: rest ->
  forallb benign pre = true -> last <> [] ->
  (length pre < fuel)%nat ->
  exists e,
    imd_read_multiple_loop fuel sk got toread
      (Z.of_nat (length (burst_bytes pre ++ last)))
    = (toread, got ++ burst_bytes pre ++ last,
       Build_IMDSocket (sk_poll sk)
         (match more with [] => rest | _ :: _ => Recv more :: rest end)
         (sk_out sk) (sk_sent sk) e).
Proof.
  induction pre as [|ev pre IH]; intros fuel sk got toread last more rest Hin Hb Hl Hf.
  - destruct fuel as [|fuel]; [cbn [length] in Hf; lia|].
    destruct last as [|b last]; [congruence|].
    exists (sk_eintr sk). cbn [burst_bytes app imd_read_multiple_loop].
    destruct (Z.of_nat (length (b :: last)) =? 0) eqn:Hz.
    { apply Z.eqb_eq in Hz. cbn [length] in Hz. lia. }
    unfold imdsock_read. rewrite Hin. cbn [app]. cbn zeta.
    rewrite Nat2Z.id.
    change (b :: last ++ more) with ((b :: last) ++ more).
    rewrite take_app_length, drop_app_length.
    rewrite Hz. change (Z.of_nat (length (b :: last)) <? 0) with false.
    cbn match. rewrite Z.sub_diag, imd_read_multiple_loop_done.
    rewrite Z.sub_0_r. reflexivity.
  - destruct fuel as [|fuel]; [cbn [length] in Hf; lia|].
    cbn [forallb] in Hb. apply andb_true_iff in Hb as [Hev Hb].
    cbn [length] in Hf.
    cbn [imd_read_multiple_loop].
    destruct (Z.of_nat (length (burst_bytes (ev :: pre) ++ last)) =? 0) eqn:Hz.
    { apply Z.eqb_eq in Hz. rewrite length_app in Hz.
      destruct last; [congruence|]. cbn [length] in Hz. lia. }
    unfold imdsock_read. rewrite Hin. cbn [app].
    destruct ev as [[|b bs]|e]; [discriminate| |].
    + cbn zeta. cbn [burst_bytes]. rewrite Nat2Z.id.
      rewrite <- (app_assoc (b :: bs)).
      rewrite take_ge, drop_ge by (rewrite !length_app; lia).
      cbn match.
      change (Z.of_nat (length (b :: bs)) <? 0) with false.
      change (Z.of_nat (length (b :: bs)) =? 0) with false. cbn match.
      replace (Z.of_nat (length ((b :: bs) ++ burst_bytes pre ++ last))
               - Z.of_nat (length (b :: bs)))
        with (Z.of_nat (length (burst_bytes pre ++ last)))
        by (rewrite (length_app (b :: bs)); lia).
      edestruct (IH fuel
                   (Build_IMDSocket (sk_poll sk) (pre ++ Recv (last ++ more) :: rest)
                      (sk_out sk) (sk_sent sk) (sk_eintr sk))
                   (got ++ b :: bs) toread last more rest) as [e He];
        [reflexivity | exact Hb | exact Hl | lia |].
      exists e. rewrite He. cbn [sk_poll sk_out sk_sent].
      rewrite <- !app_assoc. reflexivity.
    + cbn in Hev. subst e. cbn zeta. cbn [burst_bytes sk_eintr].
      change (-1 <? 0) with true. cbn match.
      edestruct (IH fuel
                   (Build_IMDSocket (sk_poll sk) (pre ++ Recv (last ++ more) :: rest)
                      (sk_out sk) (sk_sent sk) true)
                   got toread last more rest) as [e He];
        [reflexivity | exact Hb | exact Hl | lia |].
      exists e. rewrite He. reflexivity.
Qed.

(** The fuel given to the loop by [imd_write_multiple] is enough when a
    number of bytes (at least none) is to be written. *)
Lemma imd_write_multiple_fuel n :
  forall m sk dat towrite leftcount,
  0 <= leftcount ->
  (length (sk_out sk) < n)%nat -> (length (sk_out sk) < m)%nat ->
  imd_write_multiple_loop n sk dat towrite leftcount
  = imd_write_multiple_loop m sk dat towrite leftcount.
Proof.
  induction n as [|n IH]; intros m sk dat towrite leftcount Hl Hn Hm; [lia|].
  destruct m as [|m]; [lia|].
  cbn [imd_write_multiple_loop].
  destruct (leftcount =? 0) eqn:Hz; [reflexivity|].
  apply Z.eqb_neq in Hz.
  unfold imdsock_write.
  destruct (sk_out sk) as [|[k|e] rest] eqn:Hout.
  - rewrite Z.max_r by lia.
    destruct (leftcount <=? 0) eqn:E; [apply Z.leb_le in E; lia|].
    rewrite Z.sub_diag. destruct n, m; reflexivity.
  - destruct (Z.max 0 (Z.min (Z.pos k) leftcount) <=? 0) eqn:E;
      [apply Z.leb_le in E; lia|].
    apply IH; cbn [sk_out length] in *; lia.
  - change (-1 <=? 0) with true. cbn iota. cbn [sk_eintr].
    destruct e; [|reflexivity].
    apply IH; cbn [sk_out length] in *; lia.
Qed.

Lemma length_header_bytes (h : IMDHeader) : length (header_bytes h) = 8%nat.
Proof. unfold header_bytes. rewrite length_app, !length_store_int32. reflexivity. Qed.

(** Receiving a header that was filled by [fill_header], however the
    transport cuts it up. *)
Lemma imd_recv_header_delivers sk len0 k len pre last more rest :
  int32_range len ->
  sk_in sk = pre ++ Recv (last ++ more) :: rest ->
  forallb benign pre = true -> last <> [] ->
  burst_bytes pre ++ last = header_bytes (fill_header k len) ->
  exists e,
    imd_recv_header sk len0
    = (IMDType_code k, len,
       Build_IMDSocket (sk_poll sk)
         (match more with [] => rest | _ :: _ => Recv more :: rest end)
         (sk_out sk) (sk_sent sk) e).
Proof.
  intros Hlen Hin Hb Hl Hbytes.
  unfold imd_recv_header, imd_read_multiple.
  destruct (imd_read_multiple_loop_delivers pre (S (length (sk_in sk))) sk []
              c_headerSize last more rest Hin Hb Hl) as [e He].
  { rewrite Hin, length_app. lia. }
  rewrite Hbytes, length_header_bytes in He.
  change (Z.of_nat 8) with c_headerSize in He. rewrite He.
  exists e. rewrite Z.eqb_refl. cbn [negb app].
  pose proof (swap_header_fill_header k len [] Hlen) as Hsw.
  rewrite app_nil_r in Hsw. rewrite Hsw. reflexivity.
Qed.

(** *** The command loop, one turn at a time *)

(** The loop ends when the client socket is gone. *)
Lemma imd_readcommand_loop_no_client fuel paused s :
  clientsocket s = None -> imd_readcommand_loop fuel paused s = Some s.
Proof. intros H. destruct fuel; cbn [imd_readcommand_loop]; rewrite H; reflexivity. Qed.

(** It ends when nothing is there to be read and it is not paused. *)
Lemma imd_readcommand_loop_quiet fuel s sk :
  clientsocket s = Some sk -> quiet (sk_poll sk) ->
  imd_readcommand_loop fuel false s
  = Some (set_clientsocket
            (Some (Build_IMDSocket (tl (sk_poll sk)) (sk_in sk) (sk_out sk)
                     (sk_sent sk) (sk_eintr sk))) s).
Proof.
  intros Hc Hq.
  assert (E : imdsock_tryread sk 0 0
              = (hd 0 (sk_poll sk),
                 Build_IMDSocket (tl (sk_poll sk)) (sk_in sk) (sk_out sk)
                   (sk_sent sk) (sk_eintr sk))).
  { unfold imdsock_tryread. destruct sk as [polls i o st e]. cbn [sk_poll] in *.
    destruct polls; reflexivity. }
  assert (Hr : (0 <? hd 0 (sk_poll sk)) = false).
  { apply Z.ltb_ge. destruct (sk_poll sk); cbn in *; lia. }
  destruct fuel; cbn [imd_readcommand_loop]; rewrite Hc, E, Hr; reflexivity.
Qed.

(** Otherwise it reads a header and obeys the command. *)
Lemma imd_readcommand_loop_step fuel paused s sk :
  clientsocket s = Some sk ->
  (0 <? hd 0 (sk_poll sk)) || paused = true ->
  imd_readcommand_loop (S fuel) paused s
  = let '(itype, len, sk2) :=
      imd_recv_header
        (Build_IMDSocket (tl (sk_poll sk)) (sk_in sk) (sk_out sk) (sk_sent sk)
           (sk_eintr sk))
        (imd_length s) in
    let '(paused', s2) :=
      imd_command itype paused (set_imd_length len (set_clientsocket (Some sk2) s)) in
    imd_readcommand_loop fuel paused' s2.
Proof.
  intros Hc Hr. cbn [imd_readcommand_loop].
  rewrite Hc.
  assert (E : imdsock_tryread sk 0 0
              = (hd 0 (sk_poll sk),
                 Build_IMDSocket (tl (sk_poll sk)) (sk_in sk) (sk_out sk)
                   (sk_sent sk) (sk_eintr sk))).
  { unfold imdsock_tryread. destruct sk as [polls i o st e]. cbn [sk_poll] in *.
    destruct polls; reflexivity. }
  rewrite E, Hr. cbn [imd_length].
  destruct (imd_recv_header _ _) as [[itype len] sk2]. reflexivity.
Qed.

(** A session that receives set-rate messages only: the loop reads them
    all and stops; each leaves its own interval. *)
Lemma imd_readcommand_set_rates rates :
  forall fuel paused s sk tail,
  clientsocket s = Some sk ->
  sk_in sk = set_rate_messages rates ->
  sk_poll sk = replicate (length rates) 1 ++ tail ->
  Forall int32_range rates ->
  (length rates <= fuel)%nat ->
  exists s' sk',
    imd_readcommand_loop fuel paused s
    = imd_readcommand_loop (fuel - length rates) paused s'
    /\ clientsocket s' = Some sk' /\ sk_poll sk' = tail /\ sk_in sk' = []
    /\ nstimd_def s' = nstimd_def s
    /\ nstimd_new s' = fold_left (fun _ v => rate_after (nstimd_def s) v) rates
                          (nstimd_new s).
Proof.
  induction rates as [|v rates IH]; intros fuel paused s sk tail Hc Hin Hp Hr Hf.
  - exists s, sk. cbn [length] in *. rewrite Nat.sub_0_r.
    repeat split; try assumption; reflexivity.
  - destruct fuel as [|fuel]; [cbn [length] in Hf; lia|].
    cbn [length replicate app] in Hp, Hf.
    apply Forall_cons in Hr as [Hv Hr].
    rewrite (imd_readcommand_loop_step fuel paused s sk Hc)
      by (rewrite Hp; reflexivity).
    rewrite Hp. cbn [tl].
    cbn [set_rate_messages map] in Hin.
    edestruct (imd_recv_header_delivers
                 (Build_IMDSocket (replicate (length rates) 1 ++ tail) (sk_in sk)
                    (sk_out sk) (sk_sent sk) (sk_eintr sk))
                 (imd_length s) IMD_TRATE v [] (header_bytes (fill_header IMD_TRATE v))
                 [] (set_rate_messages rates) Hv) as [e He].
    { cbn [sk_in app]. rewrite app_nil_r. exact Hin. }
    { reflexivity. }
    { intros E. apply (f_equal length) in E. rewrite length_header_bytes in E.
      discriminate. }
    { reflexivity. }
    rewrite He. cbn [sk_poll sk_out sk_sent].
    change (imd_command (IMDType_code IMD_TRATE) paused ?x)
      with (paused, set_nstimd_new
                      (if 0 <? imd_length x then imd_length x else nstimd_def x) x).
    cbn iota.
    match goal with
    | |- context [imd_readcommand_loop fuel paused ?x] => set (s1 := x)
    end.
    edestruct (IH fuel paused s1 _ tail eq_refl eq_refl eq_refl Hr) as (s' & sk' & Hs').
    { lia. }
    destruct Hs' as (Hloop & Hc' & Hp' & Hin' & Hdef & Hnew).
    exists s', sk'. cbn [length]. rewrite Nat.sub_succ.
    repeat split; assumption.
Qed.

(** *** Wire codec *)

(** C3. For every message kind of the closed set and every int32 length,
    decoding the eight bytes that [fill_header] produces gives back the kind
    and the length: [swap_header] undoes [fill_header] on the memory image,
    and [imd_recv_header] returns the pair when the bytes come off the
    socket, in one burst or in several, with interrupted calls in between. *)
Theorem header_round_trip (k : IMDMessageType) (len : Z) (sk : IMDSocket)
  (len0 : Z) (pre : list rd_event) (last more : list byte) (rest : list rd_event) :
  int32_range len ->
  sk_in sk = pre ++ Recv (last ++ more) :: rest ->
  forallb benign pre = true -> last <> [] ->
  burst_bytes pre ++ last = header_bytes (fill_header k len) ->
  swap_header (header_of_bytes (header_bytes (fill_header k len)))
  = {| type := IMDType_code k; length_ := len |}
  /\ IMDType_of_code (IMDType_code k) = Some k
  /\ exists sk',
       imd_recv_header sk len0 = (IMDType_code k, len, sk')
       /\ sk_in sk' = match more with [] => rest | _ :: _ => Recv more :: rest end.
Proof.
  intros Hlen Hin Hb Hl Hbytes. split; [|split].
  - pose proof (swap_header_fill_header k len [] Hlen) as H.
    rewrite app_nil_r in H. exact H.
  - apply IMDType_of_code_code.
  - destruct (imd_recv_header_delivers sk len0 k len pre last more rest
                Hlen Hin Hb Hl Hbytes) as [e He].
    eexists. split; [exact He | reflexivity].
Qed.

(** *** Connection manager *)

(** C7, as the code has it.  [imd_disconnect] flushes the force log, puts
    the negotiated interval back to the configured default and leaves the
    session without client, and [imd_fatal], the disconnect command, an I/O
    error and any other unexpected message in the command loop all go
    through it.  The kill command does not: when the run may be terminated
    by the client, the [IMD_KILL] branch of the command loop, which logs
    "Terminating connection and running simulation", marks the session
    terminated, stops waiting for connections and requests the stop of the
    run, but it keeps the client socket and [bConnected], leaves
    [nstimd_new] at the negotiated value and does not flush the log; the
    loop goes on reading from the same client.  When the run may not be
    terminated the kill command changes nothing at all. *)
Theorem imd_disconnect_resets (s : t_gmx_IMD) (paused : bool) :
  let s' := imd_disconnect s in
  nstimd_new s' = nstimd_def s
  /\ nstimd_def s' = nstimd_def s
  /\ bConnected s' = false
  /\ clientsocket s' = None
  /\ match outf s, outf s' with
     | Some fp, Some fp' => f_buf fp' = [] /\ f_disk fp' = f_disk fp ++ f_buf fp
     | None, None => True
     | _, _ => False
     end
  /\ imd_fatal s = s'
  /\ imd_command (IMDType_code IMD_DISCONNECT) paused s = (paused, s')
  /\ imd_command (IMDType_code IMD_IOERROR) paused s = (paused, s')
  /\ (forall c, IMDType_of_code c = None -> imd_command c paused s = (paused, s'))
  /\ (bTerminatable s = false ->
      imd_command (IMDType_code IMD_KILL) paused s = (paused, s))
  /\ (bTerminatable s = true ->
      let k := snd (imd_command (IMDType_code IMD_KILL) paused s) in
      fst (imd_command (IMDType_code IMD_KILL) paused s) = paused
      /\ bTerminated k = true /\ bWConnect k = false
      /\ stop_condition k = gmx_stop_cond_next
      /\ clientsocket k = clientsocket s /\ bConnected k = bConnected s
      /\ nstimd_new k = nstimd_new s /\ outf k = outf s)
  /\ (forall (fuel : nat) (sk : IMDSocket) (len : Z) (more : list byte)
        (rest : list rd_event),
      bTerminatable s = true ->
      clientsocket s = Some sk ->
      (0 <? hd 0 (sk_poll sk)) || paused = true ->
      int32_range len ->
      sk_in sk = Recv (header_bytes (fill_header IMD_KILL len) ++ more) :: rest ->
      exists sk',
        sk_poll sk' = tl (sk_poll sk)
        /\ sk_in sk' = match more with [] => rest | _ :: _ => Recv more :: rest end
        /\ imd_readcommand_loop (S fuel) paused s
           = imd_readcommand_loop fuel paused
               (set_stop_condition gmx_stop_cond_next
                  (set_bWConnect false
                     (set_bTerminated true
                        (set_imd_length len (set_clientsocket (Some sk') s)))))).
Proof.
  cbn zeta. repeat match goal with |- _ /\ _ => split end; try reflexivity.
  - unfold imd_disconnect. cbn [outf set_bConnected set_clientsocket
      set_nstimd_new set_outf]. destruct (outf s); cbn; auto.
  - intros c Hc. unfold imd_command. rewrite Hc. reflexivity.
  - intros Ht. unfold imd_command. rewrite IMDType_of_code_code, Ht. reflexivity.
  - intros Ht. unfold imd_command. rewrite IMDType_of_code_code, Ht.
    repeat split.
  - intros fuel sk len more rest Ht Hc Hr Hlen Hin.
    rewrite (imd_readcommand_loop_step fuel paused s sk Hc Hr).
    edestruct (imd_recv_header_delivers
                 (Build_IMDSocket (tl (sk_poll sk)) (sk_in sk) (sk_out sk)
                    (sk_sent sk) (sk_eintr sk))
                 (imd_length s) IMD_KILL len []
                 (header_bytes (fill_header IMD_KILL len)) more rest Hlen)
      as [e He].
    { cbn [sk_in app]. exact Hin. }
    { reflexivity. }
    { intros E. apply (f_equal length) in E. rewrite length_header_bytes in E.
      discriminate. }
    { reflexivity. }
    rewrite He. unfold imd_command. rewrite IMDType_of_code_code.
    change (bTerminatable (set_imd_length len (set_clientsocket ?x s)))
      with (bTerminatable s).
    rewrite Ht. eexists. split; [|split]. 3: reflexivity. all: reflexivity.
Qed.

(** *** Command dispatcher: set-rate *)

(** C6. Whatever set-rate messages came before, a set-rate message with a
    value [v > 0] sets the negotiated interval to [v], and one with the value
    0 puts it back to the configured default. *)
Theorem set_rate_sequence (before : list Z) (v : Z) (s : t_gmx_IMD)
  (sk : IMDSocket) (tail : list Z) (fuel : nat) :
  clientsocket s = Some sk ->
  sk_in sk = set_rate_messages (before ++ [v]) ->
  sk_poll sk = replicate (length (before ++ [v])) 1 ++ tail ->
  quiet tail ->
  Forall int32_range (before ++ [v]) ->
  (length (before ++ [v]) <= fuel)%nat ->
  exists s',
    imd_readcommand fuel s = Some s'
    /\ (0 < v -> nstimd_new s' = v)
    /\ (v = 0 -> nstimd_new s' = nstimd_def s)
    /\ nstimd_def s' = nstimd_def s.
Proof.
  intros Hc Hin Hp Hq Hr Hf. unfold imd_readcommand.
  destruct (imd_readcommand_set_rates (before ++ [v]) fuel false s sk tail
              Hc Hin Hp Hr Hf)
    as (s1 & sk1 & Hloop & Hc1 & Hp1 & Hin1 & Hdef & Hnew).
  rewrite Hloop, (imd_readcommand_loop_quiet _ s1 sk1 Hc1) by (rewrite Hp1; exact Hq).
  eexists. split; [reflexivity|].
  cbn [nstimd_new nstimd_def set_clientsocket].
  rewrite Hnew, fold_left_app. cbn [fold_left]. unfold rate_after.
  repeat split.
  - intros Hv. apply Z.ltb_lt in Hv. rewrite Hv. reflexivity.
  - intros ->. reflexivity.
  - exact Hdef.
Qed.

(** C10. A set-rate message with a negative value is treated like one with
    the value 0: the negotiated interval goes back to the configured
    default.  After any set-rate message the interval is positive when the
    default is. *)
Theorem set_rate_never_nonpositive (before : list Z) (v : Z) (s : t_gmx_IMD)
  (sk : IMDSocket) (tail : list Z) (fuel : nat) :
  clientsocket s = Some sk ->
  sk_in sk = set_rate_messages (before ++ [v]) ->
  sk_poll sk = replicate (length (before ++ [v])) 1 ++ tail ->
  quiet tail ->
  Forall int32_range (before ++ [v]) ->
  (length (before ++ [v]) <= fuel)%nat ->
  exists s',
    imd_readcommand fuel s = Some s'
    /\ (v <= 0 -> nstimd_new s' = nstimd_def s)
    /\ (0 < nstimd_def s -> 0 < nstimd_new s').
Proof.
  intros Hc Hin Hp Hq Hr Hf. unfold imd_readcommand.
  destruct (imd_readcommand_set_rates (before ++ [v]) fuel false s sk tail
              Hc Hin Hp Hr Hf)
    as (s1 & sk1 & Hloop & Hc1 & Hp1 & Hin1 & Hdef & Hnew).
  rewrite Hloop, (imd_readcommand_loop_quiet _ s1 sk1 Hc1) by (rewrite Hp1; exact Hq).
  eexists. split; [reflexivity|].
  cbn [nstimd_new nstimd_def set_clientsocket].
  rewrite Hnew, fold_left_app. cbn [fold_left]. unfold rate_after.
  destruct (0 <? v) eqn:Hv.
  - apply Z.ltb_lt in Hv. split; intros; lia.
  - split; intros; [reflexivity | assumption].
Qed.

(** *** Termination of the command loop *)

Lemma imd_read_multiple_spec sk toread n out sk' :
  imd_read_multiple sk toread = (n, out, sk') ->
  exists k : nat,
    n = Z.of_nat k /\ (k <= Z.to_nat toread)%nat /\ length out = k
    /\ script_bytes (sk_in sk) = (script_bytes (sk_in sk') + k)%nat
    /\ (length (sk_in sk') <= length (sk_in sk))%nat
    /\ sk_poll sk' = sk_poll sk /\ sk_out sk' = sk_out sk
    /\ sk_sent sk' = sk_sent sk.
Proof.
  unfold imd_read_multiple. intros H.
  apply imd_read_multiple_loop_spec in H
    as (k & Hn & Hk & Hout & Hbytes & Hlen & Hp & Ho & Hs).
  exists k. cbn [length] in Hout. repeat split; first [lia | assumption].
Qed.

Lemma imd_read_multiple_size sk toread n out sk' :
  imd_read_multiple sk toread = (n, out, sk') ->
  (script_size (sk_in sk') <= script_size (sk_in sk))%nat.
Proof.
  intros H. apply imd_read_multiple_spec in H
    as (k & Hn & Hk & Hout & Hbytes & Hlen & Hp & Ho & Hs).
  unfold script_size. lia.
Qed.

(** Nothing can be read from an exhausted script. *)
Lemma imd_read_multiple_empty sk toread :
  sk_in sk = [] -> toread <> 0 -> imd_read_multiple sk toread = (0, [], sk).
Proof.
  intros Hin Ht. unfold imd_read_multiple. rewrite Hin.
  cbn [length imd_read_multiple_loop].
  apply Z.eqb_neq in Ht. rewrite Ht.
  unfold imdsock_read. rewrite Hin. cbn. rewrite Z.sub_diag. reflexivity.
Qed.

(** A read of at least one byte uses up part of a script that is not
    exhausted. *)
Lemma imd_read_multiple_progress sk toread n out sk' :
  0 < toread -> sk_in sk <> [] ->
  imd_read_multiple sk toread = (n, out, sk') ->
  (script_size (sk_in sk') < script_size (sk_in sk))%nat.
Proof.
  intros Ht Hne. unfold imd_read_multiple.
  cbn [imd_read_multiple_loop].
  destruct (toread =? 0) eqn:Hz; [apply Z.eqb_eq in Hz; lia|].
  unfold imdsock_read.
  destruct (sk_in sk) as [|[cs|e] rest] eqn:Hin; [congruence| |].
  - cbn zeta.
    pose proof (leftover_script cs (Z.to_nat toread) rest) as [Hd1 Hd2].
    destruct (Z.of_nat (length (take (Z.to_nat toread) cs)) <? 0) eqn:Hneg.
    { exfalso. clear -Hneg. apply Z.ltb_lt in Hneg. lia. }
    destruct (Z.of_nat (length (take (Z.to_nat toread) cs)) =? 0) eqn:Hc.
    + intros [= <- <- <-]. cbn [sk_in]. unfold script_size.
      apply Z.eqb_eq in Hc. rewrite length_take in Hc.
      destruct cs as [|c cs]; [|cbn [length] in Hc; lia].
      rewrite drop_nil. cbn [length script_bytes]. lia.
    + intros Hloop.
      apply imd_read_multiple_loop_spec in Hloop
        as (k & Hn & Hk & Hout & Hbytes & Hlen & Hp & Ho & Hs).
      cbn [sk_in] in *. apply Z.eqb_neq in Hc. rewrite length_take in Hc.
      unfold script_size. cbn [length script_bytes]. lia.
  - cbn zeta. cbn [sk_eintr]. change (-1 <? 0) with true. cbn match.
    destruct e.
    + intros Hloop.
      apply imd_read_multiple_loop_spec in Hloop
        as (k & Hn & Hk & Hout & Hbytes & Hlen & Hp & Ho & Hs).
      cbn [sk_in] in *. unfold script_size. cbn [length script_bytes]. lia.
    + intros [= <- <- <-]. cbn [sk_in]. unfold script_size.
      cbn [length script_bytes]. lia.
Qed.

(** The header read: an exhausted script gives an I/O error, any other
    script is shorter afterwards. *)
Lemma imd_recv_header_size sk len itype len' sk' :
  imd_recv_header sk len = (itype, len', sk') ->
  (sk_in sk = [] /\ itype = IMDType_code IMD_IOERROR /\ sk_in sk' = [])
  \/ (script_size (sk_in sk') < script_size (sk_in sk))%nat.
Proof.
  unfold imd_recv_header.
  destruct (imd_read_multiple sk c_headerSize) as [[n bs] sk1] eqn:Hrd.
  destruct (sk_in sk) as [|ev evs] eqn:Hin.
  - rewrite imd_read_multiple_empty in Hrd by (assumption || discriminate).
    injection Hrd as <- <- <-. cbn. intros [= <- <- <-]. left. auto.
  - assert (script_size (sk_in sk1) < script_size (sk_in sk))%nat as Hlt.
    { eapply imd_read_multiple_progress; [| |exact Hrd].
      - reflexivity.
      - rewrite Hin. discriminate. }
    rewrite Hin in Hlt.
    destruct (negb (n =? c_headerSize)); intros [= <- <- <-]; right; exact Hlt.
Qed.

(** [imd_recv_mdcomm] does not lengthen the script. *)
Lemma imd_recv_mdcomm_size sk nf ndx frc ok ndx' frc' sk' :
  imd_recv_mdcomm sk nf ndx frc = (ok, ndx', frc', sk') ->
  (script_size (sk_in sk') <= script_size (sk_in sk))%nat.
Proof.
  unfold imd_recv_mdcomm.
  destruct (imd_read_multiple sk _) as [[n1 b1] sk1] eqn:H1.
  apply imd_read_multiple_size in H1.
  destruct (negb (n1 =? _)); [intros [= <- <- <- <-]; exact H1|].
  destruct (imd_read_multiple sk1 _) as [[n2 b2] sk2] eqn:H2.
  apply imd_read_multiple_size in H2.
  destruct (negb (n2 =? _)); intros [= <- <- <- <-]; lia.
Qed.

(** No command leaves the loop more to do than it had. *)
Lemma imd_command_pending itype paused s paused' s' :
  imd_command itype paused s = (paused', s') ->
  (pending s' <= pending s)%nat.
Proof.
  unfold imd_command.
  destruct (IMDType_of_code itype) as [[]|];
    try (intros [= <- <-]; unfold pending; cbn; lia).
  - destruct (bTerminatable s); intros [= <- <-]; unfold pending; cbn; lia.
  - intros [= <- <-]. unfold pending, imd_read_vmd_Forces.
    cbn [clientsocket set_bNewForces imd_prepare_vmd_Forces set_vmd_forces
           set_vmd_f_ind set_vmd_nforces].
    destruct (clientsocket s) as [sk|] eqn:Hc; [|cbn; rewrite Hc; lia].
    destruct (imd_recv_mdcomm sk _ _ _) as [[[ok ndx] frc] sk1] eqn:Hm.
    apply imd_recv_mdcomm_size in Hm.
    destruct ok; cbn; lia.
Qed.

(** A command that is none of kill, disconnect, force data, pause and
    set-rate drops the client. *)
Lemma imd_command_ioerror paused s :
  imd_command (IMDType_code IMD_IOERROR) paused s = (paused, imd_disconnect s).
Proof. reflexivity. Qed.

(** With [pending s] turns the loop comes to its end. *)
Lemma imd_readcommand_loop_terminates fuel :
  forall paused s, (pending s <= fuel)%nat ->
  exists s', imd_readcommand_loop fuel paused s = Some s'.
Proof.
  induction fuel as [|fuel IH]; intros paused s Hp.
  - unfold pending in Hp. destruct (clientsocket s) eqn:Hc; [lia|].
    exists s. apply imd_readcommand_loop_no_client, Hc.
  - destruct (clientsocket s) as [sk|] eqn:Hc;
      [|exists s; apply imd_readcommand_loop_no_client, Hc].
    destruct ((0 <? hd 0 (sk_poll sk)) || paused) eqn:Hr.
    + rewrite (imd_readcommand_loop_step fuel paused s sk Hc Hr).
      destruct (imd_recv_header _ _) as [[itype len] sk2] eqn:Hh.
      destruct (imd_command itype paused _) as [paused' s2] eqn:Hcmd.
      apply IH.
      apply imd_recv_header_size in Hh. cbn [sk_in] in Hh.
      destruct Hh as [(Hin & -> & Hin2)|Hlt].
      * rewrite imd_command_ioerror in Hcmd. injection Hcmd as <- <-.
        unfold pending. cbn. lia.
      * apply imd_command_pending in Hcmd.
        unfold pending in *. rewrite Hc in Hp.
        cbn [clientsocket set_imd_length set_clientsocket] in Hcmd. lia.
    + eexists. cbn [imd_readcommand_loop]. rewrite Hc.
      assert (E : imdsock_tryread sk 0 0
                  = (hd 0 (sk_poll sk),
                     Build_IMDSocket (tl (sk_poll sk)) (sk_in sk) (sk_out sk)
                       (sk_sent sk) (sk_eintr sk))).
      { unfold imdsock_tryread. destruct sk as [polls i o st e]. cbn [sk_poll] in *.
        destruct polls; reflexivity. }
      rewrite E, Hr. reflexivity.
Qed.

(** More fuel does not change the outcome of a run that ended. *)
Lemma imd_readcommand_loop_more fuel :
  forall paused s s',
  imd_readcommand_loop fuel paused s = Some s' ->
  imd_readcommand_loop (S fuel) paused s = Some s'.
Proof.
  induction fuel as [|fuel IH]; intros paused s s'.
  - cbn [imd_readcommand_loop]. destruct (clientsocket s); [|auto].
    destruct (imdsock_tryread _ _ _) as [r sk]. destruct ((0 <? r) || paused);
      [discriminate | auto].
  - intros H. cbn [imd_readcommand_loop] in H. cbn [imd_readcommand_loop].
    destruct (clientsocket s); [|auto].
    destruct (imdsock_tryread _ _ _) as [r sk]. destruct ((0 <? r) || paused); [|auto].
    destruct (imd_recv_header _ _) as [[itype len] sk2].
    destruct (imd_command _ _ _) as [paused' s2].
    apply IH in H. exact H.
Qed.

Lemma imd_readcommand_loop_mono fuel fuel' paused s s' :
  (fuel <= fuel')%nat ->
  imd_readcommand_loop fuel paused s = Some s' ->
  imd_readcommand_loop fuel' paused s = Some s'.
Proof.
  induction 1 as [|m Hle IH]; [auto|].
  intros H. apply imd_readcommand_loop_more, IH, H.
Qed.

(** The bytes of the client's script along the loop.  A header read either
    fails, and reports an I/O error, or takes eight bytes off the script. *)
Lemma imd_recv_header_bytes sk len itype len' sk' :
  imd_recv_header sk len = (itype, len', sk') ->
  (itype = IMDType_code IMD_IOERROR
   /\ (script_bytes (sk_in sk') <= script_bytes (sk_in sk))%nat)
  \/ (script_bytes (sk_in sk') + 8 = script_bytes (sk_in sk))%nat.
Proof.
  unfold imd_recv_header.
  destruct (imd_read_multiple sk c_headerSize) as [[n bs] sk1] eqn:Hrd.
  apply imd_read_multiple_spec in Hrd
    as (k & Hn & Hk & Hout & Hbytes & _).
  destruct (negb (n =? c_headerSize)) eqn:E.
  - intros [= <- <- <-]. left. split; [reflexivity | lia].
  - apply negb_false_iff, Z.eqb_eq in E. intros [= <- <- <-]. right.
    unfold c_headerSize in E. lia.
Qed.

Lemma imd_recv_mdcomm_bytes sk nf ndx frc ok ndx' frc' sk' :
  imd_recv_mdcomm sk nf ndx frc = (ok, ndx', frc', sk') ->
  (script_bytes (sk_in sk') <= script_bytes (sk_in sk))%nat.
Proof.
  unfold imd_recv_mdcomm.
  destruct (imd_read_multiple sk _) as [[n1 b1] sk1] eqn:H1.
  apply imd_read_multiple_spec in H1 as (k1 & _ & _ & _ & Hb1 & _).
  destruct (negb (n1 =? _)); [intros [= <- <- <- <-]; lia|].
  destruct (imd_read_multiple sk1 _) as [[n2 b2] sk2] eqn:H2.
  apply imd_read_multiple_spec in H2 as (k2 & _ & _ & _ & Hb2 & _).
  destruct (negb (n2 =? _)); intros [= <- <- <- <-]; lia.
Qed.

(** No command puts bytes back on the script of a client it keeps. *)
Lemma imd_command_bytes itype paused s paused' s' sk sk' :
  imd_command itype paused s = (paused', s') ->
  clientsocket s = Some sk -> clientsocket s' = Some sk' ->
  (script_bytes (sk_in sk') <= script_bytes (sk_in sk))%nat.
Proof.
  unfold imd_command. intros H Hc.
  destruct (IMDType_of_code itype) as [[]|];
    try (injection H as <- <-; cbn; discriminate).
  - destruct (bTerminatable s); injection H as <- <-; cbn; rewrite Hc;
      intros [= <-]; lia.
  - injection H as <- <-. unfold imd_read_vmd_Forces.
    cbn [clientsocket set_bNewForces imd_prepare_vmd_Forces set_vmd_forces
           set_vmd_f_ind set_vmd_nforces].
    rewrite Hc.
    destruct (imd_recv_mdcomm sk _ _ _) as [[[ok ndx] frc] sk1] eqn:Hm.
    apply imd_recv_mdcomm_bytes in Hm.
    destruct ok; cbn; [|discriminate]. intros [= <-]. exact Hm.
  - injection H as <- <-. rewrite Hc. intros [= <-]. lia.
  - injection H as <- <-. cbn. rewrite Hc. intros [= <-]. lia.
Qed.

Lemma imd_readcommand_loop_bytes fuel :
  forall paused s s' sk sk',
  imd_readcommand_loop fuel paused s = Some s' ->
  clientsocket s = Some sk -> clientsocket s' = Some sk' ->
  (script_bytes (sk_in sk') <= script_bytes (sk_in sk))%nat.
Proof.
  induction fuel as [|fuel IH]; intros paused s s' sk sk' H Hc Hc'.
  - cbn [imd_readcommand_loop] in H. rewrite Hc in H.
    destruct (imdsock_tryread sk 0 0) as [r sk1] eqn:E.
    destruct ((0 <? r) || paused); [discriminate|].
    injection H as <-. cbn in Hc'. injection Hc' as <-.
    unfold imdsock_tryread in E. destruct sk as [polls i o st e].
    destruct polls; injection E as <- <-; cbn; lia.
  - destruct ((0 <? hd 0 (sk_poll sk)) || paused) eqn:Hr.
    + rewrite (imd_readcommand_loop_step fuel paused s sk Hc Hr) in H.
      destruct (imd_recv_header _ _) as [[itype len] sk2] eqn:Hh.
      destruct (imd_command itype paused _) as [paused' s2] eqn:Hcmd.
      assert (Hb2 : (script_bytes (sk_in sk2) <= script_bytes (sk_in sk))%nat).
      { apply imd_recv_header_bytes in Hh. cbn [sk_in] in Hh. lia. }
      destruct (clientsocket s2) as [sk3|] eqn:Hc2.
      * pose proof (imd_command_bytes _ _ _ _ _ sk2 sk3 Hcmd eq_refl Hc2).
        pose proof (IH _ _ _ _ _ H Hc2 Hc'). lia.
      * rewrite imd_readcommand_loop_no_client in H by exact Hc2.
        injection H as <-. congruence.
    + cbn [imd_readcommand_loop] in H. rewrite Hc in H.
      destruct (imdsock_tryread sk 0 0) as [r sk1] eqn:E.
      assert (r = hd 0 (sk_poll sk) /\ sk_in sk1 = sk_in sk) as [-> Hin].
      { unfold imdsock_tryread in E. destruct sk as [polls i o st e].
        destruct polls; injection E as <- <-; cbn; auto. }
      rewrite Hr in H. injection H as <-. cbn in Hc'. injection Hc' as <-.
      rewrite Hin. lia.
Qed.

(** A loop that is entered paused and returns with the client still held
    has taken a complete header off the socket, whatever the polls said. *)
Lemma imd_readcommand_loop_paused_reads fuel s s' sk sk' :
  imd_readcommand_loop fuel true s = Some s' ->
  clientsocket s = Some sk -> clientsocket s' = Some sk' ->
  (script_bytes (sk_in sk') + 8 <= script_bytes (sk_in sk))%nat.
Proof.
  intros H Hc Hc'. destruct fuel as [|fuel].
  { cbn [imd_readcommand_loop] in H. rewrite Hc in H.
    destruct (imdsock_tryread sk 0 0) as [r sk1].
    rewrite orb_true_r in H. discriminate. }
  rewrite (imd_readcommand_loop_step fuel true s sk Hc (orb_true_r _)) in H.
  destruct (imd_recv_header _ _) as [[itype len] sk2] eqn:Hh.
  destruct (imd_command itype true _) as [paused' s2] eqn:Hcmd.
  apply imd_recv_header_bytes in Hh. cbn [sk_in] in Hh.
  destruct Hh as [[-> _]|Hb].
  - rewrite imd_command_ioerror in Hcmd. injection Hcmd as <- <-.
    rewrite imd_readcommand_loop_no_client in H by reflexivity.
    injection H as <-. discriminate.
  - destruct (clientsocket s2) as [sk3|] eqn:Hc2.
    + pose proof (imd_command_bytes _ _ _ _ _ sk2 sk3 Hcmd eq_refl Hc2).
      pose proof (imd_readcommand_loop_bytes _ _ _ _ _ _ H Hc2 Hc'). lia.
    + rewrite imd_readcommand_loop_no_client in H by exact Hc2.
      injection H as <-. congruence.
Qed.

(** C9, as the code has it.  On a transport whose reads return (with data,
    with an error, or with nothing once the peer is gone, as the scripts
    here do) the drain loop of [imd_readcommand] terminates for every
    session and every script of the client socket, entered paused or not:
    [pending s] turns are enough, and more turns give the same session.
    While it is not paused it stops at the first poll that reports nothing
    to read, without reading.  Once paused it does not stop there: the poll
    is not looked at and the turn reads the next header and obeys it,
    whatever the poll has reported.  A pause message
    lifts the pause, and the loop goes on as before the pause; a socket with
    nothing left does not end the loop quietly, the read finds nothing and
    the client is dropped.  So a loop entered paused that returns with the
    client still held has read at least one complete header. *)
Theorem imd_readcommand_terminates (s : t_gmx_IMD) :
  (exists s', forall fuel, (pending s <= fuel)%nat ->
              imd_readcommand fuel s = Some s')
  /\ (forall paused fuel, (pending s <= fuel)%nat ->
      exists s', imd_readcommand_loop fuel paused s = Some s')
  /\ (forall sk fuel, clientsocket s = Some sk -> quiet (sk_poll sk) ->
      imd_readcommand_loop fuel false s
      = Some (set_clientsocket
                (Some (Build_IMDSocket (tl (sk_poll sk)) (sk_in sk) (sk_out sk)
                         (sk_sent sk) (sk_eintr sk))) s))
  /\ (forall sk fuel len rest,
      clientsocket s = Some sk -> int32_range len ->
      sk_in sk = Recv (header_bytes (fill_header IMD_PAUSE len)) :: rest ->
      exists sk',
        imd_readcommand_loop (S fuel) true s
        = imd_readcommand_loop fuel false
            (set_imd_length len (set_clientsocket (Some sk') s))
        /\ sk_in sk' = rest /\ sk_poll sk' = tl (sk_poll sk))
  /\ (forall sk fuel, clientsocket s = Some sk -> sk_in sk = [] ->
      exists s', imd_readcommand_loop (S fuel) true s = Some s'
                 /\ clientsocket s' = None /\ bConnected s' = false)
  /\ (forall sk fuel s' sk',
      clientsocket s = Some sk ->
      imd_readcommand_loop fuel true s = Some s' ->
      clientsocket s' = Some sk' ->
      (script_bytes (sk_in sk') + 8 <= script_bytes (sk_in sk))%nat)
  /\ (forall sk fuel, clientsocket s = Some sk ->
      imd_readcommand_loop (S fuel) true s
      = let '(itype, len, sk2) :=
          imd_recv_header
            (Build_IMDSocket (tl (sk_poll sk)) (sk_in sk) (sk_out sk)
               (sk_sent sk) (sk_eintr sk))
            (imd_length s) in
        let '(paused', s2) :=
          imd_command itype true
            (set_imd_length len (set_clientsocket (Some sk2) s)) in
        imd_readcommand_loop fuel paused' s2).
Proof.
  repeat apply conj.
  - destruct (imd_readcommand_loop_terminates (pending s) false s (le_n _))
      as [s' Hs'].
    exists s'. intros fuel Hf. unfold imd_readcommand.
    eapply imd_readcommand_loop_mono; eauto.
  - intros paused fuel Hf. apply imd_readcommand_loop_terminates, Hf.
  - intros sk fuel Hc Hq. apply imd_readcommand_loop_quiet; assumption.
  - intros sk fuel len rest Hc Hlen Hin.
    rewrite (imd_readcommand_loop_step fuel true s sk Hc) by apply orb_true_r.
    edestruct (imd_recv_header_delivers
                 (Build_IMDSocket (tl (sk_poll sk)) (sk_in sk) (sk_out sk)
                    (sk_sent sk) (sk_eintr sk))
                 (imd_length s) IMD_PAUSE len []
                 (header_bytes (fill_header IMD_PAUSE len)) [] rest Hlen)
      as [e He].
    { cbn [sk_in app]. rewrite app_nil_r. exact Hin. }
    { reflexivity. }
    { intros E. apply (f_equal length) in E. rewrite length_header_bytes in E.
      discriminate. }
    { reflexivity. }
    rewrite He. eexists. split; [reflexivity|]. split; reflexivity.
  - intros sk fuel Hc Hin.
    rewrite (imd_readcommand_loop_step fuel true s sk Hc) by apply orb_true_r.
    unfold imd_recv_header.
    rewrite imd_read_multiple_empty by (assumption || discriminate).
    cbn [negb]. change (0 =? c_headerSize) with false. cbn [negb].
    rewrite imd_command_ioerror.
    rewrite imd_readcommand_loop_no_client by reflexivity.
    eexists. split; [reflexivity|]. split; reflexivity.
  - intros sk fuel s' sk' Hc H Hc'.
    exact (imd_readcommand_loop_paused_reads fuel s s' sk sk' H Hc Hc').
  - intros sk fuel Hc.
    apply (imd_readcommand_loop_step fuel true s sk Hc), orb_true_r.
Qed.

(** *** Group synchronizer *)

Lemma set_bConnected_same (s : t_gmx_IMD) : set_bConnected (bConnected s) s = s.
Proof. destruct s. reflexivity. Qed.

(** What a process of a group of at least two makes of a wire that says
    "not connected". *)
Lemma imd_sync_nodes_worker_disconnected i n wire w t :
  bc_bConnected wire = false ->
  imd_sync_nodes (Build_t_commrec (S i) (S (S n))) wire w t
  = (set_bConnected false w, 0).
Proof.
  intros Hw. unfold imd_sync_nodes.
  change (PAR (Build_t_commrec (S i) (S (S n)))) with true.
  change (MASTER (Build_t_commrec (S i) (S (S n)))) with false.
  cbn iota. unfold block_bc.
  change (MASTER (Build_t_commrec (S i) (S (S n)))) with false.
  cbn iota. rewrite Hw. reflexivity.
Qed.

Lemma imd_sync_nodes_master_disconnected n wire m t :
  bConnected m = false ->
  imd_sync_nodes (Build_t_commrec 0 n) wire m t = (m, 0).
Proof.
  intros Hm. unfold imd_sync_nodes, block_bc.
  change (MASTER (Build_t_commrec 0 n)) with true. cbn iota.
  rewrite set_bConnected_same.
  destruct (PAR _); rewrite Hm; reflexivity.
Qed.

(** C4. When the synchronizer runs while the coordinator is not connected,
    every worker ends with [bConnected = false], and no process has its
    interval, its force count, its force arrays or its new-forces flag
    changed: the coordinator is left as it was and a worker differs from
    what it was in [bConnected] only. *)
Theorem sync_disconnected (m : t_gmx_IMD) (ws : list t_gmx_IMD) (t : double) :
  bConnected m = false ->
  imd_sync_group m ws t = (m, set_bConnected false <$> ws)
  /\ Forall (fun w' => bConnected w' = false) (snd (imd_sync_group m ws t))
  /\ Forall2 (fun w w' =>
                nstimd w' = nstimd w /\ nforces w' = nforces w
                /\ f_ind w' = f_ind w /\ f w' = f w
                /\ bNewForces w' = bNewForces w
                /\ vmd_nforces w' = vmd_nforces w)
       ws (snd (imd_sync_group m ws t)).
Proof.
  intros Hm.
  assert (E : imd_sync_group m ws t = (m, set_bConnected false <$> ws)).
  { unfold imd_sync_group.
    rewrite imd_sync_nodes_master_disconnected by exact Hm.
    f_equal. destruct ws as [|w ws]; [reflexivity|].
    cbn [length].
    rewrite <- imap_const. apply imap_ext. intros i x _.
    rewrite imd_sync_nodes_worker_disconnected by exact Hm. reflexivity. }
  rewrite E. cbn [snd]. repeat split.
  - apply Forall_fmap, Forall_true. intros w. reflexivity.
  - apply Forall2_fmap_r, Forall2_same_length_lookup_2; [reflexivity|].
    intros i w w' H1 H2. rewrite H1 in H2. injection H2 as <-.
    repeat split.
Qed.

Lemma set_nstimd_new_same (s : t_gmx_IMD) : set_nstimd_new (nstimd_new s) s = s.
Proof. destruct s. reflexivity. Qed.

(** On the coordinator of a connected session with pulling enabled the
    function comes down to the count and the block that takes new forces
    over. *)
Lemma imd_sync_nodes_master cr wire s t :
  MASTER cr = true -> bConnected s = true -> bForceActivated s = true ->
  imd_sync_nodes cr wire s t
  = if 0 <=? signed_new_nforces s
    then (imd_sync_new_forces cr wire (set_nstimd (nstimd_new s) s) t
            (signed_new_nforces s), signed_new_nforces s)
    else (set_nstimd (nstimd_new s) s, signed_new_nforces s).
Proof.
  intros Hm Hc Hf. unfold imd_sync_nodes, block_bc. rewrite Hm.
  rewrite set_bConnected_same.
  replace (if PAR cr then s else s) with s by (destruct (PAR cr); reflexivity).
  rewrite Hc. cbn [negb]. rewrite set_nstimd_new_same.
  replace (if PAR cr then s else s) with s by (destruct (PAR cr); reflexivity).
  cbn [bForceActivated set_nstimd]. rewrite Hf. cbn [negb].
  change (signed_new_nforces (set_nstimd (nstimd_new s) s))
    with (signed_new_nforces s).
  destruct (PAR cr); reflexivity.
Qed.

(** The log keeps the force arrays as they are. *)
Lemma keep_old_values_forces s :
  nforces (keep_old_values s) = nforces s
  /\ f_ind (keep_old_values s) = f_ind s /\ f (keep_old_values s) = f s.
Proof.
  unfold keep_old_values.
  generalize (upto (nforces (set_old_nforces (nforces s) s))).
  change (nforces s) with (nforces (set_old_nforces (nforces s) s)) at 2.
  change (f_ind s) with (f_ind (set_old_nforces (nforces s) s)).
  change (f s) with (f (set_old_nforces (nforces s) s)).
  generalize (set_old_nforces (nforces s) s). clear s.
  intros s l. revert s.
  induction l as [|i l IH]; intros s; cbn [fold_left]; [auto|].
  destruct (IH (set_old_forces (<[i:=nth i (f (set_old_f_ind
                   (<[i:=nth i (f_ind s) 0]> (old_f_ind s)) s)) rvec_zero]>
                   (old_forces (set_old_f_ind (<[i:=nth i (f_ind s) 0]> (old_f_ind s)) s)))
                 (set_old_f_ind (<[i:=nth i (f_ind s) 0]> (old_f_ind s)) s)))
    as (H1 & H2 & H3).
  rewrite H1, H2, H3. auto.
Qed.

Lemma output_imd_forces_forces fp s t :
  nforces (output_imd_forces fp s t) = nforces s
  /\ f_ind (output_imd_forces fp s t) = f_ind s
  /\ f (output_imd_forces fp s t) = f s.
Proof.
  unfold output_imd_forces. destruct (bForcesChanged s); [|auto].
  match goal with
  | |- context [keep_old_values ?x] =>
      destruct (keep_old_values_forces x) as (E1 & E2 & E3)
  end.
  rewrite E1, E2, E3. auto.
Qed.

(** With the count 0 the block leaves no force. *)
Lemma imd_sync_new_forces_zero cr wire s t :
  MASTER cr = true ->
  nforces (imd_sync_new_forces cr wire s t 0) = 0
  /\ f_ind (imd_sync_new_forces cr wire s t 0) = []
  /\ f (imd_sync_new_forces cr wire s t 0) = []
  /\ bNewForces (imd_sync_new_forces cr wire s t 0) = false.
Proof.
  intros Hm. unfold imd_sync_new_forces, nblock_bc. rewrite Hm.
  set (s1 := imd_copyto_MD_Forces _).
  assert (H1 : nforces s1 = 0 /\ f_ind s1 = [] /\ f s1 = []).
  { subst s1. unfold imd_copyto_MD_Forces. repeat split. }
  set (s2 := match outf s1 with Some fp => output_imd_forces fp s1 t | None => s1 end).
  assert (H2 : nforces s2 = 0 /\ f_ind s2 = [] /\ f s2 = []).
  { subst s2. destruct (outf s1) as [fp|]; [|exact H1].
    destruct (output_imd_forces_forces fp s1 t) as (E1 & E2 & E3).
    rewrite E1, E2, E3. exact H1. }
  destruct H2 as (E1 & E2 & E3).
  destruct (PAR cr); cbn; auto.
Qed.

(** C5, the case the sign convention misses.  With a client connected,
    pulling enabled, no new forces and an empty last batch
    ([vmd_nforces = 0]), the count the coordinator computes is 0, which is not
    negative: the block that takes new forces over is entered, the arrays
    are resized (to no element) and the new-forces flag is reset as if fresh
    forces had come. *)
Theorem sync_count_zero_batch (cr : t_commrec) (wire : bcast) (s : t_gmx_IMD)
  (t : double) :
  MASTER cr = true ->
  bConnected s = true -> bForceActivated s = true ->
  bNewForces s = false -> vmd_nforces s = 0 ->
  signed_new_nforces s = 0
  /\ imd_sync_nodes cr wire s t
     = (imd_sync_new_forces cr wire (set_nstimd (nstimd_new s) s) t 0, 0)
  /\ ~ snd (imd_sync_nodes cr wire s t) < 0
  /\ f_ind (fst (imd_sync_nodes cr wire s t)) = []
  /\ f (fst (imd_sync_nodes cr wire s t)) = [].
Proof.
  intros Hm Hc Hf Hn Hv.
  assert (Hs : signed_new_nforces s = 0).
  { unfold signed_new_nforces. rewrite Hn, Hv. reflexivity. }
  rewrite (imd_sync_nodes_master cr wire s t Hm Hc Hf), Hs.
  change (0 <=? 0) with true. cbn iota. cbn [fst snd].
  destruct (imd_sync_new_forces_zero cr wire (set_nstimd (nstimd_new s) s) t Hm)
    as (E1 & E2 & E3 & E4).
  repeat split; try assumption. lia.
Qed.

(** The sign convention where it works: with a batch of at least one force
    the count is negative exactly when no new forces came. *)
Lemma sync_count_sign (s : t_gmx_IMD) :
  0 < vmd_nforces s <= 2147483647 ->
  (signed_new_nforces s < 0 <-> bNewForces s = false).
Proof.
  intros Hv. unfold signed_new_nforces.
  assert (Hw : wrap_int32 (vmd_nforces s * -1) = - vmd_nforces s).
  { unfold wrap_int32. div_mod_lia. }
  destruct (bNewForces s); [split; [lia | discriminate]|].
  rewrite Hw. split; [reflexivity | lia].
Qed.

(** *** Connection attempts *)

(** C2, as the code has it.  When a connection is accepted and the
    handshake is written, but no message comes within the wait or the first
    message is not [IMD_GO], [imd_tryconnect] disconnects the client through
    [imd_fatal] and then goes on to its last two lines: it returns TRUE
    and leaves [bConnected] set, with no client socket. *)
Theorem imd_tryconnect_no_go (s : t_gmx_IMD) (r : Z) (ls1 ls2 : IMDListenSocket)
  (c c1 c2 : IMDSocket) (r2 : Z) :
  imdsock_tryread_listen (socket s) 0 0 = (r, ls1) -> 0 < r ->
  imdsock_accept ls1 = (Some c, ls2) ->
  imd_handshake c = (false, c1) ->
  imdsock_tryread c1 c_connectWait 0 = (r2, c2) ->
  r2 <> 1 \/ fst (fst (imd_recv_header c2 (imd_length s))) <> IMDType_code IMD_GO ->
  fst (imd_tryconnect s) = true
  /\ bConnected (snd (imd_tryconnect s)) = true
  /\ clientsocket (snd (imd_tryconnect s)) = None
  /\ nstimd_new (snd (imd_tryconnect s)) = nstimd_def s.
Proof.
  intros Hl Hr Ha Hh Hp Hgo. unfold imd_tryconnect.
  rewrite Hl. apply Z.ltb_lt in Hr. rewrite Hr.
  cbn [socket set_socket]. rewrite Ha.
  cbn [clientsocket set_clientsocket set_socket]. rewrite Hh.
  cbn [clientsocket set_clientsocket]. rewrite Hp.
  cbn [imd_length set_clientsocket set_socket].
  destruct (negb (r2 =? 1)) eqn:E1.
  - repeat split.
  - destruct (imd_recv_header c2 (imd_length s)) as [[itype len] c3].
    cbn [fst] in Hgo.
    assert (E2 : negb (itype =? IMDType_code IMD_GO) = true).
    { apply negb_true_iff, Z.eqb_neq.
      apply negb_false_iff, Z.eqb_eq in E1.
      destruct Hgo as [Hgo|Hgo]; [contradiction | exact Hgo]. }
    rewrite E2. repeat split.
Qed.

(** The sibling branch, a handshake that cannot be written, does abort
    the attempt: it returns FALSE and the session stays without client. *)
Lemma imd_tryconnect_handshake_failed (s : t_gmx_IMD) (r : Z)
  (ls1 ls2 : IMDListenSocket) (c c1 : IMDSocket) :
  imdsock_tryread_listen (socket s) 0 0 = (r, ls1) -> 0 < r ->
  imdsock_accept ls1 = (Some c, ls2) ->
  imd_handshake c = (true, c1) ->
  fst (imd_tryconnect s) = false
  /\ bConnected (snd (imd_tryconnect s)) = false
  /\ clientsocket (snd (imd_tryconnect s)) = None.
Proof.
  intros Hl Hr Ha Hh. unfold imd_tryconnect.
  rewrite Hl. apply Z.ltb_lt in Hr. rewrite Hr.
  cbn [socket set_socket]. rewrite Ha.
  cbn [clientsocket set_clientsocket set_socket]. rewrite Hh.
  repeat split.
Qed.

(** And a client whose first message is [IMD_GO] is connected. *)
Lemma imd_tryconnect_go (s : t_gmx_IMD) (r : Z) (ls1 ls2 : IMDListenSocket)
  (c c1 c2 c3 : IMDSocket) (len : Z) :
  imdsock_tryread_listen (socket s) 0 0 = (r, ls1) -> 0 < r ->
  imdsock_accept ls1 = (Some c, ls2) ->
  imd_handshake c = (false, c1) ->
  imdsock_tryread c1 c_connectWait 0 = (1, c2) ->
  imd_recv_header c2 (imd_length s) = (IMDType_code IMD_GO, len, c3) ->
  fst (imd_tryconnect s) = true
  /\ bConnected (snd (imd_tryconnect s)) = true
  /\ clientsocket (snd (imd_tryconnect s)) = Some c3.
Proof.
  intros Hl Hr Ha Hh Hp Hgo. unfold imd_tryconnect.
  rewrite Hl. apply Z.ltb_lt in Hr. rewrite Hr.
  cbn [socket set_socket]. rewrite Ha.
  cbn [clientsocket set_clientsocket set_socket]. rewrite Hh.
  cbn [clientsocket set_clientsocket]. rewrite Hp.
  cbn [imd_length set_clientsocket set_socket]. rewrite Hgo.
  repeat split.
Qed.

(** *** Force data that falls short *)

Lemma wrap_int32_small (z : Z) : int32_range z -> wrap_int32 z = z.
Proof.
  unfold int32_range, wrap_int32. intros H.
  div_mod_lia.
Qed.

Lemma length_srenew {A : Type} (fresh : nat -> A) (old : list A) (n : Z) :
  length (srenew fresh old n) = Z.to_nat n.
Proof.
  unfold srenew. rewrite length_app, length_take, length_map, length_seq. lia.
Qed.

Lemma length_store_at_start (bs buf : list byte) :
  (length bs <= length buf)%nat -> length (store_at_start bs buf) = length buf.
Proof.
  intros H. unfold store_at_start. rewrite length_app, length_drop. lia.
Qed.

(** A successful [imd_recv_mdcomm] has taken [16 * N] bytes off the script;
    in any case the buffers keep their sizes. *)
Lemma imd_recv_mdcomm_spec sk N ndx frc ok ndx' frc' sk' :
  0 < N -> 12 * N <= 2147483647 ->
  length ndx = Z.to_nat (4 * N) -> length frc = Z.to_nat (12 * N) ->
  imd_recv_mdcomm sk N ndx frc = (ok, ndx', frc', sk') ->
  (ok = true -> 16 * N <= Z.of_nat (script_bytes (sk_in sk)))
  /\ length ndx' = Z.to_nat (4 * N) /\ length frc' = Z.to_nat (12 * N).
Proof.
  intros HN Hmax Hndx Hfrc. unfold imd_recv_mdcomm.
  rewrite !wrap_int32_small by (unfold int32_range; lia).
  destruct (imd_read_multiple sk (4 * N)) as [[n1 b1] sk1] eqn:H1.
  apply imd_read_multiple_spec in H1
    as (k1 & Hn1 & Hk1 & Hout1 & Hbytes1 & _).
  assert (L1 : length (store_at_start b1 ndx) = Z.to_nat (4 * N))
    by (rewrite length_store_at_start; lia).
  destruct (negb (n1 =? 4 * N)) eqn:E1.
  { intros [= <- <- <- <-]. repeat split; [discriminate | exact L1 | exact Hfrc]. }
  apply negb_false_iff, Z.eqb_eq in E1.
  destruct (imd_read_multiple sk1 (3 * 4 * N)) as [[n2 b2] sk2] eqn:H2.
  apply imd_read_multiple_spec in H2
    as (k2 & Hn2 & Hk2 & Hout2 & Hbytes2 & _).
  assert (L2 : length (store_at_start b2 frc) = Z.to_nat (12 * N))
    by (rewrite length_store_at_start; lia).
  destruct (negb (n2 =? 3 * 4 * N)) eqn:E2.
  { intros [= <- <- <- <-]. repeat split; [discriminate | exact L1 | exact L2]. }
  apply negb_false_iff, Z.eqb_eq in E2.
  intros [= <- <- <- <-]. repeat split; [lia | exact L1 | exact L2].
Qed.

(** *** Removing molecule shifts *)

Lemma shift_positions_lookup box x shift n j :
  shift_positions box x shift n !! j
  = if decide (j < n)%nat then shift_position box shift <$> (x !! j) else x !! j.
Proof.
  unfold shift_positions. induction n as [|n IH].
  - cbn [seq fold_left]. destruct (decide (j < 0)%nat); [lia | reflexivity].
  - rewrite seq_S, fold_left_app. cbn [fold_left Nat.add].
    rewrite list_lookup_alter.
    destruct (decide (n = j)) as [->|Hne]; rewrite IH;
      repeat case_decide; try lia; reflexivity.
Qed.

(** One turn of the molecule loop moves the atoms of its molecule by the
    shift of the molecule, if there is one, and no other atom. *)
Lemma remove_molshift_lookup box ms xa_shifts xa i j :
  remove_molshift box ms xa_shifts xa i !! j
  = if bool_decide (nth i (index ms) 0 <= j < nth (i + 1) (index ms) 0)%nat
       && ivec_nonzero (molecule_shift xa_shifts (nth i (index ms) 0%nat)
                          (nth (i + 1) (index ms) 0%nat))
    then shift_position box
           (molecule_shift xa_shifts (nth i (index ms) 0%nat)
              (nth (i + 1) (index ms) 0%nat)) <$> (xa !! j)
    else xa !! j.
Proof.
  unfold remove_molshift.
  set (first := nth i (index ms) 0%nat).
  set (next := nth (i + 1) (index ms) 0%nat).
  set (shift := molecule_shift xa_shifts first next).
  destruct (ivec_nonzero shift); [|rewrite andb_false_r; reflexivity].
  rewrite andb_true_r.
  destruct (decide (j < length (take first xa))%nat) as [Hlt|Hge].
  - rewrite lookup_app_l by exact Hlt. rewrite length_take in Hlt.
    rewrite bool_decide_eq_false_2 by lia.
    apply lookup_take_lt. lia.
  - rewrite lookup_app_r by lia. rewrite shift_positions_lookup, lookup_drop.
    rewrite length_take in *.
    destruct (decide (first <= length xa)%nat) as [Hf|Hf].
    + replace (first `min` length xa)%nat with first in * by lia.
      replace (first + (j - first))%nat with j by lia.
      destruct (decide (j - first < next - first)%nat).
      * rewrite bool_decide_eq_true_2 by lia. reflexivity.
      * rewrite bool_decide_eq_false_2 by lia. reflexivity.
    + rewrite (lookup_ge_None_2 xa j) by lia.
      rewrite (lookup_ge_None_2 xa (first + _)) by lia.
      destruct (decide _), (bool_decide _); reflexivity.
Qed.

Lemma index_monotone (ms : t_block) :
  (forall i, (i < nr ms)%nat ->
             (nth i (index ms) 0 <= nth (i + 1) (index ms) 0)%nat) ->
  forall a b, (a <= b <= nr ms)%nat ->
              (nth a (index ms) 0 <= nth b (index ms) 0)%nat.
Proof.
  intros Hstep a b. induction b as [|b IH]; intros Hab.
  - replace a with 0%nat by lia. lia.
  - destruct (decide (a = S b)) as [->|Hne]; [lia|].
    specialize (Hstep b ltac:(lia)). rewrite Nat.add_1_r in Hstep.
    specialize (IH ltac:(lia)). lia.
Qed.

(** An atom that belongs to none of the first [k] molecules is where it
    was after [k] turns of the molecule loop. *)
Lemma remove_molshifts_outside box ms xa_shifts xa j k :
  (forall i, (i < k)%nat ->
             ~ (nth i (index ms) 0 <= j < nth (i + 1) (index ms) 0)%nat) ->
  fold_left (remove_molshift box ms xa_shifts) (seq 0 k) xa !! j = xa !! j.
Proof.
  induction k as [|k IH]; intros Hout; [reflexivity|].
  rewrite seq_S, fold_left_app. cbn [fold_left Nat.add].
  rewrite remove_molshift_lookup.
  rewrite bool_decide_eq_false_2 by (apply Hout; lia).
  cbn [andb]. apply IH. intros i Hi. apply Hout. lia.
Qed.

(** An atom of molecule [i] has been moved by the shift of molecule [i],
    once, when the loop has passed molecule [i]. *)
Lemma remove_molshifts_inside box ms xa_shifts xa j k i :
  (forall i, (i < nr ms)%nat ->
             (nth i (index ms) 0 <= nth (i + 1) (index ms) 0)%nat) ->
  (k <= nr ms)%nat -> (i < k)%nat ->
  (nth i (index ms) 0 <= j < nth (i + 1) (index ms) 0)%nat ->
  fold_left (remove_molshift box ms xa_shifts) (seq 0 k) xa !! j
  = if ivec_nonzero (molecule_shift xa_shifts (nth i (index ms) 0%nat)
                       (nth (i + 1) (index ms) 0%nat))
    then shift_position box
           (molecule_shift xa_shifts (nth i (index ms) 0%nat)
              (nth (i + 1) (index ms) 0%nat)) <$> (xa !! j)
    else xa !! j.
Proof.
  intros Hstep. pose proof (index_monotone ms Hstep) as Hmono.
  induction k as [|k IH]; intros Hk Hi Hj; [lia|].
  rewrite seq_S, fold_left_app. cbn [fold_left Nat.add].
  rewrite remove_molshift_lookup.
  destruct (decide (i = k)) as [->|Hne].
  - rewrite bool_decide_eq_true_2 by exact Hj. cbn [andb].
    rewrite remove_molshifts_outside; [reflexivity|].
    intros i' Hi'. specialize (Hmono (i' + 1)%nat k ltac:(lia)). lia.
  - specialize (Hmono (i + 1)%nat k ltac:(lia)).
    rewrite bool_decide_eq_false_2 by lia. cbn [andb].
    apply IH; [lia | lia | exact Hj].
Qed.

(** The extremes the inner loop computes are the largest and the smallest
    shift on each axis. *)
Lemma fold_update_extremes (l : list ivec) :
  forall a b : ivec,
  fold_left update_extremes l (a, b)
  = ({| XX := fold_left Z.max (map XX l) (XX a);
        YY := fold_left Z.max (map YY l) (YY a);
        ZZ := fold_left Z.max (map ZZ l) (ZZ a) |},
     {| XX := fold_left Z.min (map XX l) (XX b);
        YY := fold_left Z.min (map YY l) (YY b);
        ZZ := fold_left Z.min (map ZZ l) (ZZ b) |}).
Proof.
  induction l as [|sh l IH]; intros a b.
  - destruct a, b. reflexivity.
  - cbn [fold_left map]. unfold update_extremes at 2. rewrite IH.
    cbn [XX YY ZZ].
    assert (Hmax : forall x y, (if x <? y then y else x) = Z.max x y).
    { intros x y. destruct (x <? y) eqn:E; [apply Z.ltb_lt in E | apply Z.ltb_ge in E]; lia. }
    assert (Hmin : forall x y, (if y <? x then y else x) = Z.min x y).
    { intros x y. destruct (y <? x) eqn:E; [apply Z.ltb_lt in E | apply Z.ltb_ge in E]; lia. }
    rewrite !Hmax, !Hmin. reflexivity.
Qed.

Lemma fold_left_through_map {A B C : Type} (f : A -> B -> A) (g : C -> B)
  (l : list C) :
  forall a, fold_left (fun acc x => f acc (g x)) l a = fold_left f (map g l) a.
Proof. induction l as [|x l IH]; intros a; [reflexivity | apply IH]. Qed.

Lemma fold_left_max_right (l : list Z) :
  forall a, fold_left Z.max l a = fold_right Z.max a l.
Proof.
  induction l as [|x l IH]; intros a; [reflexivity|].
  cbn [fold_left fold_right]. rewrite IH. clear IH.
  induction l as [|y l IH]; cbn [fold_right]; lia.
Qed.

Lemma fold_left_min_right (l : list Z) :
  forall a, fold_left Z.min l a = fold_right Z.min a l.
Proof.
  induction l as [|x l IH]; intros a; [reflexivity|].
  cbn [fold_left fold_right]. rewrite IH. clear IH.
  induction l as [|y l IH]; cbn [fold_right]; lia.
Qed.

Lemma fold_right_min_le_max (l : list Z) (a : Z) :
  fold_right Z.min a l <= a <= fold_right Z.max a l.
Proof. induction l as [|x l IH]; cbn [fold_right]; lia. Qed.

Lemma axis_rule (smallest largest : Z) :
  smallest <= largest ->
  (if largest <? 0 then largest else if 0 <? smallest then smallest else 0)
  = (if 0 <? smallest then smallest else if largest <? 0 then largest else 0).
Proof.
  intros H.
  destruct (largest <? 0) eqn:E1, (0 <? smallest) eqn:E2; try reflexivity.
  apply Z.ltb_lt in E1, E2. lia.
Qed.

(** The shift the code settles on is the one the specification words. *)
Lemma molecule_shift_spec (xa_shifts : list ivec) (first next : nat) :
  (first < next)%nat ->
  molecule_shift xa_shifts first next
  = spec_molecule_shift (atom_shifts xa_shifts first next).
Proof.
  intros Hlt. unfold molecule_shift, spec_molecule_shift, atom_shifts.
  replace (first + 1)%nat with (S first) by lia.
  replace (next - first)%nat with (S (next - S first)) by lia.
  cbn [seq map].
  set (start := nth first xa_shifts ivec_zero).
  set (others := seq (S first) (next - S first)).
  rewrite (fold_left_through_map update_extremes
             (fun ii => nth ii xa_shifts ivec_zero) others).
  rewrite fold_update_extremes.
  set (rest := map (fun ii => nth ii xa_shifts ivec_zero) others).
  unfold axis_extreme_shift.
  rewrite !fold_left_max_right, !fold_left_min_right.
  pose proof (fold_right_min_le_max (map XX rest) (XX start)) as HX.
  pose proof (fold_right_min_le_max (map YY rest) (YY start)) as HY.
  pose proof (fold_right_min_le_max (map ZZ rest) (ZZ start)) as HZ.
  rewrite <- (axis_rule _ _ (Z.le_trans _ _ _ (proj1 HX) (proj2 HX))).
  rewrite <- (axis_rule _ _ (Z.le_trans _ _ _ (proj1 HY) (proj2 HY))).
  rewrite <- (axis_rule _ _ (Z.le_trans _ _ _ (proj1 HZ) (proj2 HZ))).
  cbn [XX YY ZZ].
  destruct (0 <? fold_right Z.min (XX start) (map XX rest));
    destruct (0 <? fold_right Z.min (YY start) (map YY rest));
    destruct (0 <? fold_right Z.min (ZZ start) (map ZZ rest));
    destruct (fold_right Z.max (XX start) (map XX rest) <? 0);
    destruct (fold_right Z.max (YY start) (map YY rest) <? 0);
    destruct (fold_right Z.max (ZZ start) (map ZZ rest) <? 0);
    reflexivity.
Qed.

(** Where subtraction is exact, as on the integers and unlike floating
    point, two positions moved by the same shift keep their difference. *)
Lemma shift_position_difference box shift u v :
  (forall a b d, real_sub (real_sub a d) (real_sub b d) = real_sub a b) ->
  rvec_sub (shift_position box shift u) (shift_position box shift v) = rvec_sub u v.
Proof.
  intros Hsub. unfold rvec_sub, shift_position.
  destruct (TRICLINIC box); cbn [XX YY ZZ]; rewrite !Hsub; reflexivity.
Qed.

(** C8, as the code has it.  For every molecule of the grouping,
    [imd_remove_molshifts] moves every atom of the molecule by one and the
    same shift, once, or moves none of them; the shift has, on each axis,
    the smallest of the atoms' shifts when that is positive, the largest
    when that is negative, and is 0 otherwise ([spec_molecule_shift]); atoms
    of no molecule stay, and so do the shifts.  The new position of an atom
    is computed from its old one alone, by [shift_position] in the
    arithmetic of the reals of the run; what the differences of the
    positions of a molecule are afterwards is left to that arithmetic. *)
Theorem imd_remove_molshifts_uniform (s : t_gmx_IMD) (box : matrix) :
  (forall i, (i < nr (mols s))%nat ->
             (nth i (index (mols s)) 0 <= nth (i + 1) (index (mols s)) 0)%nat) ->
  (forall i j,
     (i < nr (mols s))%nat ->
     (nth i (index (mols s)) 0 <= j < nth (i + 1) (index (mols s)) 0)%nat ->
     xa (imd_remove_molshifts s box) !! j
     = if ivec_nonzero
            (spec_molecule_shift
               (atom_shifts (xa_shifts s) (nth i (index (mols s)) 0%nat)
                  (nth (i + 1) (index (mols s)) 0%nat)))
       then shift_position box
              (spec_molecule_shift
                 (atom_shifts (xa_shifts s) (nth i (index (mols s)) 0%nat)
                    (nth (i + 1) (index (mols s)) 0%nat)))
            <$> (xa s !! j)
       else xa s !! j)
  /\ (forall j,
        (forall i, (i < nr (mols s))%nat ->
           ~ (nth i (index (mols s)) 0 <= j < nth (i + 1) (index (mols s)) 0)%nat) ->
        xa (imd_remove_molshifts s box) !! j = xa s !! j)
  /\ xa_shifts (imd_remove_molshifts s box) = xa_shifts s.
Proof.
  intros Hstep.
  assert (Hin : forall i j,
     (i < nr (mols s))%nat ->
     (nth i (index (mols s)) 0 <= j < nth (i + 1) (index (mols s)) 0)%nat ->
     xa (imd_remove_molshifts s box) !! j
     = if ivec_nonzero
            (spec_molecule_shift
               (atom_shifts (xa_shifts s) (nth i (index (mols s)) 0%nat)
                  (nth (i + 1) (index (mols s)) 0%nat)))
       then shift_position box
              (spec_molecule_shift
                 (atom_shifts (xa_shifts s) (nth i (index (mols s)) 0%nat)
                    (nth (i + 1) (index (mols s)) 0%nat)))
            <$> (xa s !! j)
       else xa s !! j).
  { intros i j Hi Hj. unfold imd_remove_molshifts. cbn [xa set_xa].
    rewrite (remove_molshifts_inside box (mols s) (xa_shifts s) (xa s) j
               (nr (mols s)) i Hstep (le_n _) Hi Hj).
    rewrite molecule_shift_spec by lia. reflexivity. }
  repeat apply conj.
  - exact Hin.
  - intros j Hout. unfold imd_remove_molshifts. cbn [xa set_xa].
    apply remove_molshifts_outside. exact Hout.
  - reflexivity.
Qed.

(** ** Further properties of the code *)

(** *** Reading: what comes off the stream *)

(** The loop stores the bytes of the stream in order: what it has added to
    [got] and what the script still holds make up what the script held. *)
Lemma imd_read_multiple_loop_stream fuel :
  forall sk got toread leftcount n out sk',
  imd_read_multiple_loop fuel sk got toread leftcount = (n, out, sk') ->
  exists d,
    out = got ++ d
    /\ burst_bytes (sk_in sk) = d ++ burst_bytes (sk_in sk')
    /\ n = toread - leftcount + Z.of_nat (length d)
    /\ (length d <= Z.to_nat leftcount)%nat.
Proof.
  induction fuel as [|fuel IH]; intros sk got toread leftcount n out sk';
    cbn [imd_read_multiple_loop].
  - destruct (leftcount =? 0); intros [= <- <- <-]; exists [];
      rewrite app_nil_r; cbn [length app]; repeat split; lia.
  - destruct (leftcount =? 0) eqn:Hz.
    { intros [= <- <- <-]; exists []; rewrite app_nil_r; cbn [length app];
        repeat split; lia. }
    unfold imdsock_read.
    destruct (sk_in sk) as [|[cs|e] rest] eqn:Hin.
    + cbn. intros [= <- <- <-]. exists []. rewrite Hin, app_nil_r.
      cbn [length app burst_bytes]. repeat split; lia.
    + cbn zeta.
      assert (Hleft : burst_bytes
                        (match drop (Z.to_nat leftcount) cs with
                         | [] => rest
                         | _ :: _ => Recv (drop (Z.to_nat leftcount) cs) :: rest
                         end)
                      = drop (Z.to_nat leftcount) cs ++ burst_bytes rest).
      { destruct (drop (Z.to_nat leftcount) cs) eqn:Hd; reflexivity. }
      destruct (Z.of_nat (length (take (Z.to_nat leftcount) cs)) <? 0) eqn:Hneg.
      { exfalso. clear -Hneg. apply Z.ltb_lt in Hneg. lia. }
      destruct (Z.of_nat (length (take (Z.to_nat leftcount) cs)) =? 0) eqn:Hc.
      * intros [= <- <- <-]. exists []. cbn [sk_in]. rewrite Hleft, app_nil_r.
        apply Z.eqb_eq in Hc.
        assert (Ht : take (Z.to_nat leftcount) cs = [])
          by (apply length_zero_iff_nil; lia).
        rewrite <- (take_drop (Z.to_nat leftcount) cs) at 1. rewrite Ht.
        cbn [length app burst_bytes]. repeat split; lia.
      * intros Hloop. apply IH in Hloop as (d & Hout & Hb & Hn & Hd).
        cbn [sk_in] in Hb. rewrite Hleft in Hb.
        exists (take (Z.to_nat leftcount) cs ++ d).
        rewrite Hout, <- !app_assoc. cbn [burst_bytes].
        split; [reflexivity|]. split.
        { rewrite <- Hb, app_assoc, take_drop. reflexivity. }
        rewrite length_app. rewrite length_take in *. split; lia.
    + cbn zeta. cbn [sk_eintr]. change (-1 <? 0) with true. cbn match.
      destruct e.
      * intros Hloop. apply IH in Hloop as (d & Hout & Hb & Hn & Hd).
        cbn [sk_in] in Hb. exists d. cbn [burst_bytes].
        repeat split; assumption.
      * intros [= <- <- <-]. exists []. rewrite app_nil_r.
        cbn [sk_in length app burst_bytes]. repeat split; lia.
Qed.

(** X1. [imd_read_multiple] never reads more than it is asked for, and
    loses, repeats or reorders no byte: the count it returns is the number
    of bytes stored, these are the next bytes of the stream, and the stream
    goes on after them.  Polls, pending writes and bytes sent are left
    alone. *)
Theorem imd_read_multiple_stream (sk : IMDSocket) (toread n : Z)
  (out : list byte) (sk' : IMDSocket) :
  imd_read_multiple sk toread = (n, out, sk') ->
  n = Z.of_nat (length out)
  /\ (length out <= Z.to_nat toread)%nat
  /\ burst_bytes (sk_in sk) = out ++ burst_bytes (sk_in sk')
  /\ sk_poll sk' = sk_poll sk /\ sk_out sk' = sk_out sk
  /\ sk_sent sk' = sk_sent sk.
Proof.
  intros H. pose proof H as H2. unfold imd_read_multiple in H.
  apply imd_read_multiple_loop_stream in H as (d & Hout & Hb & Hn & Hd).
  apply imd_read_multiple_spec in H2 as (k & _ & _ & _ & _ & _ & Hp & Ho & Hs).
  cbn [app] in Hout. subst d.
  repeat split; first [lia | assumption].
Qed.

(** X2. When the bytes asked for are there, [imd_read_multiple] returns all
    of them, however the transport cuts them up and however often a call is
    interrupted ([EINTR]). *)
Theorem imd_read_multiple_complete (sk : IMDSocket) (pre : list rd_event)
  (last more : list byte) (rest : list rd_event) :
  sk_in sk = pre ++ Recv (last ++ more) :: rest ->
  forallb benign pre = true -> last <> [] ->
  exists sk',
    imd_read_multiple sk (Z.of_nat (length (burst_bytes pre ++ last)))
    = (Z.of_nat (length (burst_bytes pre ++ last)), burst_bytes pre ++ last, sk')
    /\ sk_in sk' = match more with [] => rest | _ :: _ => Recv more :: rest end.
Proof.
  intros Hin Hb Hl. unfold imd_read_multiple.
  destruct (imd_read_multiple_loop_delivers pre (S (length (sk_in sk))) sk []
              (Z.of_nat (length (burst_bytes pre ++ last))) last more rest
              Hin Hb Hl) as [e He].
  { rewrite Hin, length_app. lia. }
  rewrite He. eexists. split; reflexivity.
Qed.

(** Entries that end a read: a failure other than [EINTR], and a read that
    returns nothing. *)
Lemma imd_read_multiple_loop_stops pre :
  forall fuel sk got toread leftcount ev rest,
  sk_in sk = pre ++ ev :: rest ->
  forallb benign pre = true -> benign ev = false ->
  Z.of_nat (length (burst_bytes pre)) < leftcount ->
  (length pre < fuel)%nat ->
  exists e,
    imd_read_multiple_loop fuel sk got toread leftcount
    = (toread - leftcount + Z.of_nat (length (burst_bytes pre)),
       got ++ burst_bytes pre,
       Build_IMDSocket (sk_poll sk) rest (sk_out sk) (sk_sent sk) e).
Proof.
  induction pre as [|p pre IH]; intros fuel sk got toread leftcount ev rest
    Hin Hb Hev Hlt Hf.
  - destruct fuel as [|fuel]; [lia|].
    cbn [burst_bytes length] in *. cbn [imd_read_multiple_loop].
    destruct (leftcount =? 0) eqn:Hz; [apply Z.eqb_eq in Hz; lia|].
    unfold imdsock_read. rewrite Hin. cbn [app].
    destruct ev as [[|b bs]|[|]]; try discriminate.
    + exists (sk_eintr sk). cbn zeta. rewrite take_nil, drop_nil. cbn.
      rewrite app_nil_r, Z.add_0_r. reflexivity.
    + exists false. cbn. rewrite app_nil_r, Z.add_0_r. reflexivity.
  - destruct fuel as [|fuel]; [cbn [length] in Hf; lia|].
    cbn [forallb] in Hb. apply andb_true_iff in Hb as [Hp Hb].
    cbn [length] in Hf. cbn [imd_read_multiple_loop].
    destruct (leftcount =? 0) eqn:Hz; [apply Z.eqb_eq in Hz; lia|].
    unfold imdsock_read. rewrite Hin. cbn [app].
    destruct p as [[|b bs]|e]; [discriminate| |].
    + cbn zeta. cbn [burst_bytes] in *. rewrite length_app in Hlt.
      rewrite take_ge, drop_ge by lia. cbn match.
      change (Z.of_nat (length (b :: bs)) <? 0) with false.
      change (Z.of_nat (length (b :: bs)) =? 0) with false. cbn match.
      edestruct (IH fuel
                   (Build_IMDSocket (sk_poll sk) (pre ++ ev :: rest)
                      (sk_out sk) (sk_sent sk) (sk_eintr sk))
                   (got ++ b :: bs) toread
                   (leftcount - Z.of_nat (length (b :: bs))) ev rest)
        as [e He]; [reflexivity | exact Hb | exact Hev | lia | lia |].
      exists e. rewrite He. cbn [sk_poll sk_out sk_sent].
      rewrite <- !app_assoc, length_app. f_equal. f_equal. lia.
    + cbn in Hp. subst e. cbn zeta. cbn [burst_bytes sk_eintr] in *.
      change (-1 <? 0) with true. cbn match.
      edestruct (IH fuel
                   (Build_IMDSocket (sk_poll sk) (pre ++ ev :: rest)
                      (sk_out sk) (sk_sent sk) true)
                   got toread leftcount ev rest)
        as [e He]; [reflexivity | exact Hb | exact Hev | lia | lia |].
      exists e. rewrite He. reflexivity.
Qed.

(** X3. A failure other than [EINTR], or a read that returns nothing, ends
    [imd_read_multiple] at once: it returns the number of bytes read up to
    there, less than was asked for, with these bytes; the entry is used up
    and nothing after it is touched. *)
Theorem imd_read_multiple_stops (sk : IMDSocket) (toread : Z)
  (pre : list rd_event) (ev : rd_event) (rest : list rd_event) :
  sk_in sk = pre ++ ev :: rest ->
  forallb benign pre = true -> benign ev = false ->
  Z.of_nat (length (burst_bytes pre)) < toread ->
  exists sk',
    imd_read_multiple sk toread
    = (Z.of_nat (length (burst_bytes pre)), burst_bytes pre, sk')
    /\ sk_in sk' = rest.
Proof.
  intros Hin Hb Hev Hlt. unfold imd_read_multiple.
  destruct (imd_read_multiple_loop_stops pre (S (length (sk_in sk))) sk []
              toread toread ev rest Hin Hb Hev Hlt) as [e He].
  { rewrite Hin, length_app. lia. }
  rewrite He, Z.sub_diag, Z.add_0_l. cbn [app].
  eexists. split; reflexivity.
Qed.

(** *** Receiving a header *)

(** X4. With fewer than eight bytes to be read, [imd_recv_header] reports
    [IMD_IOERROR] and leaves the length of the last header as it was. *)
Theorem imd_recv_header_short (sk : IMDSocket) (len : Z) :
  (script_bytes (sk_in sk) < 8)%nat ->
  exists sk', imd_recv_header sk len = (IMDType_code IMD_IOERROR, len, sk').
Proof.
  intros Hlt. unfold imd_recv_header.
  destruct (imd_read_multiple sk c_headerSize) as [[n bs] sk1] eqn:Hrd.
  apply imd_read_multiple_spec in Hrd as (k & Hn & _ & _ & Hbytes & _).
  assert (E : (n =? c_headerSize) = false)
    by (apply Z.eqb_neq; unfold c_headerSize; lia).
  rewrite E. eexists. reflexivity.
Qed.

Lemma imd_ntohl_load_int32 (bs : list byte) :
  length bs = 4%nat -> imd_ntohl (load_int32 bs) = of_be_bytes bs.
Proof.
  intros H. unfold imd_ntohl. rewrite store_int32_load_int32 by exact H.
  reflexivity.
Qed.

(** X5. Whatever the byte order of the host, [imd_recv_header] reads the two
    fields of a header as big-endian numbers: the kind from the first four
    bytes, the length from the next four. *)
Theorem imd_recv_header_network_order (sk : IMDSocket) (len0 : Z)
  (pre : list rd_event) (last more : list byte) (rest : list rd_event) :
  sk_in sk = pre ++ Recv (last ++ more) :: rest ->
  forallb benign pre = true -> last <> [] ->
  length (burst_bytes pre ++ last) = 8%nat ->
  exists sk',
    imd_recv_header sk len0
    = (of_be_bytes (take 4 (burst_bytes pre ++ last)),
       of_be_bytes (drop 4 (burst_bytes pre ++ last)), sk')
    /\ sk_in sk' = match more with [] => rest | _ :: _ => Recv more :: rest end.
Proof.
  intros Hin Hb Hl Hlen. unfold imd_recv_header, imd_read_multiple.
  destruct (imd_read_multiple_loop_delivers pre (S (length (sk_in sk))) sk []
              c_headerSize last more rest Hin Hb Hl) as [e He].
  { rewrite Hin, length_app. lia. }
  rewrite Hlen in He. change (Z.of_nat 8) with c_headerSize in He. rewrite He.
  rewrite Z.eqb_refl. cbn [negb app].
  set (B := burst_bytes pre ++ last) in *.
  unfold swap_header, header_of_bytes. cbn [type length_].
  rewrite !imd_ntohl_load_int32
    by (rewrite length_take, ?length_drop; lia).
  rewrite (take_ge (drop 4 B)) by (rewrite length_drop; lia).
  eexists. split; reflexivity.
Qed.

(** *** The command loop: what it cannot do *)

Lemma dispatcher_frame_refl s : dispatcher_frame s s.
Proof. unfold dispatcher_frame. repeat split. Qed.

Lemma dispatcher_frame_trans s1 s2 s3 :
  dispatcher_frame s1 s2 -> dispatcher_frame s2 s3 -> dispatcher_frame s1 s3.
Proof.
  unfold dispatcher_frame. intros H1 H2.
  repeat match goal with H : _ /\ _ |- _ => destruct H end.
  repeat split; etransitivity; eassumption.
Qed.

Lemma imd_disconnect_frame s : dispatcher_frame s (imd_disconnect s).
Proof. unfold dispatcher_frame. repeat split. Qed.

Lemma imd_read_vmd_Forces_frame s :
  dispatcher_frame s (imd_read_vmd_Forces s)
  /\ termination_state (imd_read_vmd_Forces s) = termination_state s.
Proof.
  unfold imd_read_vmd_Forces.
  cbn [clientsocket imd_prepare_vmd_Forces set_vmd_forces set_vmd_f_ind
         set_vmd_nforces].
  destruct (clientsocket s) as [sk|]; [|split; [unfold dispatcher_frame|];
                                        repeat split].
  destruct (imd_recv_mdcomm sk _ _ _) as [[[ok ndx] frc] sk1].
  destruct ok; split; try (unfold dispatcher_frame; repeat split); reflexivity.
Qed.

Lemma imd_command_frame itype paused s :
  dispatcher_frame s (snd (imd_command itype paused s))
  /\ (bTerminatable s = false ->
      termination_state (snd (imd_command itype paused s)) = termination_state s).
Proof.
  unfold imd_command.
  destruct (IMDType_of_code itype) as [[]|]; cbn [snd];
    try (split; [apply imd_disconnect_frame | reflexivity]);
    try (split; [apply dispatcher_frame_refl | reflexivity]).
  - destruct (bTerminatable s) eqn:Ht; cbn [snd].
    + split; [unfold dispatcher_frame; repeat split | discriminate].
    + split; [apply dispatcher_frame_refl | reflexivity].
  - destruct (imd_read_vmd_Forces_frame s) as [H1 H2].
    split; [|intros _; exact H2].
    unfold dispatcher_frame in *.
    repeat match goal with H : _ /\ _ |- _ => destruct H end.
    repeat split; assumption.
Qed.

Lemma imd_readcommand_loop_frame fuel :
  forall paused s s',
  imd_readcommand_loop fuel paused s = Some s' ->
  dispatcher_frame s s'
  /\ (bTerminatable s = false -> termination_state s' = termination_state s).
Proof.
  induction fuel as [|fuel IH]; intros paused s s'; cbn [imd_readcommand_loop].
  - destruct (clientsocket s) as [sk|];
      [|intros [= <-]; split; [apply dispatcher_frame_refl | reflexivity]].
    destruct (imdsock_tryread sk 0 0) as [r sk1].
    destruct ((0 <? r) || paused); [discriminate|].
    intros [= <-]. split; [unfold dispatcher_frame; repeat split | reflexivity].
  - destruct (clientsocket s) as [sk|];
      [|intros [= <-]; split; [apply dispatcher_frame_refl | reflexivity]].
    destruct (imdsock_tryread sk 0 0) as [r sk1].
    destruct ((0 <? r) || paused);
      [|intros [= <-]; split; [unfold dispatcher_frame; repeat split | reflexivity]].
    destruct (imd_recv_header sk1 _) as [[itype len] sk2].
    match goal with
    | |- context [imd_command itype paused ?x] =>
        pose proof (imd_command_frame itype paused x) as [Hf Ht];
        destruct (imd_command itype paused x) as [paused' s2]
    end.
    cbn [snd] in Hf, Ht. intros Hloop. apply IH in Hloop as [Hf2 Ht2].
    split.
    + eapply dispatcher_frame_trans; [|exact Hf2].
      eapply dispatcher_frame_trans; [|exact Hf].
      unfold dispatcher_frame. repeat split.
    + intros Hnt.
      assert (Hb : bTerminatable s2 = false).
      { destruct Hf as (_ & _ & _ & _ & _ & _ & _ & _ & Hb & _).
        rewrite Hb. exact Hnt. }
      rewrite (Ht2 Hb), (Ht Hnt). reflexivity.
Qed.

(** X6. Whatever the client sends, draining its commands never changes the
    agreed interval [nstimd], the default interval, the applied forces
    ([nforces], [f_ind], [f]) and their log copy, the run options, the atom
    group, the positions and the listening socket: these change in the
    synchronizer and the other entry points only. *)
Theorem imd_readcommand_frame (fuel : nat) (s s' : t_gmx_IMD) :
  imd_readcommand fuel s = Some s' -> dispatcher_frame s s'.
Proof. intros H. apply (imd_readcommand_loop_frame fuel false s s' H). Qed.

(** X7. A client cannot end the simulation unless the run allows it: with
    [bTerminatable] off, no sequence of messages changes [bTerminated],
    [bWConnect] or the stop condition. *)
Theorem imd_readcommand_cannot_terminate (fuel : nat) (s s' : t_gmx_IMD) :
  bTerminatable s = false ->
  imd_readcommand fuel s = Some s' ->
  bTerminated s' = bTerminated s /\ bWConnect s' = bWConnect s
  /\ stop_condition s' = stop_condition s.
Proof.
  intros Hnt H.
  destruct (imd_readcommand_loop_frame fuel false s s' H) as [_ Ht].
  specialize (Ht Hnt). unfold termination_state in Ht.
  injection Ht as H1 H2 H3. auto.
Qed.

(** X8. A disconnect message ends the drain: the client is disconnected and
    nothing that follows the message on the socket is read or obeyed. *)
Theorem imd_readcommand_disconnect_ends (fuel : nat) (paused : bool)
  (s : t_gmx_IMD) (sk : IMDSocket) (len : Z) (more : list byte)
  (rest : list rd_event) :
  clientsocket s = Some sk ->
  (0 <? hd 0 (sk_poll sk)) || paused = true ->
  int32_range len ->
  sk_in sk = Recv (header_bytes (fill_header IMD_DISCONNECT len) ++ more) :: rest ->
  exists sk',
    imd_readcommand_loop (S fuel) paused s
    = Some (imd_disconnect (set_imd_length len (set_clientsocket (Some sk') s)))
    /\ sk_in sk' = match more with [] => rest | _ :: _ => Recv more :: rest end.
Proof.
  intros Hc Hr Hlen Hin.
  rewrite (imd_readcommand_loop_step fuel paused s sk Hc Hr).
  edestruct (imd_recv_header_delivers
               (Build_IMDSocket (tl (sk_poll sk)) (sk_in sk) (sk_out sk)
                  (sk_sent sk) (sk_eintr sk))
               (imd_length s) IMD_DISCONNECT len []
               (header_bytes (fill_header IMD_DISCONNECT len)) more rest Hlen)
    as [e He].
  { cbn [sk_in app]. exact Hin. }
  { reflexivity. }
  { intros E. apply (f_equal length) in E. rewrite length_header_bytes in E.
    discriminate. }
  { reflexivity. }
  rewrite He.
  change (imd_command (IMDType_code IMD_DISCONNECT) paused ?x)
    with (paused, imd_disconnect x).
  cbn iota. rewrite imd_readcommand_loop_no_client by reflexivity.
  eexists. split; reflexivity.
Qed.

(** *** Force data that arrives in full *)

(** A script without failure and without end of file delivers what is asked
    of it, in any fragmentation: the first [leftcount] bytes of its bursts. *)
Lemma imd_read_multiple_loop_benign evs :
  forall fuel sk got toread leftcount,
  sk_in sk = evs -> forallb benign evs = true ->
  0 <= leftcount <= Z.of_nat (length (burst_bytes evs)) ->
  (length evs < fuel)%nat ->
  exists sk',
    imd_read_multiple_loop fuel sk got toread leftcount
    = (toread, got ++ take (Z.to_nat leftcount) (burst_bytes evs), sk')
    /\ forallb benign (sk_in sk') = true
    /\ burst_bytes (sk_in sk') = drop (Z.to_nat leftcount) (burst_bytes evs)
    /\ sk_poll sk' = sk_poll sk /\ sk_out sk' = sk_out sk
    /\ sk_sent sk' = sk_sent sk.
Proof.
  induction evs as [|ev evs IH]; intros fuel sk got toread leftcount Hin Hb Hl Hf.
  - cbn [burst_bytes length] in Hl. assert (leftcount = 0) as -> by lia.
    exists sk. destruct fuel; cbn [imd_read_multiple_loop Z.eqb];
      rewrite Z.sub_0_r, Hin; cbn; rewrite app_nil_r; repeat split.
  - destruct (Z.eqb_spec leftcount 0) as [->|Hne].
    { exists sk. destruct fuel; cbn [imd_read_multiple_loop Z.eqb];
        rewrite Z.sub_0_r, Hin, Hb; cbn [Z.to_nat take drop];
        rewrite app_nil_r; repeat split. }
    destruct fuel as [|fuel]; [cbn [length] in Hf; lia|].
    cbn [imd_read_multiple_loop].
    destruct (leftcount =? 0) eqn:E0; [apply Z.eqb_eq in E0; contradiction|].
    unfold imdsock_read. rewrite Hin.
    cbn [forallb] in Hb. apply andb_true_iff in Hb as [Hev Hb].
    cbn [length] in Hf.
    destruct ev as [bs|e].
    + destruct bs as [|b bs]; [discriminate|].
      set (L := Z.to_nat leftcount) in *.
      assert (HL : (0 < L)%nat) by (subst L; lia).
      assert (Hlt : length (take L (b :: bs)) = Nat.min L (length (b :: bs)))
        by apply length_take.
      assert (Hpos : (0 < length (take L (b :: bs)))%nat)
        by (rewrite Hlt; cbn [length]; lia).
      destruct (Z.of_nat (length (take L (b :: bs))) <? 0) eqn:E1;
        [apply Z.ltb_lt in E1; lia|].
      destruct (Z.of_nat (length (take L (b :: bs))) =? 0) eqn:E2;
        [apply Z.eqb_eq in E2; lia|].
      cbn [burst_bytes] in Hl |- *.
      destruct (le_lt_dec (length (b :: bs)) L) as [Hge|Hlt'].
      * rewrite (take_ge (b :: bs) L) by exact Hge.
        rewrite (drop_ge (b :: bs) L) by exact Hge.
        edestruct (IH fuel
                     (Build_IMDSocket (sk_poll sk) evs (sk_out sk) (sk_sent sk)
                        (sk_eintr sk))
                     (got ++ b :: bs) toread
                     (leftcount - Z.of_nat (length (b :: bs))))
          as (sk' & Hrun & Hb' & Hbytes & Hp & Ho & Hs).
        { reflexivity. } { exact Hb. }
        { rewrite length_app in Hl. lia. } { lia. }
        exists sk'. rewrite Hrun.
        replace (Z.to_nat (leftcount - Z.of_nat (length (b :: bs))))
          with (L - length (b :: bs))%nat in * by (subst L; lia).
        rewrite take_app, drop_app, (take_ge (b :: bs) L) by exact Hge.
        rewrite (drop_ge (b :: bs) L) by exact Hge.
        rewrite <- app_assoc. cbn [app]. repeat split; assumption.
      * rewrite Hlt. replace (Nat.min L (length (b :: bs))) with L by lia.
        replace (leftcount - Z.of_nat L) with 0 by (subst L; lia).
        assert (Hd : drop L (b :: bs) <> []).
        { intros E. apply (f_equal length) in E. rewrite length_drop in E.
          cbn [length] in E, Hlt'. lia. }
        destruct (drop L (b :: bs)) as [|c cs] eqn:Hdrop; [congruence|].
        rewrite take_app, drop_app.
        replace (L - length (b :: bs))%nat with 0%nat by lia.
        rewrite take_0, drop_0, app_nil_r, Hdrop.
        eexists. split.
        { destruct fuel; cbn [imd_read_multiple_loop Z.eqb];
            rewrite Z.sub_0_r; reflexivity. }
        cbn [sk_in sk_poll sk_out sk_sent forallb benign burst_bytes app].
        repeat split; assumption.
    + cbn [benign] in Hev. subst e.
      change (-1 <? 0) with true. cbn iota. cbn [sk_eintr].
      cbn [burst_bytes] in Hl |- *.
      edestruct (IH fuel
                   (Build_IMDSocket (sk_poll sk) evs (sk_out sk) (sk_sent sk) true)
                   got toread leftcount)
        as (sk' & Hrun & Hb' & Hbytes & Hp & Ho & Hs).
      { reflexivity. } { exact Hb. } { exact Hl. } { lia. }
      exists sk'. rewrite Hrun. repeat split; assumption.
Qed.

Lemma imd_read_multiple_benign sk toread :
  forallb benign (sk_in sk) = true ->
  0 <= toread <= Z.of_nat (length (burst_bytes (sk_in sk))) ->
  exists sk',
    imd_read_multiple sk toread
    = (toread, take (Z.to_nat toread) (burst_bytes (sk_in sk)), sk')
    /\ forallb benign (sk_in sk') = true
    /\ burst_bytes (sk_in sk') = drop (Z.to_nat toread) (burst_bytes (sk_in sk))
    /\ sk_poll sk' = sk_poll sk /\ sk_out sk' = sk_out sk
    /\ sk_sent sk' = sk_sent sk.
Proof.
  intros Hb Hl. unfold imd_read_multiple.
  destruct (imd_read_multiple_loop_benign (sk_in sk) (S (length (sk_in sk))) sk []
              toread toread eq_refl Hb Hl) as (sk' & Hrun & H); [lia|].
  exists sk'. rewrite Hrun. cbn [app]. split; [reflexivity | exact H].
Qed.

Lemma imd_command_force_data (s : t_gmx_IMD) (sk : IMDSocket) (paused : bool)
  (N : Z) :
  clientsocket s = Some sk -> imd_length s = N ->
  0 < N -> 12 * N <= 2147483647 ->
  forallb benign (sk_in sk) = true ->
  16 * N <= Z.of_nat (length (burst_bytes (sk_in sk))) ->
  let s' := snd (imd_command (IMDType_code IMD_MDCOMM) paused s) in
  let payload := burst_bytes (sk_in sk) in
  vmd_nforces s' = N
  /\ vmd_f_ind s' = take (Z.to_nat (4 * N)) payload
  /\ vmd_forces s' = take (Z.to_nat (12 * N)) (drop (Z.to_nat (4 * N)) payload)
  /\ bNewForces s' = true
  /\ bConnected s' = bConnected s /\ nstimd_new s' = nstimd_new s
  /\ exists sk', clientsocket s' = Some sk'
       /\ forallb benign (sk_in sk') = true
       /\ burst_bytes (sk_in sk') = drop (Z.to_nat (16 * N)) payload
       /\ sk_poll sk' = sk_poll sk.
Proof.
  intros Hc Hlen HN Hmax Hb Hbytes.
  change (imd_command (IMDType_code IMD_MDCOMM) paused s)
    with (paused, set_bNewForces true (imd_read_vmd_Forces s)).
  cbn [snd]. unfold imd_read_vmd_Forces.
  cbn [clientsocket imd_prepare_vmd_Forces set_vmd_forces set_vmd_f_ind
         set_vmd_nforces vmd_nforces vmd_f_ind vmd_forces].
  rewrite Hc, Hlen. unfold imd_recv_mdcomm.
  rewrite !wrap_int32_small by (unfold int32_range; lia).
  destruct (imd_read_multiple_benign sk (4 * N) Hb)
    as (sk1 & H1 & Hb1 & Hbytes1 & Hp1 & _); [lia|]. rewrite H1.
  rewrite Z.eqb_refl. cbn [negb].
  destruct (imd_read_multiple_benign sk1 (3 * 4 * N) Hb1)
    as (sk2 & H2 & Hb2 & Hbytes2 & Hp2 & _).
  { rewrite Hbytes1, length_drop. lia. }
  rewrite H2, Z.eqb_refl. cbn [negb].
  cbn [vmd_nforces vmd_f_ind vmd_forces bNewForces bConnected nstimd_new
         clientsocket set_bNewForces set_vmd_forces set_vmd_f_ind
         set_clientsocket set_vmd_nforces].
  unfold store_at_start.
  rewrite !drop_ge, !app_nil_r
    by (rewrite length_srenew, length_take, ?Hbytes1, ?length_drop; lia).
  rewrite Hbytes1. replace (3 * 4 * N) with (12 * N) by lia.
  repeat split.
  exists sk2. split; [reflexivity|]. split; [exact Hb2|].
  split; [|rewrite Hp2; exact Hp1].
  rewrite Hbytes2, Hbytes1, drop_drop. f_equal. lia.
Qed.

(** X9. A force-data message for [N] atoms whose [16 * N] bytes of payload
    arrive, in any number of bursts and with interrupted calls in between, is
    taken over in full: the receive buffers hold the first [4 * N] bytes
    (indices) and the next [12 * N] bytes (forces), [vmd_nforces] is [N], the
    new-forces flag is raised, the client stays connected, and what follows the
    payload on the socket is still there to be read. *)
Theorem force_data_complete (s : t_gmx_IMD) (sk : IMDSocket) (paused : bool)
  (N : Z) :
  clientsocket s = Some sk -> imd_length s = N ->
  0 < N -> 12 * N <= 2147483647 ->
  forallb benign (sk_in sk) = true ->
  16 * N <= Z.of_nat (length (burst_bytes (sk_in sk))) ->
  let s' := snd (imd_command (IMDType_code IMD_MDCOMM) paused s) in
  let payload := burst_bytes (sk_in sk) in
  vmd_nforces s' = N
  /\ vmd_f_ind s' = take (Z.to_nat (4 * N)) payload
  /\ vmd_forces s' = take (Z.to_nat (12 * N)) (drop (Z.to_nat (4 * N)) payload)
  /\ bNewForces s' = true
  /\ bConnected s' = bConnected s /\ nstimd_new s' = nstimd_new s
  /\ exists sk', clientsocket s' = Some sk'
       /\ forallb benign (sk_in sk') = true
       /\ burst_bytes (sk_in sk') = drop (Z.to_nat (16 * N)) payload.
Proof.
  intros Hc Hlen HN Hmax Hb Hbytes.
  destruct (imd_command_force_data s sk paused N Hc Hlen HN Hmax Hb Hbytes)
    as (H1 & H2 & H3 & H4 & H5 & H6 & sk' & H7 & H8 & H9 & _).
  cbn zeta. repeat split; try assumption.
  exists sk'. repeat split; assumption.
Qed.

(** *** Force data that falls short: what is left behind *)

Lemma script_bytes_burst_bytes (evs : list rd_event) :
  script_bytes evs = length (burst_bytes evs).
Proof.
  induction evs as [|[bs|e] evs IH]; cbn [script_bytes burst_bytes];
    [reflexivity | rewrite length_app, IH; reflexivity | exact IH].
Qed.

(** A script without failure and without end of file that holds fewer
    bytes than are asked for gives all it holds. *)
Lemma imd_read_multiple_loop_benign_all evs :
  forall fuel sk got toread leftcount,
  sk_in sk = evs -> forallb benign evs = true ->
  Z.of_nat (length (burst_bytes evs)) < leftcount ->
  (length evs < fuel)%nat ->
  exists e,
    imd_read_multiple_loop fuel sk got toread leftcount
    = (toread - leftcount + Z.of_nat (length (burst_bytes evs)),
       got ++ burst_bytes evs,
       Build_IMDSocket (sk_poll sk) [] (sk_out sk) (sk_sent sk) e).
Proof.
  induction evs as [|p evs IH]; intros fuel sk got toread leftcount Hin Hb Hlt Hf.
  - destruct fuel as [|fuel]; [lia|].
    cbn [burst_bytes length] in *. cbn [imd_read_multiple_loop].
    destruct (leftcount =? 0) eqn:Hz; [apply Z.eqb_eq in Hz; lia|].
    unfold imdsock_read. rewrite Hin. cbn.
    exists (sk_eintr sk). rewrite app_nil_r, Z.add_0_r.
    destruct sk as [p i o st e]. cbn in *. subst i. reflexivity.
  - destruct fuel as [|fuel]; [cbn [length] in Hf; lia|].
    cbn [forallb] in Hb. apply andb_true_iff in Hb as [Hp Hb].
    cbn [length] in Hf. cbn [imd_read_multiple_loop].
    destruct (leftcount =? 0) eqn:Hz;
      [apply Z.eqb_eq in Hz; cbn [burst_bytes] in Hlt; lia|].
    unfold imdsock_read. rewrite Hin.
    destruct p as [[|b bs]|e]; [discriminate| |].
    + cbn zeta. cbn [burst_bytes] in *. rewrite length_app in Hlt.
      rewrite take_ge, drop_ge by lia. cbn match.
      change (Z.of_nat (length (b :: bs)) <? 0) with false.
      change (Z.of_nat (length (b :: bs)) =? 0) with false. cbn match.
      edestruct (IH fuel
                   (Build_IMDSocket (sk_poll sk) evs (sk_out sk) (sk_sent sk)
                      (sk_eintr sk))
                   (got ++ b :: bs) toread
                   (leftcount - Z.of_nat (length (b :: bs))))
        as [e He]; [reflexivity | exact Hb | lia | lia |].
      exists e. rewrite He. cbn [sk_poll sk_out sk_sent].
      rewrite <- !app_assoc, length_app. f_equal. f_equal. lia.
    + cbn in Hp. subst e. cbn zeta. cbn [burst_bytes sk_eintr] in *.
      change (-1 <? 0) with true. cbn match.
      edestruct (IH fuel
                   (Build_IMDSocket (sk_poll sk) evs (sk_out sk) (sk_sent sk) true)
                   got toread leftcount)
        as [e He]; [reflexivity | exact Hb | lia | lia |].
      exists e. rewrite He. reflexivity.
Qed.

(** What [imd_read_multiple] has stored is what it took off the socket; on
    a script without failure and without end of file it has taken all there
    was, up to [toread] bytes. *)
Lemma imd_read_multiple_taken sk toread n out sk' :
  0 <= toread ->
  imd_read_multiple sk toread = (n, out, sk') ->
  n = Z.of_nat (length out) /\ n <= toread
  /\ burst_bytes (sk_in sk) = out ++ burst_bytes (sk_in sk')
  /\ (forallb benign (sk_in sk) = true ->
      forallb benign (sk_in sk') = true
      /\ (n < toread -> burst_bytes (sk_in sk') = [])).
Proof.
  intros Ht Hrun. pose proof Hrun as Hrun'. unfold imd_read_multiple in Hrun.
  apply imd_read_multiple_loop_stream in Hrun as (d & Hout & Hb & Hn & Hd).
  cbn [app] in Hout. subst d. rewrite Z.sub_diag in Hn. cbn in Hn.
  split; [exact Hn|]. split; [lia|]. split; [exact Hb|].
  intros Hben.
  destruct (Z_lt_le_dec (Z.of_nat (length (burst_bytes (sk_in sk)))) toread)
    as [Hshort|Henough].
  - unfold imd_read_multiple in Hrun'.
    destruct (imd_read_multiple_loop_benign_all (sk_in sk)
                (S (length (sk_in sk))) sk [] toread toread eq_refl Hben Hshort)
      as [e He]; [lia|].
    rewrite He in Hrun'. injection Hrun' as _ _ <-. cbn [sk_in forallb burst_bytes].
    split; [reflexivity | intros _; reflexivity].
  - destruct (imd_read_multiple_benign sk toread Hben)
      as (sk2 & Hrun2 & Hb2 & _); [lia|].
    rewrite Hrun2 in Hrun'. injection Hrun' as <- _ <-.
    split; [exact Hb2 | intros; lia].
Qed.

(** The two buffers after [imd_recv_mdcomm]: the bytes taken off the socket
    stand at their start, what follows is as it was. *)
Lemma imd_recv_mdcomm_stores sk N ndx frc ok ndx' frc' sk' :
  0 < N -> 12 * N <= 2147483647 ->
  imd_recv_mdcomm sk N ndx frc = (ok, ndx', frc', sk') ->
  exists b1 b2 : list byte,
    ndx' = store_at_start b1 ndx /\ frc' = store_at_start b2 frc
    /\ burst_bytes (sk_in sk) = b1 ++ b2 ++ burst_bytes (sk_in sk')
    /\ (forallb benign (sk_in sk) = true -> ok = false ->
        b1 ++ b2 = burst_bytes (sk_in sk)).
Proof.
  intros HN Hmax. unfold imd_recv_mdcomm.
  rewrite !wrap_int32_small by (unfold int32_range; lia).
  destruct (imd_read_multiple sk (4 * N)) as [[n1 b1] sk1] eqn:H1.
  apply imd_read_multiple_taken in H1 as (Hn1 & Hle1 & Hs1 & Hben1); [|lia].
  destruct (negb (n1 =? 4 * N)) eqn:E1.
  { intros [= <- <- <- <-]. exists b1, [].
    split; [reflexivity|]. split; [unfold store_at_start; reflexivity|].
    split; [exact Hs1|]. intros Hben _.
    destruct (Hben1 Hben) as [_ Hall]. apply negb_true_iff, Z.eqb_neq in E1.
    rewrite Hs1, Hall, !app_nil_r by lia. reflexivity. }
  apply negb_false_iff, Z.eqb_eq in E1.
  destruct (imd_read_multiple sk1 (3 * 4 * N)) as [[n2 b2] sk2] eqn:H2.
  apply imd_read_multiple_taken in H2 as (Hn2 & Hle2 & Hs2 & Hben2); [|lia].
  assert (Hs : burst_bytes (sk_in sk) = b1 ++ b2 ++ burst_bytes (sk_in sk2))
    by (rewrite Hs1, Hs2; reflexivity).
  destruct (negb (n2 =? 3 * 4 * N)) eqn:E2.
  - intros [= <- <- <- <-]. exists b1, b2.
    split; [reflexivity|]. split; [reflexivity|]. split; [exact Hs|].
    intros Hben _. destruct (Hben1 Hben) as [Hb1 _].
    destruct (Hben2 Hb1) as [_ Hall]. apply negb_true_iff, Z.eqb_neq in E2.
    rewrite Hs, Hall, app_nil_r by lia. reflexivity.
  - intros [= <- <- <- <-]. exists b1, b2.
    split; [reflexivity|]. split; [reflexivity|]. split; [exact Hs|].
    intros _ Hok. discriminate.
Qed.

(** C1, as the code has it.  A force-data message that declares [N] atoms
    ([12 * N] within the range of an [int]) while fewer than [16 * N] bytes
    of payload are there to be read ends in a disconnect, and the applied
    batch ([nforces], [f_ind], [f]) is as it was.  The receive side is
    not: it is written in place.  [vmd_nforces] is [N], both buffers have
    been resized for [N] entries and hold, at their start, the bytes that
    were taken off the socket ([b1], [b2]: on a socket without failure all
    the bytes that had arrived), followed by what the resized buffers held;
    and the new-forces flag is raised all the same, so that this torn batch
    is what the next synchronization takes over. *)
Theorem force_data_short_read (s : t_gmx_IMD) (sk : IMDSocket) (paused : bool)
  (N : Z) :
  clientsocket s = Some sk -> imd_length s = N ->
  0 < N -> 12 * N <= 2147483647 ->
  Z.of_nat (script_bytes (sk_in sk)) < 16 * N ->
  let s' := snd (imd_command (IMDType_code IMD_MDCOMM) paused s) in
  clientsocket s' = None /\ bConnected s' = false
  /\ nstimd_new s' = nstimd_def s
  /\ nforces s' = nforces s /\ f_ind s' = f_ind s /\ f s' = f s
  /\ vmd_nforces s' = N /\ bNewForces s' = true
  /\ length (vmd_f_ind s') = Z.to_nat (4 * N)
  /\ length (vmd_forces s') = Z.to_nat (12 * N)
  /\ exists b1 b2 : list byte,
       vmd_f_ind s'
       = store_at_start b1 (srenew (heap_vmd_f_ind heap) (vmd_f_ind s) (4 * N))
       /\ vmd_forces s'
          = store_at_start b2
              (srenew (heap_vmd_forces heap) (vmd_forces s) (12 * N))
       /\ (exists rest, burst_bytes (sk_in sk) = b1 ++ b2 ++ rest)
       /\ (forallb benign (sk_in sk) = true ->
           b1 ++ b2 = burst_bytes (sk_in sk)).
Proof.
  intros Hc Hlen HN Hmax Hshort.
  change (imd_command (IMDType_code IMD_MDCOMM) paused s)
    with (paused, set_bNewForces true (imd_read_vmd_Forces s)).
  cbn [snd]. unfold imd_read_vmd_Forces.
  cbn [clientsocket imd_prepare_vmd_Forces set_vmd_forces set_vmd_f_ind
         set_vmd_nforces vmd_nforces vmd_f_ind vmd_forces].
  rewrite Hc, Hlen.
  replace (4 * (3 * N)) with (12 * N) by lia.
  destruct (imd_recv_mdcomm sk N _ _) as [[[ok ndx] frc] sk1] eqn:Hm.
  pose proof Hm as Hm'.
  apply imd_recv_mdcomm_spec in Hm as (Hok & L1 & L2);
    [| assumption | assumption | apply length_srenew | apply length_srenew].
  apply imd_recv_mdcomm_stores in Hm' as (b1 & b2 & E1 & E2 & Hs & Hall);
    [| assumption | assumption].
  destruct ok; [specialize (Hok eq_refl); lia|].
  cbn. repeat split; try assumption.
  exists b1, b2. split; [exact E1|]. split; [exact E2|].
  split; [exists (burst_bytes (sk_in sk1)); exact Hs|].
  intros Hben. apply Hall; [exact Hben | reflexivity].
Qed.

(** *** Taking the received forces over *)

Lemma fold_left_preserves {S A : Type} (R : S -> S -> Prop) (step : S -> A -> S) :
  (forall s, R s s) -> (forall a b c, R a b -> R b c -> R a c) ->
  (forall s i, R s (step s i)) ->
  forall l s, R s (fold_left step l s).
Proof.
  intros Hrefl Htrans Hstep l.
  induction l as [|i l IH]; intros s; cbn [fold_left]; [apply Hrefl|].
  eapply Htrans; [apply Hstep | apply IH].
Qed.

(** Writing [g i] to every entry [i < n] of an array. *)
Lemma fold_left_insert_seq {A : Type} (g : nat -> A) (n : nat) :
  forall l0 : list A,
  fold_left (fun acc i => <[i := g i]> acc) (seq 0 n) l0
  = map g (seq 0 (Nat.min n (length l0))) ++ drop n l0.
Proof.
  induction n as [|n IH]; intros l0; [reflexivity|].
  rewrite seq_S, fold_left_app, IH. cbn [fold_left Nat.add].
  destruct (le_lt_dec (length l0) n) as [Hge|Hlt].
  - replace (Nat.min n (length l0)) with (length l0) by lia.
    replace (Nat.min (S n) (length l0)) with (length l0) by lia.
    rewrite !drop_ge, app_nil_r by lia.
    apply list_insert_ge. rewrite length_map, length_seq. exact Hge.
  - replace (Nat.min n (length l0)) with n by lia.
    replace (Nat.min (S n) (length l0)) with (S n) by lia.
    destruct (lookup_lt_is_Some_2 l0 n Hlt) as [y Hy].
    rewrite (drop_S l0 y n Hy).
    rewrite insert_app_r_alt by (rewrite length_map, length_seq; lia).
    rewrite length_map, length_seq, Nat.sub_diag. cbn [insert list_insert].
    rewrite seq_S, map_app, <- app_assoc. reflexivity.
Qed.

Lemma force_frame_refl s : force_frame s s.
Proof. unfold force_frame. repeat split. Qed.

Lemma force_frame_trans a b c : force_frame a b -> force_frame b c -> force_frame a c.
Proof.
  unfold force_frame. intros H1 H2.
  repeat match goal with H : _ /\ _ |- _ => destruct H end.
  repeat split; etransitivity; eassumption.
Qed.

Lemma imd_copyto_MD_Forces_frame s : force_frame s (imd_copyto_MD_Forces s).
Proof.
  unfold imd_copyto_MD_Forces.
  apply fold_left_preserves;
    [apply force_frame_refl | apply force_frame_trans |].
  intros s0 i. unfold force_frame. repeat split.
Qed.

Lemma keep_old_values_frame s : force_frame s (keep_old_values s).
Proof.
  unfold keep_old_values.
  eapply force_frame_trans with (b := set_old_nforces (nforces s) s);
    [unfold force_frame; repeat split|].
  apply fold_left_preserves;
    [apply force_frame_refl | apply force_frame_trans |].
  intros s0 i. unfold force_frame. repeat split.
Qed.

Lemma output_imd_forces_frame fp s t : force_frame s (output_imd_forces fp s t).
Proof.
  unfold output_imd_forces. destruct (bForcesChanged s);
    [|apply force_frame_refl].
  eapply force_frame_trans; [|apply keep_old_values_frame].
  unfold force_frame. repeat split.
Qed.

(** The loop of [imd_copyto_MD_Forces], entry by entry. *)
Lemma imd_copyto_MD_Forces_fold l :
  forall s,
  let r := fold_left
             (fun s i =>
                let s := set_f_ind (<[i := vmd_f_ind_at s i]> (f_ind s)) s in
                set_f (<[i := Build_vec3 (force_to_md (vmd_forces_at s (3 * i)))
                                         (force_to_md (vmd_forces_at s (3 * i + 1)))
                                         (force_to_md (vmd_forces_at s (3 * i + 2)))]>
                         (f s)) s) l s in
  f_ind r = fold_left (fun acc i => <[i := vmd_f_ind_at s i]> acc) l (f_ind s)
  /\ f r = fold_left (fun acc i => <[i := converted_force s i]> acc) l (f s).
Proof.
  induction l as [|i l IH]; intros s; cbn [fold_left]; [split; reflexivity|].
  match goal with
  | |- context [fold_left _ l ?x] =>
      match type of x with
      | t_gmx_IMD => destruct (IH x) as [E1 E2]
      end
  end.
  split; [exact E1 | exact E2].
Qed.

Lemma imd_copyto_MD_Forces_arrays s :
  f_ind (imd_copyto_MD_Forces s)
  = fold_left (fun acc i => <[i := vmd_f_ind_at s i]> acc) (upto (nforces s))
      (f_ind s)
  /\ f (imd_copyto_MD_Forces s)
     = fold_left (fun acc i => <[i := converted_force s i]> acc)
         (upto (nforces s)) (f s).
Proof. apply (imd_copyto_MD_Forces_fold (upto (nforces s)) s). Qed.

Lemma imd_copyto_MD_Forces_prepared (s : t_gmx_IMD) :
  let s' := imd_copyto_MD_Forces (imd_prepare_MD_Forces s) in
  f_ind s' = map (vmd_f_ind_at s) (upto (nforces s))
  /\ f s' = map (converted_force s) (upto (nforces s))
  /\ nforces s' = nforces s
  /\ length (f_ind s') = Z.to_nat (nforces s)
  /\ length (f s') = Z.to_nat (nforces s).
Proof.
  cbn zeta.
  destruct (imd_copyto_MD_Forces_arrays (imd_prepare_MD_Forces s)) as [E1 E2].
  destruct (imd_copyto_MD_Forces_frame (imd_prepare_MD_Forces s))
    as (_ & _ & _ & _ & _ & _ & _ & _ & _ & _ & En & _).
  rewrite E1, E2, En.
  change (nforces (imd_prepare_MD_Forces s)) with (nforces s).
  change (f_ind (imd_prepare_MD_Forces s))
    with (srenew (heap_f_ind heap) (f_ind s) (nforces s)).
  change (f (imd_prepare_MD_Forces s))
    with (srenew (heap_f heap) (f s) (nforces s)).
  unfold upto. rewrite !fold_left_insert_seq, !length_srenew, Nat.min_id.
  rewrite !drop_ge, !app_nil_r by (rewrite length_srenew; lia).
  rewrite !length_map, length_seq. repeat split.
Qed.

(** X10. After [imd_prepare_MD_Forces] and [imd_copyto_MD_Forces] the MD
    arrays hold exactly [nforces] entries: entry [i] of [f_ind] is the index
    received as entry [i], entry [i] of [f] the three floats received for it,
    converted; entries of an earlier, longer batch are gone. *)
Theorem imd_copyto_MD_Forces_content (s : t_gmx_IMD) :
  let s' := imd_copyto_MD_Forces (imd_prepare_MD_Forces s) in
  f_ind s' = map (vmd_f_ind_at s) (upto (nforces s))
  /\ f s' = map (converted_force s) (upto (nforces s))
  /\ nforces s' = nforces s
  /\ length (f_ind s') = Z.to_nat (nforces s)
  /\ length (f s') = Z.to_nat (nforces s).
Proof. exact (imd_copyto_MD_Forces_prepared s). Qed.

(** *** One synchronization step of the group *)

(** The block that takes new forces over, on the coordinator. *)
Lemma imd_sync_new_forces_master n wire s t N :
  let cr := Build_t_commrec 0 n in
  let s' := imd_sync_new_forces cr wire s t N in
  nforces s' = N
  /\ f_ind s' = map (vmd_f_ind_at s) (upto N)
  /\ f s' = map (converted_force s) (upto N)
  /\ bNewForces s' = false /\ bConnected s' = bConnected s
  /\ nstimd s' = nstimd s /\ nstimd_new s' = nstimd_new s
  /\ vmd_nforces s' = N /\ vmd_f_ind s' = vmd_f_ind s
  /\ vmd_forces s' = vmd_forces s.
Proof.
  cbn zeta. unfold imd_sync_new_forces, nblock_bc.
  change (MASTER (Build_t_commrec 0 n)) with true. cbn iota.
  set (s2 := set_nforces _ (set_vmd_nforces N s)).
  destruct (imd_copyto_MD_Forces_prepared s2) as (E1 & E2 & E3 & _).
  cbn zeta in E1, E2, E3.
  pose proof (imd_copyto_MD_Forces_frame (imd_prepare_MD_Forces s2)) as Fc.
  set (s4 := imd_copyto_MD_Forces (imd_prepare_MD_Forces s2)) in *.
  set (s5 := match outf s4 with Some fp => output_imd_forces fp s4 t | None => s4 end).
  assert (F5 : force_frame s4 s5 /\ f_ind s5 = f_ind s4 /\ f s5 = f s4).
  { subst s5. destruct (outf s4) as [fp|];
      [|split; [apply force_frame_refl | split; reflexivity]].
    destruct (output_imd_forces_forces fp s4 t) as (_ & H2 & H3).
    split; [apply output_imd_forces_frame | split; assumption]. }
  destruct F5 as (F5 & G1 & G2).
  pose proof (force_frame_trans _ _ _ Fc F5) as F. unfold force_frame in F.
  destruct F as (Hc & _ & Hn & Hnn & _ & _ & _ & Hv & Hvi & Hvf & Hnf & _).
  destruct (PAR (Build_t_commrec 0 n));
    cbn [nforces f_ind f bNewForces bConnected nstimd nstimd_new vmd_nforces
           vmd_f_ind vmd_forces set_bNewForces set_f set_f_ind];
    rewrite G1, G2, E1, E2, Hc, Hn, Hnn, Hv, Hvi, Hvf, Hnf;
    repeat split.
Qed.

(** The same block on a worker that is handed the coordinator's arrays. *)
Lemma imd_sync_new_forces_worker i n wire s t N :
  let cr := Build_t_commrec (S i) (S (S n)) in
  let s' := imd_sync_new_forces cr wire s t N in
  length (bc_f_ind wire) = Z.to_nat N -> length (bc_f wire) = Z.to_nat N ->
  nforces s' = N /\ f_ind s' = bc_f_ind wire /\ f s' = bc_f wire
  /\ bNewForces s' = false /\ bConnected s' = bConnected s
  /\ nstimd s' = nstimd s /\ nstimd_new s' = nstimd_new s.
Proof.
  cbn zeta. intros L1 L2. unfold imd_sync_new_forces, nblock_bc.
  change (MASTER (Build_t_commrec (S i) (S (S n)))) with false.
  change (PAR (Build_t_commrec (S i) (S (S n)))) with true. cbn iota.
  cbn [nforces f_ind f bNewForces bConnected nstimd nstimd_new vmd_nforces
         set_bNewForces set_f set_f_ind set_nforces set_vmd_nforces
         imd_prepare_MD_Forces].
  rewrite !take_ge, !drop_ge, !app_nil_r by (rewrite ?length_srenew; lia).
  repeat split.
Qed.

Lemma imd_sync_group_applied (m : t_gmx_IMD) (ws : list t_gmx_IMD)
  (t : double) :
  bConnected m = true -> bForceActivated m = true ->
  bNewForces m = true -> 0 <= vmd_nforces m ->
  Forall (fun w => bForceActivated w = true) ws ->
  let applied (s : t_gmx_IMD) :=
    nforces s = vmd_nforces m
    /\ f_ind s = map (vmd_f_ind_at m) (upto (vmd_nforces m))
    /\ f s = map (converted_force m) (upto (vmd_nforces m))
    /\ nstimd s = nstimd_new m /\ bNewForces s = false
    /\ bConnected s = true in
  applied (fst (imd_sync_group m ws t))
  /\ Forall applied (snd (imd_sync_group m ws t))
  /\ length (snd (imd_sync_group m ws t)) = length ws.
Proof.
  intros Hc Hf Hn Hv Hws. cbn zeta. unfold imd_sync_group.
  rewrite (imd_sync_nodes_master (Build_t_commrec 0 (S (length ws))) _ m t
             eq_refl Hc Hf).
  assert (Hs : signed_new_nforces m = vmd_nforces m)
    by (unfold signed_new_nforces; rewrite Hn; reflexivity).
  rewrite Hs. destruct (0 <=? vmd_nforces m) eqn:E; [|apply Z.leb_gt in E; lia].
  destruct (imd_sync_new_forces_master (S (length ws)) (bcast_of m 0)
              (set_nstimd (nstimd_new m) m) t (vmd_nforces m))
    as (M1 & M2 & M3 & M4 & M5 & M6 & M7 & _).
  cbn zeta in M1, M2, M3, M4, M5, M6, M7.
  set (m' := imd_sync_new_forces _ _ _ _ _) in *.
  cbn [fst snd]. change (bConnected (set_nstimd (nstimd_new m) m))
    with (bConnected m) in M5. rewrite Hc in M5.
  change (nstimd (set_nstimd (nstimd_new m) m)) with (nstimd_new m) in M6.
  change (nstimd_new (set_nstimd (nstimd_new m) m)) with (nstimd_new m) in M7.
  change (vmd_f_ind_at (set_nstimd (nstimd_new m) m)) with (vmd_f_ind_at m) in M2.
  change (converted_force (set_nstimd (nstimd_new m) m))
    with (converted_force m) in M3.
  split; [repeat split; assumption|].
  split; [|apply length_imap].
  apply Forall_lookup. intros i w' Hi.
  rewrite list_lookup_imap in Hi.
  destruct (ws !! i) as [w|] eqn:Hw; [|discriminate]. cbn in Hi.
  injection Hi as <-.
  assert (Hfw : bForceActivated w = true)
    by (exact (proj1 (Forall_lookup _ ws) Hws i w Hw)).
  destruct ws as [|w0 ws0]; [discriminate|]. cbn [length].
  unfold imd_sync_nodes.
  change (PAR (Build_t_commrec (S i) (S (S (length ws0))))) with true.
  unfold block_bc.
  change (MASTER (Build_t_commrec (S i) (S (S (length ws0))))) with false.
  cbn iota. cbn [bc_bConnected bc_nstimd_new bc_new_nforces bcast_of].
  cbn [bConnected set_bConnected]. rewrite M5. cbn [negb].
  cbn [bForceActivated set_nstimd set_nstimd_new set_bConnected nstimd_new].
  rewrite Hfw. cbn [negb]. rewrite E. cbn [fst].
  match goal with
  | |- context [imd_sync_new_forces ?cr ?wire ?s ?t ?N] =>
      destruct (imd_sync_new_forces_worker i (length ws0) wire s t N)
        as (W1 & W2 & W3 & W4 & W5 & W6 & _)
  end.
  { cbn [bc_f_ind bcast_of]. rewrite M2. unfold upto.
    rewrite length_map, length_seq. reflexivity. }
  { cbn [bc_f bcast_of]. rewrite M3. unfold upto.
    rewrite length_map, length_seq. reflexivity. }
  cbn [bc_f_ind bc_f bcast_of] in W2, W3.
  rewrite W1, W2, W3, W4, W5, W6, M2, M3, M7. repeat split.
Qed.

(** X11. When the coordinator has received new forces, one synchronization
    step leaves the whole group with the same applied forces: on every
    process [nforces] is the count received, [f_ind] and [f] are the received
    indices and converted forces, the interval is the coordinator's
    [nstimd_new], and the new-forces flag is down.  The batch is one the
    arrays of the coordinator can take: the receive buffers hold its [N]
    indices and [N] forces, the copies for the log have room for [N]
    entries, and every index of the batch is an index into [ind]. *)
Theorem imd_sync_group_new_forces (m : t_gmx_IMD) (ws : list t_gmx_IMD)
  (t : double) :
  bConnected m = true -> bForceActivated m = true ->
  bNewForces m = true -> 0 <= vmd_nforces m ->
  length (vmd_f_ind m) = Z.to_nat (4 * vmd_nforces m) ->
  length (vmd_forces m) = Z.to_nat (12 * vmd_nforces m) ->
  (Z.to_nat (vmd_nforces m) <= length (old_f_ind m))%nat ->
  (Z.to_nat (vmd_nforces m) <= length (old_forces m))%nat ->
  (forall i, (i < Z.to_nat (vmd_nforces m))%nat ->
     0 <= vmd_f_ind_at m i < Z.of_nat (length (ind m))) ->
  Forall (fun w => bForceActivated w = true) ws ->
  let applied (s : t_gmx_IMD) :=
    nforces s = vmd_nforces m
    /\ f_ind s = map (vmd_f_ind_at m) (upto (vmd_nforces m))
    /\ f s = map (converted_force m) (upto (vmd_nforces m))
    /\ nstimd s = nstimd_new m /\ bNewForces s = false
    /\ bConnected s = true in
  applied (fst (imd_sync_group m ws t))
  /\ Forall applied (snd (imd_sync_group m ws t))
  /\ length (snd (imd_sync_group m ws t)) = length ws.
Proof.
  intros Hc Hf Hn Hv _ _ _ _ _ Hws.
  exact (imd_sync_group_applied m ws t Hc Hf Hn Hv Hws).
Qed.

(** X12. A synchronization step of a connected session that has no new
    forces (and a last batch of at least one force) sends none: on the
    coordinator only [nstimd] changes, a worker becomes connected with the
    coordinator's interval, and the force arrays of every process stay as
    they are. *)
Theorem imd_sync_group_no_new_forces (m : t_gmx_IMD) (ws : list t_gmx_IMD)
  (t : double) :
  bConnected m = true -> bForceActivated m = true ->
  bNewForces m = false -> 0 < vmd_nforces m <= 2147483647 ->
  imd_sync_group m ws t
  = (set_nstimd (nstimd_new m) m, synced_worker (nstimd_new m) <$> ws).
Proof.
  intros Hc Hf Hn Hv. unfold imd_sync_group.
  rewrite (imd_sync_nodes_master (Build_t_commrec 0 (S (length ws))) _ m t
             eq_refl Hc Hf).
  assert (Hs : signed_new_nforces m = - vmd_nforces m).
  { unfold signed_new_nforces. rewrite Hn. unfold wrap_int32. div_mod_lia. }
  rewrite Hs. destruct (0 <=? - vmd_nforces m) eqn:E; [apply Z.leb_le in E; lia|].
  f_equal. destruct ws as [|w0 ws0]; [reflexivity|]. cbn [length].
  rewrite <- imap_const. apply imap_ext. intros i w _.
  unfold imd_sync_nodes.
  change (PAR (Build_t_commrec (S i) (S (S (length ws0))))) with true.
  unfold block_bc.
  change (MASTER (Build_t_commrec (S i) (S (S (length ws0))))) with false.
  cbn iota. cbn [bc_bConnected bc_nstimd_new bc_new_nforces bcast_of].
  cbn [bConnected set_bConnected set_nstimd]. rewrite Hc. cbn [negb].
  cbn [bForceActivated set_nstimd set_nstimd_new set_bConnected nstimd_new].
  destruct (bForceActivated w); cbn [negb fst]; [|reflexivity].
  rewrite E. reflexivity.
Qed.

(** *** The force log *)

Lemma keep_old_values_fold l :
  forall s,
  let r := fold_left
             (fun s i =>
                let s := set_old_f_ind (<[i := nth i (f_ind s) 0]> (old_f_ind s)) s in
                set_old_forces (<[i := nth i (f s) rvec_zero]> (old_forces s)) s)
             l s in
  old_f_ind r = fold_left (fun acc i => <[i := nth i (f_ind s) 0]> acc) l (old_f_ind s)
  /\ old_forces r
     = fold_left (fun acc i => <[i := nth i (f s) rvec_zero]> acc) l (old_forces s)
  /\ old_nforces r = old_nforces s.
Proof.
  induction l as [|i l IH]; intros s; cbn [fold_left]; [repeat split|].
  match goal with
  | |- context [fold_left _ l ?x] =>
      match type of x with
      | t_gmx_IMD => destruct (IH x) as (E1 & E2 & E3)
      end
  end.
  repeat split; [exact E1 | exact E2 | exact E3].
Qed.

Lemma nth_map_seq {A : Type} (g : nat -> A) (n i : nat) (tl : list A) (d : A) :
  (i < n)%nat -> nth i (map g (seq 0 n) ++ tl) d = g i.
Proof.
  intros Hi. rewrite app_nth1 by (rewrite length_map, length_seq; exact Hi).
  rewrite (nth_indep _ d (g 0%nat)) by (rewrite length_map, length_seq; exact Hi).
  rewrite (map_nth g), seq_nth by exact Hi. reflexivity.
Qed.

(** X13. Once [output_imd_forces] has run, the forces count as unchanged:
    a second call, at any time and with the same applied forces, writes
    nothing.  The copies must have room for the [nforces] entries and no
    applied force may differ from itself (as a NaN does). *)
Theorem output_imd_forces_settles (fp : FILE) (s : t_gmx_IMD) (t : double) :
  (Z.to_nat (nforces s) <= length (old_f_ind s))%nat ->
  (Z.to_nat (nforces s) <= length (old_forces s))%nat ->
  (forall i, (i < Z.to_nat (nforces s))%nat ->
     rvecs_differ (nth i (f s) rvec_zero) (nth i (f s) rvec_zero) = false) ->
  bForcesChanged (output_imd_forces fp s t) = false
  /\ forall fp' t',
       output_imd_forces fp' (output_imd_forces fp s t) t'
       = output_imd_forces fp s t.
Proof.
  intros L1 L2 Hnan.
  assert (H : bForcesChanged (output_imd_forces fp s t) = false).
  { unfold output_imd_forces at 1. destruct (bForcesChanged s) eqn:Hch;
      [|exact Hch].
    set (s1 := set_outf _ s).
    destruct (keep_old_values_forces s1) as (K1 & K2 & K3).
    destruct (keep_old_values_fold (upto (nforces (set_old_nforces (nforces s1) s1)))
                (set_old_nforces (nforces s1) s1)) as (O1 & O2 & O3).
    cbn zeta in O1, O2, O3. fold (keep_old_values s1) in O1, O2, O3.
    unfold bForcesChanged. rewrite K1, K2, K3, O1, O2, O3.
    change (nforces s1) with (nforces s). change (f_ind s1) with (f_ind s).
    change (f s1) with (f s).
    cbn [old_nforces old_f_ind old_forces nforces f_ind f set_old_nforces].
    change (nforces s1) with (nforces s). change (f_ind s1) with (f_ind s).
    change (f s1) with (f s). change (old_f_ind s1) with (old_f_ind s).
    change (old_forces s1) with (old_forces s).
    rewrite Z.eqb_refl. cbn [negb]. unfold upto.
    rewrite !fold_left_insert_seq.
    replace (Nat.min (Z.to_nat (nforces s)) (length (old_f_ind s)))
      with (Z.to_nat (nforces s)) by lia.
    replace (Nat.min (Z.to_nat (nforces s)) (length (old_forces s)))
      with (Z.to_nat (nforces s)) by lia.
    assert (X1 : existsb
                   (fun i => negb (nth i (f_ind s) 0
                      =? nth i (map (fun i => nth i (f_ind s) 0)
                                  (seq 0 (Z.to_nat (nforces s)))
                                ++ drop (Z.to_nat (nforces s)) (old_f_ind s)) 0))
                   (seq 0 (Z.to_nat (nforces s))) = false).
    { apply not_true_iff_false. intros Hex.
      apply existsb_exists in Hex as (i & Hi & Hne).
      apply in_seq in Hi.
      rewrite nth_map_seq, Z.eqb_refl in Hne by lia. discriminate. }
    rewrite X1.
    apply not_true_iff_false. intros Hex.
    apply existsb_exists in Hex as (i & Hi & Hne).
    apply in_seq in Hi. cbn zeta in Hne.
    rewrite nth_map_seq in Hne by lia.
    specialize (Hnan i ltac:(lia)). unfold rvecs_differ in Hnan.
    rewrite Hnan in Hne. discriminate. }
  split; [exact H|]. intros fp' t'.
  unfold output_imd_forces at 1. rewrite H. reflexivity.
Qed.

(** *** Removing molecule shifts: the bound of the shift *)

Lemma fold_right_min_lower (a : Z) (l : list Z) (x : Z) :
  In x (a :: l) -> fold_right Z.min a l <= x.
Proof.
  induction l as [|y l IH]; cbn [fold_right In]; [intros [<-|[]]; lia|].
  intros [<-|[<-|H]]; [| lia |].
  - specialize (IH (or_introl eq_refl)). lia.
  - specialize (IH (or_intror H)). lia.
Qed.

Lemma fold_right_max_upper (a : Z) (l : list Z) (x : Z) :
  In x (a :: l) -> x <= fold_right Z.max a l.
Proof.
  induction l as [|y l IH]; cbn [fold_right In]; [intros [<-|[]]; lia|].
  intros [<-|[<-|H]]; [| lia |].
  - specialize (IH (or_introl eq_refl)). lia.
  - specialize (IH (or_intror H)). lia.
Qed.

Lemma fold_right_min_in (a : Z) (l : list Z) : In (fold_right Z.min a l) (a :: l).
Proof.
  induction l as [|y l IH]; cbn [fold_right]; [left; reflexivity|].
  destruct (Z.min_spec y (fold_right Z.min a l)) as [[_ ->]|[_ ->]].
  - right. left. reflexivity.
  - destruct IH as [H|H]; [left; exact H | right; right; exact H].
Qed.

Lemma fold_right_max_in (a : Z) (l : list Z) : In (fold_right Z.max a l) (a :: l).
Proof.
  induction l as [|y l IH]; cbn [fold_right]; [left; reflexivity|].
  destruct (Z.max_spec y (fold_right Z.max a l)) as [[_ ->]|[_ ->]].
  - destruct IH as [H|H]; [left; exact H | right; right; exact H].
  - right. left. reflexivity.
Qed.

(** The shift along one axis never goes beyond the shift of any atom, and is
    the shift of one of the atoms when it is not 0. *)
Lemma axis_extreme_shift_bound (l : list Z) :
  let c := axis_extreme_shift l in
  (forall x, In x l -> (0 < c -> c <= x) /\ (c < 0 -> x <= c))
  /\ (c <> 0 -> In c l).
Proof.
  cbn zeta. destruct l as [|a l]; [split; [intros x [] | intros H; contradiction H; reflexivity]|].
  unfold axis_extreme_shift.
  pose proof (fold_right_min_in a l) as Hmin.
  pose proof (fold_right_max_in a l) as Hmax.
  destruct (0 <? fold_right Z.min a l) eqn:E1.
  { split; [|intros _; exact Hmin].
    intros x Hx. pose proof (fold_right_min_lower a l x Hx).
    apply Z.ltb_lt in E1. lia. }
  destruct (fold_right Z.max a l <? 0) eqn:E2.
  { split; [|intros _; exact Hmax].
    intros x Hx. pose proof (fold_right_max_upper a l x Hx).
    apply Z.ltb_lt in E2. lia. }
  split; [intros x _; lia | intros H; contradiction H; reflexivity].
Qed.

(** X15. The shift [imd_remove_molshifts] settles on for a molecule never
    moves it further than any of its atoms has gone: along each axis a
    positive shift is at most the shift of every atom of the molecule, a
    negative one at least that, so a molecule with one atom in the central
    box along an axis is not moved along that axis. *)
Theorem molecule_shift_bound (xa_shifts : list ivec) (first next ii : nat) :
  (first <= ii < next)%nat ->
  let c := molecule_shift xa_shifts first next in
  let sh := nth ii xa_shifts ivec_zero in
  ((0 < XX c -> XX c <= XX sh) /\ (XX c < 0 -> XX sh <= XX c))
  /\ ((0 < YY c -> YY c <= YY sh) /\ (YY c < 0 -> YY sh <= YY c))
  /\ ((0 < ZZ c -> ZZ c <= ZZ sh) /\ (ZZ c < 0 -> ZZ sh <= ZZ c))
  /\ (XX sh = 0 -> XX c = 0) /\ (YY sh = 0 -> YY c = 0)
  /\ (ZZ sh = 0 -> ZZ c = 0).
Proof.
  intros Hii. cbn zeta. rewrite molecule_shift_spec by lia.
  unfold spec_molecule_shift. cbn [XX YY ZZ].
  assert (Hin : In (nth ii xa_shifts ivec_zero) (atom_shifts xa_shifts first next)).
  { unfold atom_shifts.
    apply (in_map (fun k => nth k xa_shifts ivec_zero) _ ii).
    apply in_seq. lia. }
  pose proof (proj1 (axis_extreme_shift_bound (map XX (atom_shifts xa_shifts first next)))
                _ (in_map XX _ _ Hin)) as HX.
  pose proof (proj1 (axis_extreme_shift_bound (map YY (atom_shifts xa_shifts first next)))
                _ (in_map YY _ _ Hin)) as HY.
  pose proof (proj1 (axis_extreme_shift_bound (map ZZ (atom_shifts xa_shifts first next)))
                _ (in_map ZZ _ _ Hin)) as HZ.
  cbn zeta in HX, HY, HZ.
  repeat split; try (apply HX || apply HY || apply HZ); intros H0.
  - destruct HX as [H1 H2]. clear -H0 H1 H2. lia.
  - destruct HY as [H1 H2]. clear -H0 H1 H2. lia.
  - destruct HZ as [H1 H2]. clear -H0 H1 H2. lia.
Qed.

(** *** Writing: what goes out *)

(** The loop sends the bytes of the buffer in order, none twice, and counts
    them. *)
Lemma imd_write_multiple_loop_sent fuel :
  forall sk dat towrite leftcount n sk',
  0 <= leftcount <= Z.of_nat (length dat) ->
  imd_write_multiple_loop fuel sk dat towrite leftcount = (n, sk') ->
  exists k : nat,
    sk_sent sk' = sk_sent sk ++ take k dat
    /\ n = towrite - leftcount + Z.of_nat k /\ Z.of_nat k <= leftcount
    /\ sk_poll sk' = sk_poll sk /\ sk_in sk' = sk_in sk.
Proof.
  induction fuel as [|fuel IH]; intros sk dat towrite leftcount n sk' Hl;
    cbn [imd_write_multiple_loop].
  - replace (if leftcount =? 0 then (towrite - leftcount, sk)
             else (towrite - leftcount, sk)) with (towrite - leftcount, sk)
      by (destruct (leftcount =? 0); reflexivity).
    intros [= <- <-]. exists 0%nat. rewrite take_0, app_nil_r.
    repeat split; lia.
  - destruct (leftcount =? 0) eqn:E0.
    { intros [= <- <-]. exists 0%nat. rewrite take_0, app_nil_r.
      repeat split; lia. }
    apply Z.eqb_neq in E0. unfold imdsock_write.
    destruct (sk_out sk) as [|[p|e] rest].
    + replace (Z.max 0 leftcount) with leftcount by lia.
      destruct (leftcount <=? 0) eqn:E1; [apply Z.leb_le in E1; lia|].
      rewrite Z.sub_diag.
      replace (imd_write_multiple_loop fuel _ _ towrite 0)
        with (towrite - 0,
              Build_IMDSocket (sk_poll sk) (sk_in sk) []
                (sk_sent sk ++ take (Z.to_nat leftcount) dat) (sk_eintr sk))
        by (destruct fuel; reflexivity).
      intros [= <- <-]. exists (Z.to_nat leftcount). cbn [sk_sent sk_poll sk_in].
      repeat split; lia.
    + set (n0 := Z.max 0 (Z.min (Z.pos p) leftcount)).
      assert (Hn0 : 0 < n0 <= leftcount) by (subst n0; lia).
      destruct (n0 <=? 0) eqn:E1; [apply Z.leb_le in E1; lia|].
      intros Hrun. apply IH in Hrun as (k & Hs & Hn & Hk & Hp & Hi);
        [|rewrite length_drop; lia].
      cbn [sk_sent sk_poll sk_in] in Hs, Hp, Hi.
      exists (Z.to_nat n0 + k)%nat.
      rewrite Hs, <- app_assoc, take_take_drop.
      repeat split; try assumption; lia.
    + change (-1 <=? 0) with true. cbn iota. cbn [sk_eintr].
      destruct e.
      * intros Hrun. apply IH in Hrun as (k & Hs & Hn & Hk & Hp & Hi); [|exact Hl].
        exists k. repeat split; assumption.
      * intros [= <- <-]. exists 0%nat. cbn [sk_sent sk_poll sk_in].
        rewrite take_0, app_nil_r. repeat split; lia.
Qed.

(** X16. [imd_write_multiple] returns the number of bytes that went out,
    and these are the first bytes of the buffer, in order: whatever the
    socket does, no byte is sent twice or skipped, and nothing is read. *)
Theorem imd_write_multiple_prefix (sk : IMDSocket) (dat : list byte)
  (towrite n : Z) (sk' : IMDSocket) :
  0 <= towrite <= Z.of_nat (length dat) ->
  imd_write_multiple sk dat towrite = (n, sk') ->
  0 <= n <= towrite
  /\ sk_sent sk' = sk_sent sk ++ take (Z.to_nat n) dat
  /\ sk_poll sk' = sk_poll sk /\ sk_in sk' = sk_in sk.
Proof.
  intros Hl Hrun. unfold imd_write_multiple in Hrun.
  apply imd_write_multiple_loop_sent in Hrun as (k & Hs & Hn & Hk & Hp & Hi);
    [|exact Hl].
  assert (En : n = Z.of_nat k) by lia. rewrite En, Nat2Z.id.
  repeat split; try assumption; lia.
Qed.

(** A write script without hard failure takes everything. *)
Lemma imd_write_multiple_loop_benign script :
  forall fuel sk dat towrite leftcount,
  sk_out sk = script -> forallb wr_benign script = true ->
  0 <= leftcount <= Z.of_nat (length dat) ->
  (length script < fuel)%nat ->
  exists sk',
    imd_write_multiple_loop fuel sk dat towrite leftcount = (towrite, sk')
    /\ sk_sent sk' = sk_sent sk ++ take (Z.to_nat leftcount) dat
    /\ forallb wr_benign (sk_out sk') = true
    /\ sk_poll sk' = sk_poll sk /\ sk_in sk' = sk_in sk.
Proof.
  induction script as [|ev script IH]; intros fuel sk dat towrite leftcount
    Hout Hb Hl Hf.
  - destruct fuel as [|fuel]; [cbn [length] in Hf; lia|].
    cbn [imd_write_multiple_loop].
    destruct (leftcount =? 0) eqn:E0.
    { apply Z.eqb_eq in E0. subst leftcount. exists sk.
      rewrite Z.sub_0_r, Hout. cbn. rewrite app_nil_r. repeat split. }
    apply Z.eqb_neq in E0. unfold imdsock_write. rewrite Hout.
    replace (Z.max 0 leftcount) with leftcount by lia.
    destruct (leftcount <=? 0) eqn:E1; [apply Z.leb_le in E1; lia|].
    rewrite Z.sub_diag. eexists. split.
    { destruct fuel; cbn [imd_write_multiple_loop Z.eqb]; rewrite Z.sub_0_r;
        reflexivity. }
    cbn [sk_sent sk_out sk_poll sk_in forallb]. repeat split.
  - destruct (Z.eqb_spec leftcount 0) as [->|E0].
    { exists sk. destruct fuel; cbn [imd_write_multiple_loop Z.eqb];
        rewrite Z.sub_0_r, Hout, Hb; cbn [Z.to_nat take];
        rewrite app_nil_r; repeat split. }
    destruct fuel as [|fuel]; [cbn [length] in Hf; lia|].
    cbn [length] in Hf. cbn [imd_write_multiple_loop].
    destruct (leftcount =? 0) eqn:E0'; [apply Z.eqb_eq in E0'; contradiction|].
    unfold imdsock_write. rewrite Hout.
    cbn [forallb] in Hb. apply andb_true_iff in Hb as [Hev Hb].
    destruct ev as [p|e].
    + set (n0 := Z.max 0 (Z.min (Z.pos p) leftcount)).
      assert (Hn0 : 0 < n0 <= leftcount) by (subst n0; lia).
      destruct (n0 <=? 0) eqn:E1; [apply Z.leb_le in E1; lia|].
      edestruct (IH fuel
                   (Build_IMDSocket (sk_poll sk) (sk_in sk) script
                      (sk_sent sk ++ take (Z.to_nat n0) dat) (sk_eintr sk))
                   (drop (Z.to_nat n0) dat) towrite (leftcount - n0))
        as (sk' & Hrun & Hs & Hb' & Hp & Hi).
      { reflexivity. } { exact Hb. } { rewrite length_drop. lia. } { lia. }
      exists sk'. rewrite Hrun. cbn [sk_sent sk_poll sk_in] in Hs, Hp, Hi.
      rewrite Hs, <- app_assoc, take_take_drop.
      replace (Z.to_nat n0 + Z.to_nat (leftcount - n0))%nat
        with (Z.to_nat leftcount) by lia.
      repeat split; assumption.
    + cbn [wr_benign] in Hev. subst e.
      change (-1 <=? 0) with true. cbn iota. cbn [sk_eintr].
      edestruct (IH fuel
                   (Build_IMDSocket (sk_poll sk) (sk_in sk) script (sk_sent sk) true)
                   dat towrite leftcount)
        as (sk' & Hrun & Hs & Hb' & Hp & Hi).
      { reflexivity. } { exact Hb. } { exact Hl. } { lia. }
      exists sk'. rewrite Hrun. repeat split; assumption.
Qed.

Lemma imd_write_multiple_benign sk dat towrite :
  forallb wr_benign (sk_out sk) = true ->
  0 <= towrite <= Z.of_nat (length dat) ->
  exists sk',
    imd_write_multiple sk dat towrite = (towrite, sk')
    /\ sk_sent sk' = sk_sent sk ++ take (Z.to_nat towrite) dat
    /\ forallb wr_benign (sk_out sk') = true
    /\ sk_poll sk' = sk_poll sk /\ sk_in sk' = sk_in sk.
Proof.
  intros Hb Hl. unfold imd_write_multiple.
  apply (imd_write_multiple_loop_benign (sk_out sk)); [reflexivity | exact Hb | exact Hl | lia].
Qed.

(** X17. On a socket whose writes are at worst interrupted or partial,
    [imd_write_multiple] sends all [towrite] bytes, in any number of
    pieces. *)
Theorem imd_write_multiple_complete (sk : IMDSocket) (dat : list byte)
  (towrite : Z) :
  forallb wr_benign (sk_out sk) = true ->
  0 <= towrite <= Z.of_nat (length dat) ->
  exists sk',
    imd_write_multiple sk dat towrite = (towrite, sk')
    /\ sk_sent sk' = sk_sent sk ++ take (Z.to_nat towrite) dat.
Proof.
  intros Hb Hl.
  destruct (imd_write_multiple_benign sk dat towrite Hb Hl) as (sk' & H1 & H2 & _).
  exists sk'. split; assumption.
Qed.

Lemma imd_handshake_benign (sk : IMDSocket) :
  forallb wr_benign (sk_out sk) = true ->
  exists sk',
    imd_handshake sk = (false, sk')
    /\ sk_sent sk'
       = sk_sent sk ++ [x00; x00; x00; x04]
         ++ (if little_endian then [x02; x00; x00; x00]
             else [x00; x00; x00; x02])
    /\ sk_in sk' = sk_in sk /\ sk_poll sk' = sk_poll sk.
Proof.
  intros Hb. unfold imd_handshake.
  match goal with
  | |- context [imd_write_multiple sk ?dat c_headerSize] =>
      destruct (imd_write_multiple_benign sk dat c_headerSize Hb)
        as (sk' & Hrun & Hs & _ & Hp & Hi);
      [rewrite length_header_bytes; unfold c_headerSize; lia|]
  end.
  exists sk'. rewrite Hrun, Z.eqb_refl. cbn [negb].
  split; [reflexivity|]. split; [|split; assumption].
  rewrite Hs, take_ge by (rewrite length_header_bytes; unfold c_headerSize; lia).
  unfold header_bytes, fill_header. cbn [type length_].
  rewrite store_int32_imd_htonl.
  unfold store_int32. destruct little_endian; reflexivity.
Qed.

(** X18. The handshake on the wire: the message kind [IMD_HANDSHAKE] in
    network byte order, followed by the protocol version 2 in the byte
    order of the host, by which the client tells the two orders apart. *)
Theorem imd_handshake_wire (sk : IMDSocket) :
  forallb wr_benign (sk_out sk) = true ->
  exists sk',
    imd_handshake sk = (false, sk')
    /\ sk_sent sk'
       = sk_sent sk ++ [x00; x00; x00; x04]
         ++ (if little_endian then [x02; x00; x00; x00]
             else [x00; x00; x00; x02])
    /\ sk_in sk' = sk_in sk /\ sk_poll sk' = sk_poll sk.
Proof. exact (imd_handshake_benign sk). Qed.

Lemma length_energy_block_bytes e : length (energy_block_bytes e) = 40%nat.
Proof.
  unfold energy_block_bytes. rewrite !length_app, length_store_int32.
  reflexivity.
Qed.

Lemma length_sendx_concat x (l : list nat) :
  length (concat (map (sendx x) l)) = (12 * length l)%nat.
Proof.
  induction l as [|i l IH]; [reflexivity|].
  cbn [map concat length]. rewrite length_app, IH. unfold sendx. cbn. lia.
Qed.

Lemma imd_send_energies_benign (sk : IMDSocket) (energies : IMDEnergyBlock) :
  forallb wr_benign (sk_out sk) = true ->
  exists sk',
    imd_send_energies sk energies = (false, sk')
    /\ sk_sent sk' = sk_sent sk ++ energies_message energies
    /\ length (energies_message energies) = 48%nat
    /\ forallb wr_benign (sk_out sk') = true
    /\ sk_in sk' = sk_in sk /\ sk_poll sk' = sk_poll sk.
Proof.
  intros Hb. unfold imd_send_energies.
  assert (Hlen : length (header_bytes (fill_header IMD_ENERGIES 1)
                         ++ energy_block_bytes energies) = 48%nat)
    by (rewrite length_app, length_header_bytes, length_energy_block_bytes;
        reflexivity).
  match goal with
  | |- context [imd_write_multiple sk ?dat ?n] =>
      destruct (imd_write_multiple_benign sk dat n Hb)
        as (sk' & Hrun & Hs & Hb' & Hp & Hi);
      [rewrite Hlen; unfold c_headerSize, sizeof_IMDEnergyBlock; lia|]
  end.
  exists sk'. rewrite Hrun, Z.eqb_refl. cbn [negb].
  split; [reflexivity|].
  assert (Hmsg : header_bytes (fill_header IMD_ENERGIES 1)
                 ++ energy_block_bytes energies = energies_message energies).
  { unfold energies_message, header_bytes, fill_header. cbn [type length_].
    rewrite !store_int32_imd_htonl, <- app_assoc. reflexivity. }
  rewrite Hs, take_ge
    by (rewrite Hlen; unfold c_headerSize, sizeof_IMDEnergyBlock; lia).
  rewrite <- Hmsg, Hlen. repeat split; assumption.
Qed.

(** X19. The energies message: the header ([IMD_ENERGIES], 1) in network
    byte order, then the forty bytes of the energy record as they stand in
    memory, 48 bytes in all. *)
Theorem imd_send_energies_wire (sk : IMDSocket) (energies : IMDEnergyBlock) :
  forallb wr_benign (sk_out sk) = true ->
  exists sk',
    imd_send_energies sk energies = (false, sk')
    /\ sk_sent sk' = sk_sent sk ++ energies_message energies
    /\ length (energies_message energies) = 48%nat
    /\ forallb wr_benign (sk_out sk') = true
    /\ sk_in sk' = sk_in sk /\ sk_poll sk' = sk_poll sk.
Proof. exact (imd_send_energies_benign sk energies). Qed.

Lemma imd_send_rvecs_benign (sk : IMDSocket) (nat_ : Z) (x : list rvec) :
  forallb wr_benign (sk_out sk) = true ->
  0 <= nat_ -> 8 + 12 * nat_ <= 2147483647 ->
  exists sk',
    imd_send_rvecs sk nat_ x = (false, sk')
    /\ sk_sent sk' = sk_sent sk ++ positions_message nat_ x
    /\ Z.of_nat (length (positions_message nat_ x)) = 8 + 12 * nat_
    /\ forallb wr_benign (sk_out sk') = true
    /\ sk_in sk' = sk_in sk /\ sk_poll sk' = sk_poll sk.
Proof.
  intros Hb Hn Hmax. unfold imd_send_rvecs.
  rewrite wrap_int32_small by (unfold int32_range, c_headerSize; lia).
  assert (Hlen : Z.of_nat (length (header_bytes (fill_header IMD_FCOORDS nat_)
                                   ++ concat (map (sendx x) (upto nat_))))
                 = 8 + 12 * nat_).
  { rewrite length_app, length_header_bytes, length_sendx_concat.
    unfold upto. rewrite length_seq. lia. }
  match goal with
  | |- context [imd_write_multiple sk ?dat ?n] =>
      destruct (imd_write_multiple_benign sk dat n Hb)
        as (sk' & Hrun & Hs & Hb' & Hp & Hi);
      [unfold c_headerSize; lia|]
  end.
  exists sk'. rewrite Hrun, Z.eqb_refl. cbn [negb].
  split; [reflexivity|].
  assert (Hmsg : header_bytes (fill_header IMD_FCOORDS nat_)
                 ++ concat (map (sendx x) (upto nat_)) = positions_message nat_ x).
  { unfold positions_message, header_bytes, fill_header. cbn [type length_].
    rewrite !store_int32_imd_htonl, <- app_assoc. reflexivity. }
  rewrite Hs, take_ge by (unfold c_headerSize; lia).
  rewrite <- Hmsg, Hlen. repeat split; assumption.
Qed.

(** X20. The positions message for [nat] atoms: the header ([IMD_FCOORDS],
    [nat]) in network byte order, then three converted [float]s for each of
    the positions [x[0 .. nat-1]], in order; [8 + 12 * nat] bytes in all. *)
Theorem imd_send_rvecs_wire (sk : IMDSocket) (nat_ : Z) (x : list rvec) :
  forallb wr_benign (sk_out sk) = true ->
  0 <= nat_ -> 8 + 12 * nat_ <= 2147483647 ->
  exists sk',
    imd_send_rvecs sk nat_ x = (false, sk')
    /\ sk_sent sk' = sk_sent sk ++ positions_message nat_ x
    /\ Z.of_nat (length (positions_message nat_ x)) = 8 + 12 * nat_
    /\ forallb wr_benign (sk_out sk') = true
    /\ sk_in sk' = sk_in sk /\ sk_poll sk' = sk_poll sk.
Proof. exact (imd_send_rvecs_benign sk nat_ x). Qed.

(** *** One transmission step *)

Lemma IMD_send_positions_benign (energies : IMDEnergyBlock) (s : t_gmx_IMD)
  (sk : IMDSocket) :
  clientsocket s = Some sk ->
  forallb wr_benign (sk_out sk) = true ->
  0 <= imd_nat s -> 8 + 12 * imd_nat s <= 2147483647 ->
  exists sk',
    IMD_send_positions true energies s = Some (set_clientsocket (Some sk') s)
    /\ sk_sent sk'
       = sk_sent sk ++ energies_message energies
         ++ positions_message (imd_nat s) (xa s)
    /\ sk_in sk' = sk_in sk /\ sk_poll sk' = sk_poll sk.
Proof.
  intros Hc Hb Hn Hmax. unfold IMD_send_positions. rewrite Hc.
  destruct (imd_send_energies_benign sk energies Hb)
    as (sk1 & H1 & Hs1 & _ & Hb1 & Hi1 & Hp1).
  rewrite H1. cbn [clientsocket set_clientsocket imd_nat xa].
  destruct (imd_send_rvecs_benign sk1 (imd_nat s) (xa s) Hb1 Hn Hmax)
    as (sk2 & H2 & Hs2 & _ & _ & Hi2 & Hp2).
  rewrite H2. exists sk2.
  split; [reflexivity|].
  rewrite Hs2, Hs1, <- app_assoc, Hi2, Hi1, Hp2, Hp1. repeat split.
Qed.

(** X21. With a client connected and a socket that takes what is written,
    [IMD_send_positions] sends the energies message followed by the positions
    message for the [nat] atoms of the group, and leaves the session as it
    was but for the socket. *)
Theorem IMD_send_positions_sends (energies : IMDEnergyBlock) (s : t_gmx_IMD)
  (sk : IMDSocket) :
  clientsocket s = Some sk ->
  forallb wr_benign (sk_out sk) = true ->
  0 <= imd_nat s -> 8 + 12 * imd_nat s <= 2147483647 ->
  exists sk',
    IMD_send_positions true energies s = Some (set_clientsocket (Some sk') s)
    /\ sk_sent sk'
       = sk_sent sk ++ energies_message energies
         ++ positions_message (imd_nat s) (xa s)
    /\ sk_in sk' = sk_in sk /\ sk_poll sk' = sk_poll sk.
Proof. exact (IMD_send_positions_benign energies s sk). Qed.

(** X22. When the energies cannot be sent, [IMD_send_positions] disconnects
    the client and goes on to send the positions all the same: it reaches
    [imd_send_rvecs] with the null socket the disconnect has left. *)
Theorem IMD_send_positions_after_failure (energies : IMDEnergyBlock)
  (s : t_gmx_IMD) (sk : IMDSocket) :
  clientsocket s = Some sk ->
  fst (imd_send_energies sk energies) = true ->
  IMD_send_positions true energies s = None.
Proof.
  intros Hc Hfail. unfold IMD_send_positions. rewrite Hc.
  destruct (imd_send_energies sk energies) as [failed sk1].
  cbn [fst] in Hfail. subst failed. reflexivity.
Qed.

(** *** Waiting for a client *)

(** A connection attempt of a session without client either leaves it
    without client or has set [bConnected]; the stop condition is not its
    business. *)
Lemma imd_tryconnect_client (s : t_gmx_IMD) :
  clientsocket s = None ->
  (clientsocket (snd (imd_tryconnect s)) = None
   \/ bConnected (snd (imd_tryconnect s)) = true)
  /\ stop_condition (snd (imd_tryconnect s)) = stop_condition s.
Proof.
  intros Hc. unfold imd_tryconnect.
  destruct (imdsock_tryread_listen (socket s) 0 0) as [r ls].
  destruct (0 <? r); [|cbn; auto].
  cbn [socket set_socket].
  destruct (imdsock_accept ls) as [[c|] ls2];
    cbn [clientsocket set_clientsocket set_socket]; [|cbn; auto].
  destruct (imd_handshake c) as [[] c1]; [cbn; auto|].
  cbn [clientsocket set_clientsocket].
  destruct (imdsock_tryread c1 c_connectWait 0) as [r1 c2].
  destruct (negb (r1 =? 1)); [cbn; auto|].
  destruct (imd_recv_header c2 _) as [[itype len] c3].
  destruct (negb (itype =? IMDType_code IMD_GO)); cbn; auto.
Qed.

(** What a reading of the stop condition leaves: the session, with the
    condition that was read. *)
Lemma gmx_get_stop_condition_spec signals s c signals' s' :
  gmx_get_stop_condition signals s = (c, signals', s') ->
  stop_condition s' = c /\ clientsocket s' = clientsocket s
  /\ bConnected s' = bConnected s /\ socket s' = socket s
  /\ imd_length s' = imd_length s.
Proof.
  unfold gmx_get_stop_condition.
  destruct signals as [|[|] signals0]; intros [= <- <- <-]; cbn;
    repeat split; auto.
Qed.

Lemma gmx_get_stop_condition_none signals s :
  stop_condition s = gmx_stop_cond_none -> hd false signals = false ->
  gmx_get_stop_condition signals s = (gmx_stop_cond_none, tl signals, s).
Proof.
  intros Hs Hh. unfold gmx_get_stop_condition.
  destruct signals as [|[|] signals0]; cbn in *;
    try discriminate; rewrite Hs; reflexivity.
Qed.

Lemma imd_blockconnect_loop_client fuel :
  forall signals s signals' s',
  clientsocket s = None ->
  imd_blockconnect_loop fuel signals s = Some (signals', s') ->
  ((exists sk, clientsocket s' = Some sk) /\ bConnected s' = true
   /\ stop_condition s' = gmx_stop_cond_none)
  \/ (clientsocket s' = None /\ stop_condition s' = gmx_stop_cond_next).
Proof.
  induction fuel as [|fuel IH]; intros signals s signals' s' Hc;
    cbn [imd_blockconnect_loop]; rewrite Hc;
    destruct (gmx_get_stop_condition signals s) as [[c sg] s0] eqn:Hg;
    apply gmx_get_stop_condition_spec in Hg as (Hst & Hcl & _);
    destruct c.
  - discriminate.
  - intros [= <- <-]. right. split; congruence.
  - rewrite Hc in Hcl.
    destruct (imd_tryconnect_client s0 Hcl) as [Hc1 Hst1]. rewrite Hst in Hst1.
    destruct (clientsocket (snd (imd_tryconnect s0))) as [sk|] eqn:Hc2.
    + destruct Hc1 as [Hc1|Hc1]; [discriminate|].
      replace (imd_blockconnect_loop fuel sg (snd (imd_tryconnect s0)))
        with (Some (sg, snd (imd_tryconnect s0)))
        by (destruct fuel; cbn [imd_blockconnect_loop]; rewrite Hc2; reflexivity).
      intros [= <- <-]. left. rewrite Hc2. split; [eexists; reflexivity|].
      split; assumption.
    + apply IH. exact Hc2.
  - intros [= <- <-]. right. split; congruence.
Qed.

(** X23. [imd_blockconnect], entered without client, returns in one of two
    ways only: with a client that has been accepted, greeted and has
    answered, the client socket there and [bConnected] set, and no stop
    condition read up to then; or without client because a reading of the
    stop condition, the one before the loop or one of those in the loop,
    has found the run asked to stop.  A stop condition that is there at the
    first reading makes it return at once, with nothing else changed. *)
Theorem imd_blockconnect_connected (fuel : nat)
  (signals signals' : list bool) (s s' : t_gmx_IMD) :
  clientsocket s = None ->
  imd_blockconnect fuel signals s = Some (signals', s') ->
  (((exists sk, clientsocket s' = Some sk) /\ bConnected s' = true
    /\ stop_condition s' = gmx_stop_cond_none)
   \/ (clientsocket s' = None /\ stop_condition s' = gmx_stop_cond_next))
  /\ (fst (fst (gmx_get_stop_condition signals s)) = gmx_stop_cond_next ->
      signals' = tl signals /\ s' = set_stop_condition gmx_stop_cond_next s).
Proof.
  intros Hc. unfold imd_blockconnect.
  destruct (gmx_get_stop_condition signals s) as [[c sg] s0] eqn:Hg.
  pose proof Hg as Hg'.
  apply gmx_get_stop_condition_spec in Hg as (Hst & Hcl & _).
  rewrite Hc in Hcl. destruct c.
  - intros H. split; [|discriminate].
    apply (imd_blockconnect_loop_client fuel sg s0 signals' s' Hcl H).
  - intros [= <- <-]. split; [right; split; congruence|].
    intros _. revert Hg'. unfold gmx_get_stop_condition.
    destruct signals as [|[|] signals0].
    + intros [= E1 E2 E3]. rewrite <- E2, <- E3. split; [reflexivity|].
      destruct s; cbn in *; rewrite E1; reflexivity.
    + intros [= E2 E3]. rewrite <- E2, <- E3. split; reflexivity.
    + intros [= E1 E2 E3]. rewrite <- E2, <- E3. split; [reflexivity|].
      destruct s; cbn in *; rewrite E1; reflexivity.
Qed.

(** A poll of the listening socket that reports nothing is waited out. *)
Lemma imd_tryconnect_quiet (s : t_gmx_IMD) (r : Z) (polls : list Z) :
  ls_poll (socket s) = r :: polls -> r <= 0 ->
  imd_tryconnect s
  = (false, set_socket (Build_IMDListenSocket polls (ls_backlog (socket s))) s).
Proof.
  intros Hp Hr. unfold imd_tryconnect, imdsock_tryread_listen. rewrite Hp.
  destruct (0 <? r) eqn:E; [apply Z.ltb_lt in E; lia|]. reflexivity.
Qed.

(** The first request from a client that takes the handshake and answers
    [IMD_GO] in time connects it. *)
Lemma imd_tryconnect_connects (s : t_gmx_IMD) (r : Z)
  (polls : list Z) (c : IMDSocket) (backlog : list (option IMDSocket))
  (cpolls : list Z) (len : Z) (more : list byte) (rest : list rd_event) :
  ls_poll (socket s) = r :: polls -> 0 < r ->
  ls_backlog (socket s) = Some c :: backlog ->
  forallb wr_benign (sk_out c) = true ->
  sk_poll c = 1 :: cpolls ->
  int32_range len ->
  sk_in c = Recv (header_bytes (fill_header IMD_GO len) ++ more) :: rest ->
  exists s1 sk1,
    imd_tryconnect s = (true, s1)
    /\ clientsocket s1 = Some sk1 /\ bConnected s1 = true
    /\ sk_sent sk1
       = sk_sent c ++ [x00; x00; x00; x04]
         ++ (if little_endian then [x02; x00; x00; x00]
             else [x00; x00; x00; x02])
    /\ socket s1 = Build_IMDListenSocket polls backlog
    /\ imd_length s1 = len.
Proof.
  intros Hp Hr Hbl Hb Hcp Hlen Hin.
  destruct (imd_handshake_benign c Hb) as (c1 & Hh & Hsent & Hi1 & Hp1).
  assert (Hpoll : imdsock_tryread c1 c_connectWait 0
                  = (1, Build_IMDSocket cpolls (sk_in c1) (sk_out c1)
                          (sk_sent c1) (sk_eintr c1))).
  { unfold imdsock_tryread. rewrite Hp1, Hcp. reflexivity. }
  edestruct (imd_recv_header_delivers
               (Build_IMDSocket cpolls (sk_in c1) (sk_out c1) (sk_sent c1)
                  (sk_eintr c1))
               (imd_length s) IMD_GO len []
               (header_bytes (fill_header IMD_GO len)) more rest Hlen)
    as [e He].
  { cbn [sk_in app]. rewrite Hi1. exact Hin. }
  { reflexivity. }
  { intros E. apply (f_equal length) in E. rewrite length_header_bytes in E.
    discriminate. }
  { reflexivity. }
  assert (Hl : imdsock_tryread_listen (socket s) 0 0
               = (r, Build_IMDListenSocket polls (ls_backlog (socket s)))).
  { unfold imdsock_tryread_listen. rewrite Hp. reflexivity. }
  assert (Ha : imdsock_accept (Build_IMDListenSocket polls (ls_backlog (socket s)))
               = (Some c, Build_IMDListenSocket polls backlog)).
  { unfold imdsock_accept. cbn [ls_backlog ls_poll]. rewrite Hbl. reflexivity. }
  unfold imd_tryconnect. rewrite Hl. apply Z.ltb_lt in Hr. rewrite Hr.
  cbn [socket set_socket]. rewrite Ha.
  cbn [clientsocket set_clientsocket set_socket]. rewrite Hh.
  cbn [clientsocket set_clientsocket]. rewrite Hpoll.
  cbn [imd_length set_clientsocket set_socket]. rewrite He.
  change (1 =? 1) with true. rewrite Z.eqb_refl. cbn [negb].
  eexists. eexists. split; [reflexivity|]. split; [reflexivity|].
  split; [reflexivity|]. cbn [sk_sent]. rewrite Hsent. repeat split.
Qed.

Lemma imd_blockconnect_loop_waits (quiet_polls : list Z) :
  forall (s : t_gmx_IMD) (signals : list bool) (r : Z)
    (polls : list Z) (c : IMDSocket) (backlog : list (option IMDSocket))
    (cpolls : list Z) (len : Z) (more : list byte) (rest : list rd_event),
  clientsocket s = None -> stop_condition s = gmx_stop_cond_none ->
  Forall (fun g => g = false) (take (S (length quiet_polls)) signals) ->
  ls_poll (socket s) = quiet_polls ++ r :: polls ->
  Forall (fun q => q <= 0) quiet_polls -> 0 < r ->
  ls_backlog (socket s) = Some c :: backlog ->
  forallb wr_benign (sk_out c) = true ->
  sk_poll c = 1 :: cpolls ->
  int32_range len ->
  sk_in c = Recv (header_bytes (fill_header IMD_GO len) ++ more) :: rest ->
  exists s' sk',
    imd_blockconnect_loop (S (length quiet_polls)) signals s
    = Some (drop (S (length quiet_polls)) signals, s')
    /\ clientsocket s' = Some sk' /\ bConnected s' = true
    /\ stop_condition s' = gmx_stop_cond_none
    /\ sk_sent sk'
       = sk_sent c ++ [x00; x00; x00; x04]
         ++ (if little_endian then [x02; x00; x00; x00]
             else [x00; x00; x00; x02])
    /\ socket s' = Build_IMDListenSocket polls backlog
    /\ imd_length s' = len.
Proof.
  induction quiet_polls as [|q qs IH];
    intros s signals r polls c backlog cpolls len more rest
      Hc Hs Hsig Hp Hq Hr Hbl Hb Hcp Hlen Hin.
  - cbn [app length] in *. cbn [imd_blockconnect_loop]. rewrite Hc.
    rewrite (gmx_get_stop_condition_none signals s Hs)
      by (destruct signals; [reflexivity | inversion Hsig; assumption]).
    destruct (imd_tryconnect_connects s r polls c backlog cpolls len more rest
                Hp Hr Hbl Hb Hcp Hlen Hin)
      as (s1 & sk1 & Htc & Hc1 & Hb1 & Hsent & Hsock & Hlen1).
    rewrite Htc. cbn [snd]. rewrite Hc1.
    exists s1, sk1. split; [destruct signals; reflexivity|].
    repeat split; try assumption.
    destruct (imd_tryconnect_client s Hc) as [_ Hst]. rewrite Htc in Hst.
    cbn [snd] in Hst. congruence.
  - cbn [app length] in Hp |- *.
    change (imd_blockconnect_loop (S (S (length qs))) signals s)
      with (match clientsocket s with
            | Some _ => Some (signals, s)
            | None =>
                let '(c, signals, s) := gmx_get_stop_condition signals s in
                match c with
                | gmx_stop_cond_none =>
                    imd_blockconnect_loop (S (length qs)) signals
                      (snd (imd_tryconnect s))
                | _ => Some (signals, s)
                end
            end).
    rewrite Hc.
    rewrite (gmx_get_stop_condition_none signals s Hs)
      by (destruct signals; [reflexivity | inversion Hsig; assumption]).
    inversion Hq as [|? ? Hq0 Hqs]; subst.
    rewrite (imd_tryconnect_quiet s q (qs ++ r :: polls) Hp Hq0). cbn [snd].
    replace (drop (S (S (length qs))) signals)
      with (drop (S (length qs)) (tl signals))
      by (destruct signals; [rewrite !drop_nil|]; reflexivity).
    apply (IH _ (tl signals) r polls c backlog cpolls len more rest);
      try reflexivity; try assumption.
    destruct signals as [|g signals0]; [constructor|].
    cbn [tl]. cbn [length take] in Hsig. inversion Hsig; assumption.
Qed.

(** X24. As long as no signal asks the run to stop, [imd_blockconnect]
    waits through any number of polls that report no connection request,
    and at the first request from a client that takes the handshake and
    answers [IMD_GO] in time it returns, connected, having sent that client
    the handshake and nothing else.  It has read the stop condition once
    before the loop and once for every attempt. *)
Theorem imd_blockconnect_waits (s : t_gmx_IMD)
  (signals : list bool) (quiet_polls : list Z) (r : Z)
  (polls : list Z) (c : IMDSocket) (backlog : list (option IMDSocket))
  (cpolls : list Z) (len : Z) (more : list byte) (rest : list rd_event) :
  clientsocket s = None -> stop_condition s = gmx_stop_cond_none ->
  Forall (fun g => g = false) (take (S (S (length quiet_polls))) signals) ->
  ls_poll (socket s) = quiet_polls ++ r :: polls ->
  Forall (fun q => q <= 0) quiet_polls -> 0 < r ->
  ls_backlog (socket s) = Some c :: backlog ->
  forallb wr_benign (sk_out c) = true ->
  sk_poll c = 1 :: cpolls ->
  int32_range len ->
  sk_in c = Recv (header_bytes (fill_header IMD_GO len) ++ more) :: rest ->
  exists s' sk',
    imd_blockconnect (S (length quiet_polls)) signals s
    = Some (drop (S (S (length quiet_polls))) signals, s')
    /\ clientsocket s' = Some sk' /\ bConnected s' = true
    /\ stop_condition s' = gmx_stop_cond_none
    /\ sk_sent sk'
       = sk_sent c ++ [x00; x00; x00; x04]
         ++ (if little_endian then [x02; x00; x00; x00]
             else [x00; x00; x00; x02])
    /\ socket s' = Build_IMDListenSocket polls backlog
    /\ imd_length s' = len.
Proof.
  intros Hc Hs Hsig Hp Hq Hr Hbl Hb Hcp Hlen Hin.
  unfold imd_blockconnect.
  rewrite (gmx_get_stop_condition_none signals s Hs)
    by (destruct signals; [reflexivity | inversion Hsig; assumption]).
  replace (drop (S (S (length quiet_polls))) signals)
    with (drop (S (length quiet_polls)) (tl signals))
    by (destruct signals; [rewrite !drop_nil|]; reflexivity).
  apply (imd_blockconnect_loop_waits quiet_polls s (tl signals) r polls c
           backlog cpolls len more rest); try assumption.
  destruct signals as [|g signals0]; [constructor|].
  cbn [tl]. cbn [length take] in Hsig. inversion Hsig; assumption.
Qed.

(** *** Molecules of the IMD group *)

(** What the outer loop keeps: the blocks made so far are not empty, start
    at 0 and end at the number of atoms counted. *)
Lemma add_molecule_invariant (lmols : t_block) (count k N total : nat) :
  (nr lmols <= k)%nat -> (k < N)%nat ->
  length (index lmols) = S N -> nth 0 (index lmols) 0%nat = 0%nat ->
  (forall i, (i < nr lmols)%nat ->
     (nth i (index lmols) 0 < nth (i + 1) (index lmols) 0)%nat) ->
  nth (nr lmols) (index lmols) 0%nat = total ->
  let lmols' := add_molecule lmols count in
  (nr lmols' <= S k)%nat
  /\ length (index lmols') = S N /\ nth 0 (index lmols') 0%nat = 0%nat
  /\ (forall i, (i < nr lmols')%nat ->
        (nth i (index lmols') 0 < nth (i + 1) (index lmols') 0)%nat)
  /\ nth (nr lmols') (index lmols') 0%nat = (total + count)%nat.
Proof.
  intros Hk HN Hlen H0 Hinc Htot. cbn zeta. unfold add_molecule.
  destruct (0 <? count)%nat eqn:E.
  - apply Nat.ltb_lt in E. cbn [nr index].
    assert (Hget : forall j, nth j (<[(nr lmols + 1)%nat :=
                       (nth (nr lmols) (index lmols) 0 + count)%nat]> (index lmols)) 0%nat
                   = if decide (j = nr lmols + 1)%nat
                     then (nth (nr lmols) (index lmols) 0 + count)%nat
                     else nth j (index lmols) 0%nat).
    { intros j. rewrite !nth_lookup, list_lookup_insert.
      destruct (decide (j = nr lmols + 1)%nat) as [->|Hne];
        destruct (decide _) as [[H1 H2]|Hn]; try reflexivity; try lia;
        try (exfalso; apply Hn; split; [reflexivity | lia]). }
    repeat split.
    + lia.
    + rewrite length_insert. exact Hlen.
    + rewrite Hget. destruct (decide _); [lia | exact H0].
    + intros i Hi. rewrite !Hget.
      destruct (decide (i = nr lmols + 1)%nat); [lia|].
      destruct (decide (i + 1 = nr lmols + 1)%nat) as [Heq|Hne].
      * replace i with (nr lmols) by lia. lia.
      * apply Hinc. lia.
    + rewrite Hget. destruct (decide _); [lia | contradiction].
  - apply Nat.ltb_ge in E. assert (count = 0%nat) as -> by lia.
    repeat split; try assumption; lia.
Qed.

Lemma list_sum_seq_S (c : nat -> nat) (k : nat) :
  list_sum (map c (seq 0 (S k))) = (list_sum (map c (seq 0 k)) + c k)%nat.
Proof.
  rewrite seq_S, map_app, list_sum_app. cbn. lia.
Qed.

Lemma init_imd_prepare_mols_fold (count : nat -> nat) (N : nat) :
  forall k, (k <= N)%nat ->
  let lmols :=
    fold_left (fun lmols i => add_molecule lmols (count i)) (seq 0 k)
      {| nr := 0; index := 0%nat :: replicate N 0%nat |} in
  (nr lmols <= k)%nat
  /\ length (index lmols) = S N /\ nth 0 (index lmols) 0%nat = 0%nat
  /\ (forall i, (i < nr lmols)%nat ->
        (nth i (index lmols) 0 < nth (i + 1) (index lmols) 0)%nat)
  /\ nth (nr lmols) (index lmols) 0%nat = list_sum (map count (seq 0 k)).
Proof.
  induction k as [|k IH]; intros Hk; cbn zeta.
  - cbn [seq fold_left nr index map list_sum length nth].
    rewrite length_replicate. repeat split; try lia; intros i Hi; lia.
  - rewrite list_sum_seq_S, seq_S, fold_left_app. cbn [fold_left Nat.add].
    destruct (IH ltac:(lia)) as (H1 & H2 & H3 & H4 & H5).
    exact (add_molecule_invariant _ (count k) k N _ H1 ltac:(lia) H2 H3 H4 H5).
Qed.

(** X25. The molecule block [init_imd_prepare_mols_in_imdgroup] builds has
    [nr + 1] boundaries that start at 0 and increase strictly: no block is
    empty, so the block is one [imd_remove_molshifts] can work with; there
    are at most as many blocks as molecules in the topology, and the last
    boundary is the number of group atoms counted in the molecules. *)
Theorem init_imd_prepare_mols_block (gmols : RangePartitioning)
  (s s' : t_gmx_IMD) :
  init_imd_prepare_mols_in_imdgroup gmols s = Some s' ->
  s' = set_mols (mols s') s
  /\ length (index (mols s')) = S (nr (mols s'))
  /\ nth 0 (index (mols s')) 0%nat = 0%nat
  /\ (forall i, (i < nr (mols s'))%nat ->
        (nth i (index (mols s')) 0 < nth (i + 1) (index (mols s')) 0)%nat)
  /\ (nr (mols s') <= numBlocks gmols)%nat
  /\ nth (nr (mols s')) (index (mols s')) 0%nat
     = list_sum (map (count_in_block gmols s) (seq 0 (numBlocks gmols))).
Proof.
  unfold init_imd_prepare_mols_in_imdgroup.
  destruct (ind_unsorted s); [discriminate|].
  destruct (init_imd_prepare_mols_fold (count_in_block gmols s) (numBlocks gmols)
              (numBlocks gmols) (le_n _)) as (H1 & H2 & H3 & H4 & H5).
  cbn zeta in H1, H2, H3, H4, H5.
  set (lmols := fold_left _ _ _) in *.
  intros [= <-]. cbn [mols set_mols nr index].
  assert (Hre : srenew (heap_index heap) (index lmols) (Z.of_nat (nr lmols + 1))
                = take (nr lmols + 1) (index lmols)).
  { unfold srenew. rewrite Nat2Z.id.
    replace (nr lmols + 1 - length (index lmols))%nat with 0%nat by lia.
    cbn [seq map]. apply app_nil_r. }
  rewrite Hre.
  assert (Hnth : forall i, (i <= nr lmols)%nat ->
            nth i (take (nr lmols + 1) (index lmols)) 0%nat
            = nth i (index lmols) 0%nat).
  { intros i Hi. rewrite !nth_lookup, lookup_take_lt by lia. reflexivity. }
  repeat split.
  - rewrite length_take. lia.
  - rewrite Hnth by lia. exact H3.
  - intros i Hi. rewrite !Hnth by lia. apply H4. exact Hi.
  - exact H1.
  - rewrite Hnth by lia. exact H5.
Qed.

(** *** Applying the forces *)

Lemma zlookup_Some {A : Type} (l : list A) (i : Z) (x : A) :
  zlookup l i = Some x <-> 0 <= i /\ l !! Z.to_nat i = Some x.
Proof.
  unfold zlookup. destruct (i <? 0) eqn:E.
  - apply Z.ltb_lt in E. split; [discriminate | intros [H _]; lia].
  - apply Z.ltb_ge in E. split; [intros H; split; assumption | intros [_ H]; exact H].
Qed.

(** Once an access has gone outside, the loop has no defined outcome. *)
Lemma apply_fold_None cr findHome s (l : list nat) :
  fold_left (apply_force cr findHome s) l None = None.
Proof. induction l as [|i l IH]; [reflexivity | exact IH]. Qed.

(** The loop of [IMD_apply_forces] over the forces [l], all of them with
    their indices inside the arrays and no two at the same target. *)
Lemma apply_fold_spec cr findHome s (l : list nat) :
  forall f_md : list rvec,
  (forall i, In i l ->
     exists j, force_target cr findHome s i = Some j
               /\ 0 <= j < Z.of_nat (length f_md)) ->
  (forall i, In i l -> (i < length (f s))%nat) ->
  NoDup (map (force_target cr findHome s) l) ->
  exists f' : list rvec,
    fold_left (apply_force cr findHome s) l (Some f_md) = Some f'
    /\ length f' = length f_md
    /\ (forall i j, In i l -> force_target cr findHome s i = Some j ->
          f' !! Z.to_nat j
          = (fun v => rvec_inc v (nth i (f s) rvec_zero))
              <$> (f_md !! Z.to_nat j))
    /\ (forall k,
          (forall i j, In i l -> force_target cr findHome s i = Some j ->
             Z.to_nat j <> k) ->
          f' !! k = f_md !! k).
Proof.
  induction l as [|a l IH]; intros f_md Htg Hf Hnd.
  { exists f_md. cbn [fold_left]. repeat split. intros i j []. }
  cbn [map] in Hnd. inversion Hnd as [|? ? Hnotin Hnd']. subst.
  rewrite list_elem_of_In in Hnotin.
  destruct (Htg a (or_introl eq_refl)) as (ja & Hja & Hra).
  destruct (lookup_lt_is_Some_2 (f s) a (Hf a (or_introl eq_refl))) as [fa Hfa].
  destruct (lookup_lt_is_Some_2 f_md (Z.to_nat ja) ltac:(lia)) as [va Hva].
  assert (Hnth : nth a (f s) rvec_zero = fa)
    by (rewrite nth_lookup, Hfa; reflexivity).
  assert (Hstep : apply_force cr findHome s (Some f_md) a
                  = Some (<[Z.to_nat ja := rvec_inc va fa]> f_md)).
  { unfold apply_force. rewrite Hja, Hfa.
    rewrite (proj2 (zlookup_Some f_md ja va)) by (split; [lia | exact Hva]).
    reflexivity. }
  destruct (IH (<[Z.to_nat ja := rvec_inc va fa]> f_md)) as (f' & Hf' & Hlen & Hin & Hout).
  { intros i Hi. destruct (Htg i (or_intror Hi)) as (j & Hj & Hr).
    exists j. rewrite length_insert. split; assumption. }
  { intros i Hi. apply Hf. right. exact Hi. }
  { exact Hnd'. }
  assert (Hfresh : forall i j, In i l -> force_target cr findHome s i = Some j ->
                     Z.to_nat j <> Z.to_nat ja).
  { intros i j Hi Hj E. apply Hnotin.
    destruct (Htg i (or_intror Hi)) as (j' & Hj' & Hr').
    assert (j = ja) by (rewrite Hj in Hj'; injection Hj' as <-; lia).
    subst j. rewrite Hja, <- Hj. apply in_map. exact Hi. }
  exists f'. cbn [fold_left]. rewrite Hstep. split; [exact Hf'|].
  split; [rewrite Hlen; apply length_insert|]. split.
  - intros i j Hi Hj.
    destruct (in_dec Nat.eq_dec i l) as [Hil|Hil].
    + rewrite (Hin i j Hil Hj).
      rewrite list_lookup_insert_ne; [reflexivity|].
      intros E. apply (Hfresh i j Hil Hj). symmetry. exact E.
    + destruct Hi as [->|Hi]; [|contradiction].
      rewrite Hja in Hj. injection Hj as <-.
      rewrite Hout by (intros i' j' Hi' Hj'; apply (Hfresh i' j' Hi' Hj')).
      rewrite list_lookup_insert_eq by (apply lookup_lt_Some in Hva; exact Hva).
      rewrite Hva, Hnth. reflexivity.
  - intros k Hk.
    rewrite Hout by (intros i j Hi Hj; apply (Hk i j (or_intror Hi) Hj)).
    apply list_lookup_insert_ne. apply (Hk a ja (or_introl eq_refl) Hja).
Qed.

(** X26. When every index of the applied batch lies inside its array (for
    each force of the batch [f_ind[i]] inside [ind], the target inside the
    force array of the process; the batch holds [nforces] forces) and the
    forces go to different targets, [IMD_apply_forces] has a defined
    outcome: the size of the force array is kept, each of the targets is
    incremented by its force, once, and every other entry is left as it
    is.  (Outside these bounds the source reads and writes outside its
    arrays.) *)
Theorem IMD_apply_forces_targets (cr : t_commrec) (findHome : Z -> option Z)
  (s : t_gmx_IMD) (f_md : list rvec) :
  bForceActivated s = true ->
  (Z.to_nat (nforces s) <= length (f s))%nat ->
  (forall i, (i < Z.to_nat (nforces s))%nat ->
     exists j, force_target cr findHome s i = Some j
               /\ 0 <= j < Z.of_nat (length f_md)) ->
  NoDup (map (force_target cr findHome s) (upto (nforces s))) ->
  exists f' : list rvec,
    IMD_apply_forces true cr findHome s f_md = Some f'
    /\ length f' = length f_md
    /\ (forall i j, (i < Z.to_nat (nforces s))%nat ->
          force_target cr findHome s i = Some j ->
          f' !! Z.to_nat j
          = (fun v => rvec_inc v (nth i (f s) rvec_zero))
              <$> (f_md !! Z.to_nat j))
    /\ (forall k,
          (forall i j, (i < Z.to_nat (nforces s))%nat ->
             force_target cr findHome s i = Some j -> Z.to_nat j <> k) ->
          f' !! k = f_md !! k).
Proof.
  intros Hf Hlen Htg Hnd. unfold IMD_apply_forces. rewrite Hf. cbn [negb].
  assert (Hin : forall i, In i (upto (nforces s)) <-> (i < Z.to_nat (nforces s))%nat).
  { intros i. unfold upto. rewrite in_seq. lia. }
  destruct (apply_fold_spec cr findHome s (upto (nforces s)) f_md)
    as (f' & Hf' & Hl & Hi & Ho).
  - intros i Hi. apply Htg, Hin, Hi.
  - intros i Hi. apply Hin in Hi. lia.
  - exact Hnd.
  - exists f'. split; [exact Hf'|]. split; [exact Hl|]. split.
    + intros i j Hlt Hj. apply (Hi i j); [apply Hin, Hlt | exact Hj].
    + intros k Hk. apply Ho. intros i j Hii Hj. apply (Hk i j); [apply Hin, Hii | exact Hj].
Qed.

(** X27. In [IMD_apply_forces] an atom that is not at home on this process
    is not skipped: "not owned" is taken as "owned, at the local index that
    equals the global index", so the force is added there. *)
Theorem IMD_apply_forces_not_home (sessionPossible : bool) (cr : t_commrec)
  (findHome : Z -> option Z) (s : t_gmx_IMD) (f_md : list rvec) :
  IMD_apply_forces sessionPossible cr findHome s f_md
  = IMD_apply_forces sessionPossible cr
      (fun j => Some (match findHome j with Some locndx => locndx | None => j end))
      s f_md.
Proof.
  unfold IMD_apply_forces.
  assert (E : forall i,
            force_target cr findHome s i
            = force_target cr
                (fun j => Some (match findHome j with
                                | Some locndx => locndx | None => j end)) s i).
  { intros i. unfold force_target. destruct (f_ind s !! i); [|reflexivity].
    destruct (zlookup (ind s) _); [|reflexivity].
    destruct (PAR cr); [|reflexivity]. destruct (findHome _); reflexivity. }
  destruct sessionPossible; [|reflexivity].
  destruct (negb (bForceActivated s)); [reflexivity|].
  generalize (upto (nforces s)). intros l. generalize (Some f_md).
  induction l as [|i l IH]; intros acc; cbn [fold_left]; [reflexivity|].
  replace (apply_force cr
             (fun j => Some (match findHome j with
                             | Some locndx => locndx | None => j end)) s acc i)
    with (apply_force cr findHome s acc i)
    by (unfold apply_force; rewrite <- E; reflexivity).
  apply IH.
Qed.

(** *** What a log line shows *)




(** *** A transmission step, from the energies to the wire *)

(** X29. On a transmission step with a client connected,
    [IMD_prep_energies_send_positions] sends an energies message that carries
    the current step, cut to 32 bits and in the byte order of the host, in
    front of the nine energies, and then the positions; without new energies
    the nine energies are those of the record as it was. *)
Theorem IMD_prep_energies_send_positions_step (s : t_gmx_IMD) (sk : IMDSocket)
  (ene : IMDEnergyBlock) (enerd : energy_term -> real) (step : Z)
  (bHaveNewEnergies : bool) :
  clientsocket s = Some sk ->
  forallb wr_benign (sk_out sk) = true ->
  0 <= imd_nat s -> 8 + 12 * imd_nat s <= 2147483647 ->
  exists ene' sk',
    IMD_prep_energies_send_positions true s ene true enerd step bHaveNewEnergies
    = Some (set_clientsocket (Some sk') s, ene')
    /\ tstep ene' = wrap_int32 step
    /\ (bHaveNewEnergies = false -> energy_terms ene' = energy_terms ene)
    /\ sk_sent sk'
       = sk_sent sk ++ be_bytes (IMDType_code IMD_ENERGIES) ++ be_bytes 1
         ++ store_int32 (wrap_int32 step)
         ++ concat (map float_bytes (energy_terms ene'))
         ++ positions_message (imd_nat s) (xa s).
Proof.
  intros Hc Hb Hn Hmax. unfold IMD_prep_energies_send_positions.
  set (ene' := IMD_fill_energy_record true s ene enerd step bHaveNewEnergies).
  destruct (IMD_send_positions_benign ene' s sk Hc Hb Hn Hmax)
    as (sk' & Hrun & Hsent & _).
  rewrite Hrun. exists ene', sk'.
  assert (Ht : tstep ene' = wrap_int32 step).
  { subst ene'. unfold IMD_fill_energy_record. rewrite Hc.
    destruct bHaveNewEnergies; reflexivity. }
  split; [reflexivity|]. split; [exact Ht|]. split.
  - intros ->. subst ene'. unfold IMD_fill_energy_record. rewrite Hc.
    reflexivity.
  - rewrite Hsent. unfold energies_message, energy_block_bytes, energy_terms.
    rewrite Ht. cbn [map concat]. rewrite app_nil_r, <- !app_assoc.
    reflexivity.
Qed.

(** *** A force batch, from the wire to every process *)

(** X30. A force-data message for [N] atoms that the client has sent in
    full is, after the commands are read and the group is synchronized once,
    the applied batch of every process: the coordinator and every worker
    hold [N] forces, the indices and the converted forces of the message, in
    its order.  The message is one the arrays of the coordinator can take:
    the copies for the log have room for [N] entries and every index of the
    message is an index into [ind]. *)
Theorem force_batch_end_to_end (m : t_gmx_IMD) (sk : IMDSocket)
  (ws : list t_gmx_IMD) (t : double) (N : Z) (idx frc : list byte) (fuel : nat) :
  clientsocket m = Some sk -> bConnected m = true -> bForceActivated m = true ->
  Forall (fun w => bForceActivated w = true) ws ->
  sk_poll sk = [1] ->
  0 < N -> 12 * N <= 2147483647 ->
  length idx = Z.to_nat (4 * N) -> length frc = Z.to_nat (12 * N) ->
  (Z.to_nat N <= length (old_f_ind m))%nat ->
  (Z.to_nat N <= length (old_forces m))%nat ->
  Forall (fun j => 0 <= j < Z.of_nat (length (ind m))) (batch_indices idx N) ->
  sk_in sk = [Recv (header_bytes (fill_header IMD_MDCOMM N) ++ idx ++ frc)] ->
  exists m1,
    imd_readcommand (S fuel) m = Some m1
    /\ Forall (fun p => nforces p = N /\ f_ind p = batch_indices idx N
                        /\ f p = batch_forces frc N /\ bConnected p = true)
         (fst (imd_sync_group m1 ws t) :: snd (imd_sync_group m1 ws t)).
Proof.
  intros Hc Hcon Hfa Hws Hp HN Hmax Hidx Hfrc _ _ _ Hin.
  unfold imd_readcommand.
  rewrite (imd_readcommand_loop_step fuel false m sk Hc)
    by (rewrite Hp; reflexivity).
  assert (Hne : exists b l, idx ++ frc = b :: l).
  { destruct idx as [|b idx']; [cbn [length] in Hidx; lia|].
    exists b, (idx' ++ frc). reflexivity. }
  destruct Hne as (b0 & l0 & Hbl).
  edestruct (imd_recv_header_delivers
               (Build_IMDSocket (tl (sk_poll sk)) (sk_in sk) (sk_out sk)
                  (sk_sent sk) (sk_eintr sk))
               (imd_length m) IMD_MDCOMM N []
               (header_bytes (fill_header IMD_MDCOMM N)) (idx ++ frc) [])
    as [e He].
  { unfold int32_range. lia. }
  { cbn [sk_in app]. exact Hin. }
  { reflexivity. }
  { intros E. apply (f_equal length) in E. rewrite length_header_bytes in E.
    discriminate. }
  { reflexivity. }
  assert (Hm : match idx ++ frc with
               | [] => []
               | _ :: _ => [Recv (idx ++ frc)]
               end = [Recv (idx ++ frc)]) by (rewrite Hbl; reflexivity).
  rewrite Hm in He. rewrite He.
  cbn [sk_poll sk_out sk_sent].
  set (skh := Build_IMDSocket (tl (sk_poll sk)) [Recv (idx ++ frc)] (sk_out sk)
                (sk_sent sk) e).
  set (x := set_imd_length N (set_clientsocket (Some skh) m)).
  destruct (imd_command_force_data x skh false N)
    as (V1 & V2 & V3 & V4 & V5 & _ & sk' & Hc2 & _ & _ & Hp2);
    [reflexivity | reflexivity | exact HN | exact Hmax | | |].
  { subst skh. cbn [sk_in forallb]. rewrite Hbl. reflexivity. }
  { subst skh. cbn [sk_in burst_bytes]. rewrite app_nil_r, length_app. lia. }
  cbn zeta in V1, V2, V3, V4, V5, Hc2.
  change (imd_command (IMDType_code IMD_MDCOMM) false x)
    with (false, set_bNewForces true (imd_read_vmd_Forces x)) in *.
  cbn [snd] in V1, V2, V3, V4, V5, Hc2. cbn iota.
  set (s2 := set_bNewForces true (imd_read_vmd_Forces x)) in *.
  assert (Hq : quiet (sk_poll sk')).
  { rewrite Hp2. subst skh. cbn [sk_poll]. rewrite Hp. exact I. }
  rewrite (imd_readcommand_loop_quiet fuel s2 sk' Hc2 Hq).
  eexists. split; [reflexivity|].
  set (m1 := set_clientsocket _ s2).
  assert (F2 : bForceActivated s2 = true).
  { destruct (imd_command_frame (IMDType_code IMD_MDCOMM) false x) as [Hfr _].
    change (imd_command (IMDType_code IMD_MDCOMM) false x)
      with (false, s2) in Hfr. cbn [snd] in Hfr.
    destruct Hfr as (_ & _ & _ & _ & _ & _ & _ & _ & _ & Hfr & _).
    rewrite Hfr. exact Hfa. }
  assert (W1 : vmd_f_ind s2 = idx).
  { rewrite V2. subst skh. cbn [sk_in burst_bytes]. rewrite app_nil_r.
    apply take_app_length'. symmetry. exact Hidx. }
  assert (W2 : vmd_forces s2 = frc).
  { rewrite V3. subst skh. cbn [sk_in burst_bytes]. rewrite app_nil_r.
    rewrite drop_app_length' by (symmetry; exact Hidx).
    apply take_ge. lia. }
  destruct (imd_sync_group_applied m1 ws t) as (A1 & A2 & _).
  { subst m1. cbn [bConnected set_clientsocket]. rewrite V5. exact Hcon. }
  { exact F2. }
  { exact V4. }
  { subst m1. cbn [vmd_nforces set_clientsocket]. rewrite V1. lia. }
  { exact Hws. }
  assert (E1 : map (vmd_f_ind_at m1) (upto (vmd_nforces m1)) = batch_indices idx N).
  { unfold batch_indices, vmd_f_ind_at. subst m1.
    cbn [vmd_f_ind vmd_nforces set_clientsocket]. rewrite V1, W1. reflexivity. }
  assert (E2 : map (converted_force m1) (upto (vmd_nforces m1)) = batch_forces frc N).
  { unfold batch_forces, converted_force, vmd_forces_at. subst m1.
    cbn [vmd_forces vmd_nforces set_clientsocket]. rewrite V1, W2. reflexivity. }
  assert (E0 : vmd_nforces m1 = N) by exact V1.
  rewrite E1, E2, E0 in A1, A2.
  constructor.
  - destruct A1 as (B1 & B2 & B3 & _ & _ & B6). repeat split; assumption.
  - eapply Forall_impl; [exact A2|]. cbn beta.
    intros p (B1 & B2 & B3 & _ & _ & B6). repeat split; assumption.
Qed.

End IMD.

(** ** Concrete sessions

    The reals are taken to be integers here (positions and forces on a
    grid), the host is little-endian. *)

Definition ex_real_ne (a b : Z) : bool := negb (a =? b).

(** A heap that leaves all bits set in what it hands out. *)
Definition ex_heap : heap_contents Z :=
  {| heap_vmd_f_ind := fun _ => xff; heap_vmd_forces := fun _ => xff;
     heap_f_ind := fun _ => -1; heap_f := fun _ => Build_vec3 (-1) (-1) (-1);
     heap_index := fun _ => 0%nat |}.
Definition ex_force_to_md (v : list byte) : Z := of_be_bytes (rev v).

(** The header of a message as a little-endian host puts it on the wire. *)
Definition ex_header (k : IMDMessageType) (len : Z) : list byte :=
  header_bytes true (fill_header true k len).

(** A client socket with the given polls and bursts; writes succeed. *)
Definition ex_client (polls : list Z) (bursts : list rd_event) : IMDSocket :=
  Build_IMDSocket polls bursts [] [] false.

(** A session with default interval 100, force log open, pulling enabled,
    one force received and applied before. *)
Definition ex_session (ls : IMDListenSocket) (client : option IMDSocket)
  (connected : bool) : t_gmx_IMD Z Z :=
  {| outf := Some {| f_disk := []; f_buf := [] |};
     imd_nat := 3; ind := [10; 11; 12];
     xa := []; xa_shifts := [];
     nstimd := 1; nstimd_new := 1; nstimd_def := 100;
     socket := ls; clientsocket := client; imd_length := 0;
     bWConnect := false; bTerminated := false; bTerminatable := false;
     bConnected := connected; bNewForces := false; bForceActivated := true;
     vmd_nforces := 1;
     vmd_f_ind := [x02; x00; x00; x00];
     vmd_forces := [x01; x00; x00; x00; x00; x00; x00; x00; x00; x00; x00; x00];
     nforces := 1; f_ind := [2]; f := [Build_vec3 1 0 0];
     mols := Build_t_block 0 [0%nat];
     old_nforces := 1; old_f_ind := [2; 0; 0]; old_forces := [Build_vec3 1 0 0];
     stop_condition := gmx_stop_cond_none |}.

Definition ex_no_listener : IMDListenSocket := Build_IMDListenSocket [] [].

(** *** C3: a set-rate header that arrives in two bursts after an
    interrupted call, followed by one byte of the next message. *)
Definition ex_fragmented : IMDSocket :=
  ex_client [] [RdFail true; Recv [x00; x00];
                Recv [x00; x08; x00; x00; x00; x05; x01]].

Lemma header_round_trip_witness :
  exists sk', imd_recv_header true ex_fragmented 0 = (IMDType_code IMD_TRATE, 5, sk')
              /\ sk_in sk' = [Recv [x01]].
Proof.
  destruct (header_round_trip true IMD_TRATE 5 ex_fragmented 0
              [RdFail true; Recv [x00; x00]] [x00; x08; x00; x00; x00; x05]
              [x01] [])
    as (_ & _ & sk' & H1 & H2).
  - unfold int32_range. lia.
  - reflexivity.
  - reflexivity.
  - discriminate.
  - reflexivity.
  - exists sk'. split; [exact H1 | exact H2].
Defined.

(** *** C6, C10: the client sends the rates 7, 0 and then 3, or -4. *)
Definition ex_rates (rates : list Z) : t_gmx_IMD Z Z :=
  ex_session ex_no_listener
    (Some (ex_client (replicate (length rates) 1) (set_rate_messages true rates)))
    true.

Lemma set_rate_sequence_witness :
  exists s', imd_readcommand true Z Z ex_heap 3 (ex_rates [7; 0; 3]) = Some s'
             /\ nstimd_new Z Z s' = 3.
Proof.
  destruct (set_rate_sequence true Z Z ex_heap [7; 0] 3 (ex_rates [7; 0; 3])
              (ex_client [1; 1; 1] (set_rate_messages true [7; 0; 3])) [] 3)
    as (s' & H1 & H2 & _).
  - reflexivity.
  - reflexivity.
  - reflexivity.
  - exact I.
  - repeat constructor; unfold int32_range; lia.
  - cbn. lia.
  - exists s'. split; [exact H1 | apply H2; lia].
Defined.

Lemma set_rate_never_nonpositive_witness :
  exists s', imd_readcommand true Z Z ex_heap 3 (ex_rates [7; 0; -4]) = Some s'
             /\ nstimd_new Z Z s' = 100 /\ 0 < nstimd_new Z Z s'.
Proof.
  destruct (set_rate_never_nonpositive true Z Z ex_heap [7; 0] (-4) (ex_rates [7; 0; -4])
              (ex_client [1; 1; 1] (set_rate_messages true [7; 0; -4])) [] 3)
    as (s' & H1 & H2 & H3).
  - reflexivity.
  - reflexivity.
  - reflexivity.
  - exact I.
  - repeat constructor; unfold int32_range; lia.
  - cbn. lia.
  - exists s'. split; [exact H1|]. split; [apply H2; lia | apply H3; cbn; lia].
Defined.

(** *** C7: a client that may terminate the run has set the interval to 7
    and sends a kill message; a line of the force log is still in the
    stream buffer. *)
Definition ex_killable : t_gmx_IMD Z Z :=
  {| outf := Some {| f_disk := [];
                     f_buf := [{| ll_time := 3; ll_nforces := 0; ll_atoms := [] |}] |};
     imd_nat := 3; ind := [10; 11; 12];
     xa := []; xa_shifts := [];
     nstimd := 7; nstimd_new := 7; nstimd_def := 100;
     socket := ex_no_listener;
     clientsocket := Some (ex_client [1; 0] [Recv (ex_header IMD_KILL 0)]);
     imd_length := 0;
     bWConnect := true; bTerminated := false; bTerminatable := true;
     bConnected := true; bNewForces := false; bForceActivated := true;
     vmd_nforces := 0; vmd_f_ind := []; vmd_forces := [];
     nforces := 0; f_ind := []; f := [];
     mols := Build_t_block 0 [0%nat];
     old_nforces := 0; old_f_ind := [0; 0; 0];
     old_forces := [Build_vec3 0 0 0; Build_vec3 0 0 0; Build_vec3 0 0 0];
     stop_condition := gmx_stop_cond_none |}.

Lemma imd_disconnect_resets_witness :
  (let k := snd (imd_command Z Z ex_heap (IMDType_code IMD_KILL) false ex_killable) in
   bTerminated Z Z k = true /\ bWConnect Z Z k = false
   /\ stop_condition Z Z k = gmx_stop_cond_next
   /\ clientsocket Z Z k = clientsocket Z Z ex_killable
   /\ bConnected Z Z k = true /\ nstimd_new Z Z k = 7
   /\ outf Z Z k = outf Z Z ex_killable)
  /\ exists sk',
       sk_poll sk' = [0] /\ sk_in sk' = []
       /\ imd_readcommand_loop true Z Z ex_heap 2 false ex_killable
          = imd_readcommand_loop true Z Z ex_heap 1 false
              (set_stop_condition Z Z gmx_stop_cond_next
                 (set_bWConnect Z Z false
                    (set_bTerminated Z Z true
                       (set_imd_length Z Z 0
                          (set_clientsocket Z Z (Some sk') ex_killable))))).
Proof.
  destruct (imd_disconnect_resets true Z Z ex_heap ex_killable false)
    as (_ & _ & _ & _ & _ & _ & _ & _ & _ & _ & Hkill & Hloop).
  split.
  - destruct (Hkill eq_refl) as (_ & H1 & H2 & H3 & H4 & H5 & H6 & H7).
    cbn zeta. rewrite H1, H2, H3, H4, H5, H6, H7. repeat split.
  - destruct (Hloop 1%nat (ex_client [1; 0] [Recv (ex_header IMD_KILL 0)]) 0 [] [])
      as (sk' & Hp & Hi & Heq).
    + reflexivity.
    + reflexivity.
    + reflexivity.
    + unfold int32_range. lia.
    + reflexivity.
    + exists sk'. split; [exact Hp|]. split; [exact Hi | exact Heq].
Defined.

(** The whole call: after the kill message the run is asked to stop, and
    the session still holds the client, is still connected, keeps the
    interval 7 and has the line of the log still in the buffer; a
    disconnect message in its place gives the client up, puts the interval
    back to 100 and flushes the line. *)
Example imd_readcommand_kill_example :
  (exists s', imd_readcommand true Z Z ex_heap 2 ex_killable = Some s'
     /\ stop_condition Z Z s' = gmx_stop_cond_next /\ bTerminated Z Z s' = true
     /\ clientsocket Z Z s' = Some (ex_client [] [])
     /\ bConnected Z Z s' = true /\ nstimd_new Z Z s' = 7
     /\ outf Z Z s' = outf Z Z ex_killable)
  /\ (exists s',
        imd_readcommand true Z Z ex_heap 2
          (set_clientsocket Z Z
             (Some (ex_client [1; 0] [Recv (ex_header IMD_DISCONNECT 0)]))
             ex_killable) = Some s'
        /\ clientsocket Z Z s' = None /\ bConnected Z Z s' = false
        /\ nstimd_new Z Z s' = 100
        /\ outf Z Z s'
           = Some {| f_disk := [{| ll_time := 3; ll_nforces := 0; ll_atoms := [] |}];
                     f_buf := [] |}).
Proof.
  split; (eexists; split; [vm_compute; reflexivity|]); repeat split.
Qed.

(** *** C9: pause, a set-rate message while nothing is reported by the
    poll, unpause, then silence. *)
Definition ex_paused : t_gmx_IMD Z Z :=
  ex_session ex_no_listener
    (Some (ex_client [1; 0; 1; 0]
             [Recv (ex_header IMD_PAUSE 0); Recv (ex_header IMD_TRATE 5);
              Recv (ex_header IMD_PAUSE 0)]))
    true.

Lemma imd_readcommand_terminates_witness :
  exists s', imd_readcommand true Z Z ex_heap (pending Z Z ex_paused) ex_paused = Some s'.
Proof.
  destruct (imd_readcommand_terminates true Z Z ex_heap ex_paused) as ((s' & H) & _).
  exists s'. apply H. apply le_n.
Defined.

(** While paused the loop has gone on past the poll that reported nothing:
    the set-rate message was obeyed, and the loop ended, still connected, at
    the first silent poll after the pause was lifted. *)
Example imd_readcommand_paused_example :
  exists s', imd_readcommand true Z Z ex_heap 4 ex_paused = Some s'
             /\ nstimd_new Z Z s' = 5 /\ bConnected Z Z s' = true
             /\ clientsocket Z Z s' = Some (Build_IMDSocket [] [] [] [] false).
Proof. eexists. split; [vm_compute; reflexivity|]. repeat split. Qed.

(** Paused, the loop does not stop where nothing is available.  With two
    messages on their way and every poll reporting nothing, a loop entered
    paused reads both, the set-rate message and the pause message that
    lifts the pause, and only then stops at a silent poll.  With nothing on
    its way and the socket at its end, the paused loop does not just stop
    either: the read finds nothing and the client is dropped. *)
Definition ex_paused_silent : t_gmx_IMD Z Z :=
  ex_session ex_no_listener
    (Some (ex_client [0; 0; 0]
             [Recv (ex_header IMD_TRATE 5); Recv (ex_header IMD_PAUSE 0)]))
    true.

Definition ex_paused_empty : t_gmx_IMD Z Z :=
  ex_session ex_no_listener (Some (ex_client [0] [])) true.

Lemma imd_readcommand_paused_reads_on :
  (exists sk s',
     clientsocket Z Z ex_paused_silent = Some sk /\ quiet (sk_poll sk)
     /\ imd_readcommand_loop true Z Z ex_heap 2 true ex_paused_silent = Some s'
     /\ s' <> set_clientsocket Z Z
                (Some (Build_IMDSocket (tl (sk_poll sk)) (sk_in sk) (sk_out sk)
                         (sk_sent sk) (sk_eintr sk))) ex_paused_silent
     /\ nstimd_new Z Z ex_paused_silent = 1 /\ nstimd_new Z Z s' = 5
     /\ clientsocket Z Z s' = Some (ex_client [] []))
  /\ (exists sk s',
        clientsocket Z Z ex_paused_empty = Some sk /\ quiet (sk_poll sk)
        /\ sk_in sk = []
        /\ imd_readcommand_loop true Z Z ex_heap 1 true ex_paused_empty = Some s'
        /\ clientsocket Z Z s' = None /\ bConnected Z Z s' = false).
Proof.
  split.
  - eexists. eexists. split; [reflexivity|]. split; [cbn; lia|].
    split; [vm_compute; reflexivity|].
    split; [intros E; apply (f_equal (nstimd_new Z Z)) in E; vm_compute in E;
            discriminate E|].
    repeat split.
  - eexists. eexists. split; [reflexivity|]. split; [cbn; lia|].
    split; [reflexivity|]. split; [vm_compute; reflexivity|]. repeat split.
Qed.

(** *** C4: a coordinator that is not connected and two workers that
    believe they are. *)
Definition ex_idle : t_gmx_IMD Z Z := ex_session ex_no_listener None false.
Definition ex_worker : t_gmx_IMD Z Z := ex_session ex_no_listener None true.

Lemma sync_disconnected_witness :
  imd_sync_group true Z Z 0 ex_real_ne ex_force_to_md ex_heap ex_idle
    [ex_worker; ex_worker] 0
  = (ex_idle, [set_bConnected Z Z false ex_worker;
               set_bConnected Z Z false ex_worker]).
Proof.
  destruct (sync_disconnected true Z Z 0 ex_real_ne ex_force_to_md ex_heap ex_idle
              [ex_worker; ex_worker] 0) as (H & _).
  - reflexivity.
  - exact H.
Defined.

(** *** C5: connected, pulling enabled, no force ever received. *)
Definition ex_no_forces : t_gmx_IMD Z Z :=
  {| outf := None; imd_nat := 3; ind := [10; 11; 12];
     xa := []; xa_shifts := [];
     nstimd := 1; nstimd_new := 1; nstimd_def := 100;
     socket := ex_no_listener; clientsocket := Some (ex_client [] []);
     imd_length := 0;
     bWConnect := false; bTerminated := false; bTerminatable := false;
     bConnected := true; bNewForces := false; bForceActivated := true;
     vmd_nforces := 0; vmd_f_ind := []; vmd_forces := [];
     nforces := 0; f_ind := []; f := [];
     mols := Build_t_block 0 [0%nat];
     old_nforces := 0; old_f_ind := []; old_forces := [];
     stop_condition := gmx_stop_cond_none |}.

Definition ex_serial : t_commrec := Build_t_commrec 0 1.

Lemma sync_count_zero_batch_witness :
  snd (imd_sync_nodes true Z Z 0 ex_real_ne ex_force_to_md ex_heap ex_serial
         (bcast_of Z Z ex_no_forces 0) ex_no_forces 0) = 0
  /\ ~ snd (imd_sync_nodes true Z Z 0 ex_real_ne ex_force_to_md ex_heap ex_serial
              (bcast_of Z Z ex_no_forces 0) ex_no_forces 0) < 0.
Proof.
  destruct (sync_count_zero_batch true Z Z 0 ex_real_ne ex_force_to_md ex_heap ex_serial
              (bcast_of Z Z ex_no_forces 0) ex_no_forces 0)
    as (_ & H1 & H2 & _); try reflexivity.
  split; [rewrite H1; reflexivity | exact H2].
Defined.

(** *** C2: a client that connects and sends a pause message first. *)
Definition ex_impatient : IMDSocket := ex_client [1] [Recv (ex_header IMD_PAUSE 0)].

Definition ex_listening : t_gmx_IMD Z Z :=
  ex_session (Build_IMDListenSocket [1] [Some ex_impatient]) None false.

Lemma imd_tryconnect_no_go_witness :
  fst (imd_tryconnect true Z Z ex_listening) = true
  /\ bConnected Z Z (snd (imd_tryconnect true Z Z ex_listening)) = true
  /\ clientsocket Z Z (snd (imd_tryconnect true Z Z ex_listening)) = None.
Proof.
  destruct (imd_tryconnect_no_go true Z Z ex_listening 1
              (Build_IMDListenSocket [] [Some ex_impatient])
              (Build_IMDListenSocket [] [])
              ex_impatient
              (Build_IMDSocket [1] [Recv (ex_header IMD_PAUSE 0)] []
                 [x00; x00; x00; x04; x02; x00; x00; x00] false)
              (Build_IMDSocket [] [Recv (ex_header IMD_PAUSE 0)] []
                 [x00; x00; x00; x04; x02; x00; x00; x00] false)
              1)
    as (H1 & H2 & H3 & _).
  - reflexivity.
  - lia.
  - reflexivity.
  - reflexivity.
  - reflexivity.
  - right. vm_compute. discriminate.
  - repeat split; assumption.
Defined.

(** *** C1: a force-data message for two atoms of which the first index
    arrives, and nothing else; a second client waits to connect. *)
Definition ex_short_payload : IMDSocket := ex_client [] [Recv [x01; x00; x00; x00]].

Definition ex_next_client : IMDSocket :=
  Build_IMDSocket [1] [Recv (ex_header IMD_GO 0)] [] [] false.

Definition ex_short_forces : t_gmx_IMD Z Z :=
  set_outf Z Z None
    (ex_session (Build_IMDListenSocket [1] [Some ex_next_client])
       (Some (ex_client [1] [Recv (ex_header IMD_MDCOMM 2 ++ [x01; x00; x00; x00])]))
       true).

Lemma force_data_short_read_witness :
  let s := set_imd_length Z Z 2
             (set_clientsocket Z Z (Some ex_short_payload) ex_short_forces) in
  let s' := snd (imd_command Z Z ex_heap (IMDType_code IMD_MDCOMM) false s) in
  clientsocket Z Z s' = None /\ bConnected Z Z s' = false
  /\ nforces Z Z s' = 1 /\ f_ind Z Z s' = [2] /\ f Z Z s' = [Build_vec3 1 0 0]
  /\ vmd_nforces Z Z s = 1 /\ vmd_nforces Z Z s' = 2
  /\ bNewForces Z Z s' = true
  /\ take 4 (vmd_f_ind Z Z s') = [x01; x00; x00; x00].
Proof.
  cbn zeta.
  destruct (force_data_short_read Z Z ex_heap
              (set_imd_length Z Z 2
                 (set_clientsocket Z Z (Some ex_short_payload) ex_short_forces))
              ex_short_payload false 2)
    as (H1 & H2 & _ & H4 & H5 & H6 & H7 & H8 & _ & _ & b1 & b2 & E1 & _ & _ & Hall).
  - reflexivity.
  - reflexivity.
  - lia.
  - lia.
  - cbn. lia.
  - repeat split; try assumption; reflexivity.
Defined.

(** The torn batch does not stay in the receive buffers.  The message ends
    in a disconnect; when the next client has connected, the first
    synchronization finds the new-forces flag still raised and takes the
    batch over: two forces, the index that did arrive and one made of what
    the allocator had left in the buffer. *)
Example force_data_short_read_applied_later :
  exists s1 s2,
    imd_readcommand true Z Z ex_heap 2 ex_short_forces = Some s1
    /\ clientsocket Z Z s1 = None /\ bNewForces Z Z s1 = true
    /\ imd_tryconnect true Z Z s1 = (true, s2)
    /\ nforces Z Z s2 = 1 /\ f_ind Z Z s2 = [2]
    /\ nforces Z Z
         (fst (imd_sync_nodes true Z Z 0 ex_real_ne ex_force_to_md ex_heap ex_serial
                 (bcast_of Z Z s2 0) s2 0)) = 2
    /\ f_ind Z Z
         (fst (imd_sync_nodes true Z Z 0 ex_real_ne ex_force_to_md ex_heap ex_serial
                 (bcast_of Z Z s2 0) s2 0)) = [1; -1].
Proof.
  eexists _, _. split; [vm_compute; reflexivity|].
  split; [reflexivity|]. split; [reflexivity|].
  split; [vm_compute; reflexivity|]. repeat split.
Qed.

(** *** C8: a molecule of two atoms that has left the box along x and z, and
    a molecule of one atom that has not moved. *)
Definition ex_box : vec3 (vec3 Z) :=
  Build_vec3 (Build_vec3 4 0 0) (Build_vec3 0 4 0) (Build_vec3 0 0 4).

Definition ex_molecules : t_gmx_IMD Z Z :=
  {| outf := None; imd_nat := 3; ind := [10; 11; 12];
     xa := [Build_vec3 10 10 10; Build_vec3 12 11 10; Build_vec3 5 5 5];
     xa_shifts := [Build_vec3 1 0 (-1); Build_vec3 2 0 (-3); Build_vec3 0 0 0];
     nstimd := 1; nstimd_new := 1; nstimd_def := 100;
     socket := ex_no_listener; clientsocket := Some (ex_client [] []);
     imd_length := 0;
     bWConnect := false; bTerminated := false; bTerminatable := false;
     bConnected := true; bNewForces := false; bForceActivated := true;
     vmd_nforces := 0; vmd_f_ind := []; vmd_forces := [];
     nforces := 0; f_ind := []; f := [];
     mols := Build_t_block 2 [0%nat; 2%nat; 3%nat];
     old_nforces := 0; old_f_ind := []; old_forces := [];
     stop_condition := gmx_stop_cond_none |}.

Lemma ex_molecules_sorted :
  forall i, (i < nr (mols Z Z ex_molecules))%nat ->
            (nth i (index (mols Z Z ex_molecules)) 0
             <= nth (i + 1) (index (mols Z Z ex_molecules)) 0)%nat.
Proof. intros [|[|i]] Hi; cbn in *; lia. Defined.

Lemma imd_remove_molshifts_uniform_witness :
  xa Z Z (imd_remove_molshifts Z Z 0 ex_real_ne Z.sub Z.mul ex_molecules ex_box) !! 0%nat
  = Some (Build_vec3 6 10 14)
  /\ xa Z Z (imd_remove_molshifts Z Z 0 ex_real_ne Z.sub Z.mul ex_molecules ex_box) !! 1%nat
     = Some (Build_vec3 8 11 14)
  /\ xa Z Z (imd_remove_molshifts Z Z 0 ex_real_ne Z.sub Z.mul ex_molecules ex_box) !! 2%nat
     = Some (Build_vec3 5 5 5).
Proof.
  destruct (imd_remove_molshifts_uniform Z Z 0 ex_real_ne Z.sub Z.mul
              ex_molecules ex_box ex_molecules_sorted)
    as (Hin & _ & _).
  split; [|split].
  - etransitivity; [apply (Hin 0%nat 0%nat); cbn; lia | reflexivity].
  - etransitivity; [apply (Hin 0%nat 1%nat); cbn; lia | reflexivity].
  - etransitivity; [apply (Hin 1%nat 2%nat); cbn; lia | reflexivity].
Defined.

(** The same step in IEEE single precision, the [real] of a run in mixed
    precision: a molecule of two atoms at x = 0.1 and x = 0.3 (the nearest
    single-precision numbers) that carries the shift -1 along x in a cubic
    box of edge 10.  Both atoms are moved by the same shift, each sum is
    rounded on its own, and the difference of the two positions is not what
    it was. *)
Definition b32 (m e : Z) : SpecFloat.spec_float :=
  SpecFloat.binary_normalize 24 128 m e false.
Definition b32_sub : SpecFloat.spec_float -> SpecFloat.spec_float -> SpecFloat.spec_float :=
  SpecFloat.SFsub 24 128.
Definition b32_mul_int (t : Z) (a : SpecFloat.spec_float) : SpecFloat.spec_float :=
  SpecFloat.SFmul 24 128 (b32 t 0) a.
Definition b32_ne (a b : SpecFloat.spec_float) : bool := negb (SpecFloat.SFeqb a b).

Definition ex_box32 : vec3 (vec3 SpecFloat.spec_float) :=
  Build_vec3 (Build_vec3 (b32 10 0) (b32 0 0) (b32 0 0))
    (Build_vec3 (b32 0 0) (b32 10 0) (b32 0 0))
    (Build_vec3 (b32 0 0) (b32 0 0) (b32 10 0)).

Definition ex_molecule32 : t_gmx_IMD SpecFloat.spec_float Z :=
  {| outf := None; imd_nat := 2; ind := [10; 11];
     xa := [Build_vec3 (b32 13421773 (-27)) (b32 0 0) (b32 0 0);
            Build_vec3 (b32 10066330 (-25)) (b32 0 0) (b32 0 0)];
     xa_shifts := [Build_vec3 (-1) 0 0; Build_vec3 (-1) 0 0];
     nstimd := 1; nstimd_new := 1; nstimd_def := 100;
     socket := ex_no_listener; clientsocket := Some (ex_client [] []);
     imd_length := 0;
     bWConnect := false; bTerminated := false; bTerminatable := false;
     bConnected := true; bNewForces := false; bForceActivated := true;
     vmd_nforces := 0; vmd_f_ind := []; vmd_forces := [];
     nforces := 0; f_ind := []; f := [];
     mols := Build_t_block 1 [0%nat; 2%nat];
     old_nforces := 0; old_f_ind := []; old_forces := [];
     stop_condition := gmx_stop_cond_none |}.

Lemma imd_remove_molshifts_rounding :
  let s' := imd_remove_molshifts SpecFloat.spec_float Z (b32 0 0) b32_ne b32_sub
              b32_mul_int ex_molecule32 ex_box32 in
  molecule_shift (xa_shifts _ _ ex_molecule32) 0 2 = Build_vec3 (-1) 0 0
  /\ exists x1 x2 x1' x2',
       xa _ _ ex_molecule32 !! 0%nat = Some x1
       /\ xa _ _ ex_molecule32 !! 1%nat = Some x2
       /\ xa _ _ s' !! 0%nat = Some x1' /\ xa _ _ s' !! 1%nat = Some x2'
       /\ x1' = shift_position _ (b32 0 0) b32_ne b32_sub b32_mul_int ex_box32
                  (Build_vec3 (-1) 0 0) x1
       /\ x2' = shift_position _ (b32 0 0) b32_ne b32_sub b32_mul_int ex_box32
                  (Build_vec3 (-1) 0 0) x2
       /\ XX (rvec_sub _ b32_sub x1 x2) = SpecFloat.S754_finite true 13421774 (-26)
       /\ XX (rvec_sub _ b32_sub x1' x2') = SpecFloat.S754_finite true 13421760 (-26)
       /\ rvec_sub _ b32_sub x1' x2' <> rvec_sub _ b32_sub x1 x2.
Proof.
  cbn zeta. split; [reflexivity|].
  do 4 eexists.
  split; [reflexivity|]. split; [reflexivity|].
  split; [vm_compute; reflexivity|]. split; [vm_compute; reflexivity|].
  split; [vm_compute; reflexivity|]. split; [vm_compute; reflexivity|].
  split; [vm_compute; reflexivity|]. split; [vm_compute; reflexivity|].
  vm_compute. discriminate.
Qed.

(** The molecule is moved by one box along x and by one box back along z;
    the single atom of the second molecule stays. *)
Example imd_remove_molshifts_example :
  xa Z Z (imd_remove_molshifts Z Z 0 ex_real_ne Z.sub Z.mul ex_molecules ex_box)
  = [Build_vec3 6 10 14; Build_vec3 8 11 14; Build_vec3 5 5 5].
Proof. reflexivity. Qed.


(** ** Concrete runs for the further properties *)

(** *** Reading *)

Definition ex_broken : IMDSocket :=
  ex_client [] [Recv [x01; x02]; RdFail false; Recv [x03]].

Lemma imd_read_multiple_stream_witness :
  exists n out sk',
    imd_read_multiple ex_fragmented 8 = (n, out, sk')
    /\ n = Z.of_nat (length out)
    /\ burst_bytes (sk_in ex_fragmented) = out ++ burst_bytes (sk_in sk').
Proof.
  eexists _, _, _. split; [reflexivity|].
  destruct (imd_read_multiple_stream ex_fragmented 8 _ _ _ eq_refl)
    as (H1 & _ & H3 & _).
  split; [exact H1 | exact H3].
Defined.

Lemma imd_read_multiple_complete_witness :
  exists sk',
    imd_read_multiple ex_fragmented 8
    = (8, [x00; x00; x00; x08; x00; x00; x00; x05], sk')
    /\ sk_in sk' = [Recv [x01]].
Proof.
  apply (imd_read_multiple_complete ex_fragmented
           [RdFail true; Recv [x00; x00]] [x00; x08; x00; x00; x00; x05]
           [x01] []).
  - reflexivity.
  - reflexivity.
  - discriminate.
Defined.

Lemma imd_read_multiple_stops_witness :
  exists sk',
    imd_read_multiple ex_broken 8 = (2, [x01; x02], sk')
    /\ sk_in sk' = [Recv [x03]].
Proof.
  apply (imd_read_multiple_stops ex_broken 8 [Recv [x01; x02]] (RdFail false)
           [Recv [x03]]).
  - reflexivity.
  - reflexivity.
  - reflexivity.
  - cbn. lia.
Defined.

Lemma imd_recv_header_short_witness :
  exists sk',
    imd_recv_header true ex_broken 7 = (IMDType_code IMD_IOERROR, 7, sk').
Proof.
  apply (imd_recv_header_short true ex_broken 7). cbn. lia.
Defined.

Lemma imd_recv_header_network_order_witness :
  exists sk',
    imd_recv_header false ex_fragmented 0 = (8, 5, sk')
    /\ sk_in sk' = [Recv [x01]].
Proof.
  apply (imd_recv_header_network_order false ex_fragmented 0
           [RdFail true; Recv [x00; x00]] [x00; x08; x00; x00; x00; x05]
           [x01] []).
  - reflexivity.
  - reflexivity.
  - discriminate.
  - reflexivity.
Defined.

(** *** The command loop *)

(** A client that asks for the end of a run that may not be ended, and one
    that leaves and then asks for it. *)
Definition ex_killer : t_gmx_IMD Z Z :=
  ex_session ex_no_listener
    (Some (ex_client [1; 1] [Recv (ex_header IMD_KILL 0);
                             Recv (ex_header IMD_TRATE 7)]))
    true.

Definition ex_leaver_socket : IMDSocket :=
  ex_client [1; 1] [Recv (ex_header IMD_DISCONNECT 0 ++ ex_header IMD_KILL 0)].

Definition ex_leaver : t_gmx_IMD Z Z :=
  ex_session ex_no_listener (Some ex_leaver_socket) true.

Definition ex_killer_after : t_gmx_IMD Z Z :=
  Eval vm_compute in
    match imd_readcommand true Z Z ex_heap 3 ex_killer with
    | Some s' => s'
    | None => ex_killer
    end.

Lemma imd_readcommand_frame_witness :
  imd_readcommand true Z Z ex_heap 3 ex_killer = Some ex_killer_after
  /\ dispatcher_frame Z Z ex_killer ex_killer_after.
Proof.
  assert (H : imd_readcommand true Z Z ex_heap 3 ex_killer = Some ex_killer_after)
    by (vm_compute; reflexivity).
  split; [exact H|].
  exact (imd_readcommand_frame true Z Z ex_heap 3 ex_killer ex_killer_after H).
Defined.

Lemma imd_readcommand_cannot_terminate_witness :
  imd_readcommand true Z Z ex_heap 3 ex_killer = Some ex_killer_after
  /\ bTerminated Z Z ex_killer_after = false
  /\ stop_condition Z Z ex_killer_after = gmx_stop_cond_none
  /\ nstimd_new Z Z ex_killer_after = 7.
Proof.
  assert (H : imd_readcommand true Z Z ex_heap 3 ex_killer = Some ex_killer_after)
    by (vm_compute; reflexivity).
  destruct (imd_readcommand_cannot_terminate true Z Z ex_heap 3 ex_killer ex_killer_after
              eq_refl H) as (H1 & _ & H3).
  split; [exact H|]. split; [exact H1|]. split; [exact H3 | reflexivity].
Defined.

Lemma imd_readcommand_disconnect_ends_witness :
  exists s',
    imd_readcommand_loop true Z Z ex_heap 1 false ex_leaver = Some s'
    /\ clientsocket Z Z s' = None /\ bConnected Z Z s' = false
    /\ bTerminated Z Z s' = false.
Proof.
  destruct (imd_readcommand_disconnect_ends true Z Z ex_heap 0 false ex_leaver
              ex_leaver_socket 0 (ex_header IMD_KILL 0) [])
    as (sk' & H & _).
  - reflexivity.
  - reflexivity.
  - unfold int32_range. lia.
  - reflexivity.
  - eexists. split; [exact H|]. repeat split.
Defined.

(** *** Forces *)

(** A force-data message for one atom: index 1 and the force, in three
    bursts, with one byte of the next message behind. *)
Definition ex_force_socket : IMDSocket :=
  ex_client [] [Recv [x01; x00]; RdFail true; Recv [x00; x00; x05; x00];
                Recv [x00; x00; x06; x00; x00; x00; x07; x00; x00; x00; x09]].

Definition ex_forces_coming : t_gmx_IMD Z Z :=
  set_imd_length Z Z 1 (ex_session ex_no_listener (Some ex_force_socket) true).

Lemma force_data_complete_witness :
  let s' := snd (imd_command Z Z ex_heap (IMDType_code IMD_MDCOMM) false ex_forces_coming) in
  vmd_nforces Z Z s' = 1
  /\ vmd_f_ind Z Z s' = [x01; x00; x00; x00]
  /\ vmd_forces Z Z s'
     = [x05; x00; x00; x00; x06; x00; x00; x00; x07; x00; x00; x00]
  /\ bNewForces Z Z s' = true.
Proof.
  cbn zeta.
  destruct (force_data_complete Z Z ex_heap ex_forces_coming ex_force_socket false 1)
    as (H1 & H2 & H3 & H4 & _).
  - reflexivity.
  - reflexivity.
  - lia.
  - lia.
  - reflexivity.
  - cbn. lia.
  - repeat split; assumption.
Defined.

(** The coordinator with a fresh batch of one force, and without. *)
Definition ex_fresh : t_gmx_IMD Z Z :=
  set_bNewForces Z Z true (ex_session ex_no_listener None true).

Definition ex_stale : t_gmx_IMD Z Z := ex_session ex_no_listener None true.

Lemma imd_sync_group_new_forces_witness :
  Forall (fun w => nforces Z Z w = 1 /\ f_ind Z Z w = [2]
                   /\ f Z Z w = [Build_vec3 1 0 0] /\ nstimd Z Z w = 1
                   /\ bNewForces Z Z w = false /\ bConnected Z Z w = true)
    (snd (imd_sync_group true Z Z 0 ex_real_ne ex_force_to_md ex_heap ex_fresh
            [ex_idle; ex_idle] 0)).
Proof.
  destruct (imd_sync_group_new_forces true Z Z 0 ex_real_ne ex_force_to_md
              ex_heap ex_fresh [ex_idle; ex_idle] 0) as (_ & H & _).
  - reflexivity.
  - reflexivity.
  - reflexivity.
  - cbn. lia.
  - reflexivity.
  - reflexivity.
  - cbn. lia.
  - cbn. lia.
  - intros [|i] Hi; [vm_compute; split; [discriminate | reflexivity]|].
    cbn in Hi. lia.
  - repeat constructor.
  - exact H.
Defined.

Lemma imd_sync_group_no_new_forces_witness :
  imd_sync_group true Z Z 0 ex_real_ne ex_force_to_md ex_heap ex_stale [ex_idle] 0
  = (ex_stale, [synced_worker Z Z 1 ex_idle]).
Proof.
  etransitivity.
  - apply (imd_sync_group_no_new_forces true Z Z 0 ex_real_ne ex_force_to_md
             ex_heap ex_stale [ex_idle] 0).
    + reflexivity.
    + reflexivity.
    + reflexivity.
    + cbn. lia.
  - reflexivity.
Defined.

(** A session whose applied force has changed since the last log line, and
    one whose pulled atom has changed while the force is the same. *)
Definition ex_pulled_harder : t_gmx_IMD Z Z :=
  set_f Z Z [Build_vec3 5 0 0] (ex_session ex_no_listener None true).


Definition ex_log : FILE Z Z := {| f_disk := []; f_buf := [] |}.

Lemma output_imd_forces_settles_witness :
  bForcesChanged Z Z 0 ex_real_ne ex_pulled_harder = true
  /\ bForcesChanged Z Z 0 ex_real_ne
       (output_imd_forces Z Z 0 ex_real_ne ex_log ex_pulled_harder 0) = false.
Proof.
  split; [reflexivity|].
  apply (output_imd_forces_settles Z Z 0 ex_real_ne ex_log ex_pulled_harder 0).
  - cbn. lia.
  - cbn. lia.
  - intros [|i] Hi; [reflexivity | cbn in Hi; lia].
Defined.


(** *** Molecule shifts *)

Lemma molecule_shift_bound_witness :
  XX (molecule_shift [Build_vec3 1 0 0; Build_vec3 2 0 (-1)] 0 2) <= 2
  /\ YY (molecule_shift [Build_vec3 1 0 0; Build_vec3 2 0 (-1)] 0 2) = 0.
Proof.
  destruct (molecule_shift_bound [Build_vec3 1 0 0; Build_vec3 2 0 (-1)]
              0%nat 2%nat 1%nat) as ((HX & _) & _ & _ & _ & HY & _).
  - lia.
  - split; [apply HX; reflexivity | apply HY; reflexivity].
Defined.

(** *** Writing *)

Definition ex_writer (script : list wr_event) : IMDSocket :=
  Build_IMDSocket [] [] script [] false.

Definition ex_coord_to_wire (a : Z) : float :=
  Build_float x00 x00 x00 (byte_of_Z a).

Definition ex_energies : IMDEnergyBlock :=
  let zero := Build_float x00 x00 x00 x00 in
  Build_IMDEnergyBlock 7 zero zero zero zero zero zero zero zero zero.

Lemma imd_write_multiple_prefix_witness :
  exists n sk',
    imd_write_multiple (ex_writer [Wrote 3; WrFail false])
      [x01; x02; x03; x04; x05] 5 = (n, sk')
    /\ n = 3 /\ sk_sent sk' = [x01; x02; x03].
Proof.
  eexists _, _. split; [reflexivity|].
  destruct (imd_write_multiple_prefix (ex_writer [Wrote 3; WrFail false])
              [x01; x02; x03; x04; x05] 5 _ _ ltac:(cbn; lia) eq_refl)
    as (_ & H & _).
  split; [reflexivity | exact H].
Defined.

Lemma imd_write_multiple_complete_witness :
  exists sk',
    imd_write_multiple (ex_writer [Wrote 3; WrFail true; Wrote 1])
      [x01; x02; x03; x04; x05] 5 = (5, sk')
    /\ sk_sent sk' = [x01; x02; x03; x04; x05].
Proof.
  apply (imd_write_multiple_complete (ex_writer [Wrote 3; WrFail true; Wrote 1])
           [x01; x02; x03; x04; x05] 5).
  - reflexivity.
  - cbn. lia.
Defined.

Lemma imd_handshake_wire_witness :
  exists sk',
    imd_handshake true (ex_writer [Wrote 5]) = (false, sk')
    /\ sk_sent sk' = [x00; x00; x00; x04; x02; x00; x00; x00].
Proof.
  destruct (imd_handshake_wire true (ex_writer [Wrote 5])) as (sk' & H1 & H2 & _).
  - reflexivity.
  - exists sk'. split; [exact H1 | exact H2].
Defined.

Lemma imd_send_energies_wire_witness :
  exists sk',
    imd_send_energies true (ex_writer [Wrote 5]) ex_energies = (false, sk')
    /\ take 12 (sk_sent sk')
       = [x00; x00; x00; x01; x00; x00; x00; x01; x07; x00; x00; x00].
Proof.
  destruct (imd_send_energies_wire true (ex_writer [Wrote 5]) ex_energies)
    as (sk' & H1 & H2 & _).
  - reflexivity.
  - exists sk'. split; [exact H1|]. rewrite H2. reflexivity.
Defined.

Lemma imd_send_rvecs_wire_witness :
  exists sk',
    imd_send_rvecs true Z 0 ex_coord_to_wire (ex_writer [Wrote 5]) 1
      [Build_vec3 1 2 3] = (false, sk')
    /\ sk_sent sk'
       = [x00; x00; x00; x02; x00; x00; x00; x01;
          x00; x00; x00; x01; x00; x00; x00; x02; x00; x00; x00; x03].
Proof.
  destruct (imd_send_rvecs_wire true Z 0 ex_coord_to_wire (ex_writer [Wrote 5]) 1
              [Build_vec3 1 2 3]) as (sk' & H1 & H2 & _).
  - reflexivity.
  - lia.
  - lia.
  - exists sk'. split; [exact H1|]. rewrite H2. reflexivity.
Defined.

(** *** One transmission step *)

Definition ex_sending (script : list wr_event) : t_gmx_IMD Z Z :=
  set_xa Z Z [Build_vec3 1 2 3; Build_vec3 4 5 6; Build_vec3 7 8 9]
    (ex_session ex_no_listener (Some (ex_writer script)) true).

Lemma IMD_send_positions_sends_witness :
  exists sk',
    IMD_send_positions true Z Z 0 ex_coord_to_wire true ex_energies
      (ex_sending [Wrote 5])
    = Some (set_clientsocket Z Z (Some sk') (ex_sending [Wrote 5]))
    /\ length (sk_sent sk') = 92%nat.
Proof.
  destruct (IMD_send_positions_sends true Z Z 0 ex_coord_to_wire ex_energies
              (ex_sending [Wrote 5]) (ex_writer [Wrote 5]))
    as (sk' & H1 & H2 & _).
  - reflexivity.
  - reflexivity.
  - cbn. lia.
  - cbn. lia.
  - exists sk'. split; [exact H1|]. rewrite H2. reflexivity.
Defined.

Lemma IMD_send_positions_after_failure_witness :
  IMD_send_positions true Z Z 0 ex_coord_to_wire true ex_energies
    (ex_sending [Wrote 5; WrFail false]) = None.
Proof.
  apply (IMD_send_positions_after_failure true Z Z 0 ex_coord_to_wire ex_energies
           (ex_sending [Wrote 5; WrFail false])
           (ex_writer [Wrote 5; WrFail false])).
  - reflexivity.
  - reflexivity.
Defined.

(** *** Waiting for a client *)

Definition ex_prompt : IMDSocket :=
  Build_IMDSocket [1] [Recv (ex_header IMD_GO 0)] [] [] false.

Definition ex_waiting : t_gmx_IMD Z Z :=
  ex_session (Build_IMDListenSocket [0; 0; 1] [Some ex_prompt]) None false.

Definition ex_waiting_after : t_gmx_IMD Z Z :=
  Eval vm_compute in
    match imd_blockconnect true Z Z 3 [] ex_waiting with
    | Some (_, s') => s'
    | None => ex_waiting
    end.

(** The same wait, with a signal that asks the run to stop before the
    third reading of the stop condition. *)
Definition ex_interrupted : t_gmx_IMD Z Z :=
  Eval vm_compute in
    match imd_blockconnect true Z Z 3 [false; false; true]
            ex_waiting with
    | Some (_, s') => s'
    | None => ex_waiting
    end.

Lemma imd_blockconnect_connected_witness :
  (imd_blockconnect true Z Z 3 [] ex_waiting = Some ([], ex_waiting_after)
   /\ bConnected Z Z ex_waiting_after = true
   /\ clientsocket Z Z ex_waiting_after <> None)
  /\ (imd_blockconnect true Z Z 3 [false; false; true] ex_waiting
      = Some ([], ex_interrupted)
      /\ clientsocket Z Z ex_interrupted = None
      /\ stop_condition Z Z ex_interrupted = gmx_stop_cond_next
      /\ socket Z Z ex_interrupted = Build_IMDListenSocket [0; 1] [Some ex_prompt]).
Proof.
  assert (H1 : imd_blockconnect true Z Z 3 [] ex_waiting = Some ([], ex_waiting_after))
    by (vm_compute; reflexivity).
  assert (H2 : imd_blockconnect true Z Z 3 [false; false; true]
                 ex_waiting = Some ([], ex_interrupted))
    by (vm_compute; reflexivity).
  split.
  - destruct (imd_blockconnect_connected true Z Z 3 [] [] ex_waiting
                ex_waiting_after eq_refl H1) as ([(_ & Hc & _)|(Hc & _)] & _).
    + split; [exact H1|]. split; [exact Hc | discriminate].
    + discriminate Hc.
  - destruct (imd_blockconnect_connected true Z Z 3
                [false; false; true] [] ex_waiting
                ex_interrupted eq_refl H2) as ([([sk Hc] & _)|(Hc & Hs)] & _).
    + discriminate Hc.
    + split; [exact H2|]. split; [exact Hc|]. split; [exact Hs | reflexivity].
Defined.

Lemma imd_blockconnect_waits_witness :
  exists s' sk',
    imd_blockconnect true Z Z 3
      [false; false; false; false; true] ex_waiting
    = Some ([true], s')
    /\ clientsocket Z Z s' = Some sk' /\ bConnected Z Z s' = true
    /\ sk_sent sk' = [x00; x00; x00; x04; x02; x00; x00; x00].
Proof.
  destruct (imd_blockconnect_waits true Z Z ex_waiting
              [false; false; false; false; true]
              [0; 0] 1 [] ex_prompt [] [] 0 [] [])
    as (s' & sk' & H1 & H2 & H3 & _ & H4 & _).
  - reflexivity.
  - reflexivity.
  - repeat constructor.
  - reflexivity.
  - repeat constructor; lia.
  - lia.
  - reflexivity.
  - reflexivity.
  - reflexivity.
  - unfold int32_range. lia.
  - reflexivity.
  - exists s', sk'. repeat split; assumption.
Defined.

(** *** Molecules of the group *)

(** A topology of three molecules, the first of which has no atom in the
    group [10, 11, 12]. *)
Definition ex_topology : RangePartitioning := Build_RangePartitioning [0; 10; 12; 20].

Definition ex_stale_with_mols : t_gmx_IMD Z Z :=
  set_mols Z Z (Build_t_block 2 [0; 2; 3]%nat) ex_stale.

Lemma init_imd_prepare_mols_block_witness :
  init_imd_prepare_mols_in_imdgroup Z Z ex_heap ex_topology ex_stale
  = Some ex_stale_with_mols
  /\ (forall i, (i < 2)%nat ->
        (nth i [0; 2; 3]%nat 0 < nth (i + 1) [0; 2; 3]%nat 0)%nat).
Proof.
  assert (H : init_imd_prepare_mols_in_imdgroup Z Z ex_heap ex_topology ex_stale
              = Some ex_stale_with_mols) by (vm_compute; reflexivity).
  destruct (init_imd_prepare_mols_block Z Z ex_heap ex_topology ex_stale
              ex_stale_with_mols H) as (_ & _ & _ & Hinc & _).
  split; [exact H | exact Hinc].
Defined.

(** *** Applying the forces *)

Lemma IMD_apply_forces_targets_witness :
  exists f',
    IMD_apply_forces Z Z Z.add true ex_serial (fun _ => None) ex_stale
      (replicate 14 (Build_vec3 0 0 0)) = Some f'
    /\ length f' = 14%nat
    /\ f' !! 12%nat = Some (Build_vec3 1 0 0)
    /\ f' !! 2%nat = Some (Build_vec3 0 0 0).
Proof.
  destruct (IMD_apply_forces_targets Z Z 0 Z.add ex_serial (fun _ => None)
              ex_stale (replicate 14 (Build_vec3 0 0 0)))
    as (f' & H & Hl & Hin & Hout).
  - reflexivity.
  - cbn. lia.
  - intros [|i] Hi; [exists 12; split; [reflexivity | cbn; lia] | cbn in Hi; lia].
  - cbn. apply NoDup_singleton.
  - exists f'. split; [exact H|]. split; [exact Hl|]. split.
    + etransitivity; [apply (Hin 0%nat 12); [cbn; lia | reflexivity] | reflexivity].
    + etransitivity; [apply Hout | reflexivity].
      intros [|i] j Hi Hj; [injection Hj as <-; discriminate | cbn in Hi; lia].
Defined.

(** An index that lies outside [ind]: the source reads past the array, the
    run has no defined outcome. *)
Example IMD_apply_forces_outside :
  IMD_apply_forces Z Z Z.add true ex_serial (fun _ => None)
    (set_f_ind Z Z [2000000] ex_stale) (replicate 14 (Build_vec3 0 0 0)) = None.
Proof. reflexivity. Qed.


(** *** From the energies to the wire, from the wire to every process *)

Lemma IMD_prep_energies_send_positions_step_witness :
  exists ene' sk',
    IMD_prep_energies_send_positions true Z Z 0 ex_coord_to_wire ex_coord_to_wire
      true (ex_sending [Wrote 5]) ex_energies true (fun _ => 0) 4294967305 false
    = Some (set_clientsocket Z Z (Some sk') (ex_sending [Wrote 5]), ene')
    /\ tstep ene' = 9
    /\ take 12 (sk_sent sk')
       = [x00; x00; x00; x01; x00; x00; x00; x01; x09; x00; x00; x00].
Proof.
  destruct (IMD_prep_energies_send_positions_step true Z Z 0 ex_coord_to_wire
              ex_coord_to_wire (ex_sending [Wrote 5]) (ex_writer [Wrote 5])
              ex_energies (fun _ => 0) 4294967305 false)
    as (ene' & sk' & H1 & H2 & _ & H4).
  - reflexivity.
  - reflexivity.
  - cbn. lia.
  - cbn. lia.
  - exists ene', sk'. split; [exact H1|]. split; [exact H2|].
    rewrite H4. reflexivity.
Defined.

(** A client that sends one force: atom 1 of the group, force (5, 6, 7). *)
Definition ex_pulling_socket : IMDSocket :=
  ex_client [1]
    [Recv (ex_header IMD_MDCOMM 1 ++ [x01; x00; x00; x00]
           ++ [x05; x00; x00; x00; x06; x00; x00; x00; x07; x00; x00; x00])].

Definition ex_pulling : t_gmx_IMD Z Z :=
  ex_session ex_no_listener (Some ex_pulling_socket) true.

Lemma force_batch_end_to_end_witness :
  exists m1,
    imd_readcommand true Z Z ex_heap 1 ex_pulling = Some m1
    /\ Forall (fun p => nforces Z Z p = 1 /\ f_ind Z Z p = [1]
                        /\ f Z Z p = [Build_vec3 5 6 7]
                        /\ bConnected Z Z p = true)
         (snd (imd_sync_group true Z Z 0 ex_real_ne ex_force_to_md ex_heap m1
                 [ex_idle; ex_idle] 0)).
Proof.
  destruct (force_batch_end_to_end true Z Z 0 ex_real_ne ex_force_to_md ex_heap
              ex_pulling ex_pulling_socket [ex_idle; ex_idle] 0 1
              [x01; x00; x00; x00]
              [x05; x00; x00; x00; x06; x00; x00; x00; x07; x00; x00; x00]
              0%nat) as (m1 & H1 & H2).
  - reflexivity.
  - reflexivity.
  - reflexivity.
  - repeat constructor.
  - reflexivity.
  - lia.
  - lia.
  - reflexivity.
  - reflexivity.
  - cbn. lia.
  - cbn. lia.
  - change (Forall (fun j => 0 <= j < 3) [1]). repeat constructor; lia.
  - reflexivity.
  - exists m1. split; [exact H1|].
    apply Forall_cons in H2 as [_ H2]. exact H2.
Defined.
